(** * D'Hondt apportionment and poll reconciliation of [diputados_service.py]

    A shallow embedding of the two algorithms of
    [app/services/diputados_service.py]:

    - [dhondt_alloc], the divisor method, and its two-level use by
      [DiputadosService.compute_dhondt] and [DiputadosService.resumen_nacional];
    - [assign_votes_to_candidates], the fuzzy reconciliation of a poll with
      the candidate roster.

    Conventions of the embedding.
    - A Python [dict] is an association list in insertion order; a list is a
      well-formed dict when its keys are pairwise distinct ([wf_dict]).
    - A Python [float] is an exact rational ([Q]): vote totals, quotients and
      similarity ratios are compared exactly.
    - A Python exception is the [Err] branch of [result]. *)

From Stdlib Require Import List String ZArith QArith Lia Lqa Bool Arith.
From Stdlib Require Import Qround Permutation Sorted Ascii DecimalString.
Import ListNotations.

Local Open Scope string_scope.

(** ** Exceptions *)

Inductive error : Type :=
| KeyError (k : string)
| IndexError
| ValueError (msg : string)
| AttributeError
| TypeError
| OverflowError.

Inductive result (A : Type) : Type :=
| Ok (a : A)
| Err (e : error).

Arguments Ok {A} a.
Arguments Err {A} e.

Definition bind {A B : Type} (r : result A) (f : A -> result B) : result B :=
  match r with
  | Ok a => f a
  | Err e => Err e
  end.

Notation "x <- r ;; k" := (bind r (fun x => k))
  (at level 61, r at next level, right associativity).

Fixpoint foldM {A S : Type} (f : S -> A -> result S) (l : list A) (s : S)
  : result S :=
  match l with
  | [] => Ok s
  | a :: l' => s' <- f s a ;; foldM f l' s'
  end.

(** ** Dictionaries in insertion order *)

Definition dict (V : Type) : Type := list (string * V).

Definition keys {V : Type} (d : dict V) : list string := map fst d.
Definition values {V : Type} (d : dict V) : list V := map snd d.

Definition wf_dict {V : Type} (d : dict V) : Prop := NoDup (keys d).

(** [d[k]] *)
Fixpoint dict_get {V : Type} (d : dict V) (k : string) : result V :=
  match d with
  | [] => Err (KeyError k)
  | (k', v) :: d' => if String.eqb k' k then Ok v else dict_get d' k
  end.

(** [d[k] = v]: an existing key keeps its place, a new key goes last. *)
Fixpoint dict_set {V : Type} (d : dict V) (k : string) (v : V) : dict V :=
  match d with
  | [] => [(k, v)]
  | (k', v') :: d' =>
      if String.eqb k' k then (k', v) :: d' else (k', v') :: dict_set d' k v
  end.

(** [{k: v for (k, v) in items}] *)
Definition dict_of_items {V : Type} (items : list (string * V)) : dict V :=
  fold_left (fun d kv => dict_set d (fst kv) (snd kv)) items [].

(** [d[k] += 1] *)
Definition dict_incr (d : dict Z) (k : string) : result (dict Z) :=
  v <- dict_get d k ;; Ok (dict_set d k (v + 1)%Z).

(** ** [list.sort(reverse=True, key=...)]

    Python's sort is stable, and stays so under [reverse=True]: elements with
    equal keys keep their original relative order.  Insertion from the right
    places an element in front of the first element whose key is not above
    its own. *)

Fixpoint insert_desc {A : Type} (key : A -> Q) (x : A) (l : list A) : list A :=
  match l with
  | [] => [x]
  | y :: l' =>
      if Qle_bool (key y) (key x) then x :: l else y :: insert_desc key x l'
  end.

Definition sort_desc {A : Type} (key : A -> Q) (l : list A) : list A :=
  fold_right (insert_desc key) [] l.

(** [a > b] on floats. *)
Definition Qgt_bool (a b : Q) : bool := negb (Qle_bool a b).

(** [enumerate(l)] *)
Definition enumerate {A : Type} (l : list A) : list (nat * A) :=
  combine (seq 0 (List.length l)) l.

(** [range(1, n + 1)] *)
Definition range1 (n : Z) : list Z :=
  map Z.of_nat (seq 1 (Z.to_nat n)).

(** [l[:n]], with Python's meaning of a negative bound. *)
Definition slice_to {A : Type} (l : list A) (n : Z) : list A :=
  if (0 <=? n)%Z then firstn (Z.to_nat n) l
  else firstn (List.length l - Z.to_nat (- n)) l.

(** ** [dhondt_alloc] *)

(** Step 1: the table of quotients, one row [(valor, lista)] per list and
    divisor, lists in insertion order, divisors ascending. *)
Definition cocientes_de (votos_por_lista : dict Q) (num_escanos : Z)
  : list (Q * string) :=
  flat_map
    (fun item : string * Q =>
       let (lista, votos) := item in
       map (fun divisor => ((votos / inject_Z divisor)%Q, lista))
           (range1 num_escanos))
    votos_por_lista.

(** Steps 2 and 3: sort by quotient, descending, and keep the first
    [num_escanos] rows. *)
Definition ganadores_de (votos_por_lista : dict Q) (num_escanos : Z)
  : list (Q * string) :=
  slice_to (sort_desc fst (cocientes_de votos_por_lista num_escanos))
           num_escanos.

(** Step 4: [{lista: 0 for lista in votos_por_lista}], then one increment per
    winning row. *)
Definition asignacion_inicial (votos_por_lista : dict Q) : dict Z :=
  dict_of_items (map (fun lista => (lista, 0%Z)) (keys votos_por_lista)).

Definition dhondt_alloc (votos_por_lista : dict Q) (num_escanos : Z)
  : result (dict Z) :=
  foldM (fun asignacion row => dict_incr asignacion (snd row))
        (ganadores_de votos_por_lista num_escanos)
        (asignacion_inicial votos_por_lista).

Definition sumZ (l : list Z) : Z := fold_right Z.add 0%Z l.


(** ** The two-level application

    [compute_dhondt] and [resumen_nacional] run the same loop: the method on
    the pacts with the district's seats, then, pact by pact, on the parties
    of the pact that have votes. *)

Module Party.
Record t : Type := mk {
  id : string;
  name : string;
  votes : Q;
  pact_id : option string
}.
End Party.

Module Pact.
Record t : Type := mk {
  id : string;
  name : string;
  votes : Q
}.
End Pact.

(** [p.pact_id == pacto] *)
Definition pact_id_eqb (pact_id : option string) (pacto : string) : bool :=
  match pact_id with
  | Some s => String.eqb s pacto
  | None => false
  end.

(** [{p.id: p.votes for p in pacts if p.id}] *)
Definition pact_votes_de (pacts : list Pact.t) : dict Q :=
  dict_of_items
    (map (fun p => (Pact.id p, Pact.votes p))
         (filter (fun p => negb (String.eqb (Pact.id p) "")) pacts)).

(** [sub_parties = [p for p in parties if p.pact_id == pacto]] *)
Definition sub_parties_de (parties : list Party.t) (pacto : string)
  : list Party.t :=
  filter (fun p => pact_id_eqb (Party.pact_id p) pacto) parties.

(** [sub_votes = {p.id: p.votes for p in sub_parties if p.votes > 0}] *)
Definition sub_votes_de (parties : list Party.t) (pacto : string) : dict Q :=
  dict_of_items
    (map (fun p => (Party.id p, Party.votes p))
         (filter (fun p => Qgt_bool (Party.votes p) 0)
                 (sub_parties_de parties pacto))).

(** One turn of [for pacto, n_seats in pact_alloc.items()]: [continue] on an
    empty [sub_votes], else the pact's [sub_alloc] is recorded. *)
Definition asignar_pacto (parties : list Party.t)
  (acc : list (string * dict Z)) (item : string * Z)
  : result (list (string * dict Z)) :=
  let (pacto, n_seats) := item in
  match sub_votes_de parties pacto with
  | [] => Ok acc
  | sub_votes =>
      sub_alloc <- dhondt_alloc sub_votes n_seats ;;
      Ok (acc ++ [(pacto, sub_alloc)])%list
  end.

Definition asignar_partidos (parties : list Party.t) (pact_alloc : dict Z)
  : result (list (string * dict Z)) :=
  foldM (asignar_pacto parties) pact_alloc [].

(** The pact allocation together with the party allocation of every pact
    that was not skipped. *)
Definition compute_dhondt (pacts : list Pact.t) (parties : list Party.t)
  (seats : Z) : result (dict Z * list (string * dict Z)) :=
  pact_alloc <- dhondt_alloc (pact_votes_de pacts) seats ;;
  sub_allocs <- asignar_partidos parties pact_alloc ;;
  Ok (pact_alloc, sub_allocs).

(** ** [assign_votes_to_candidates]

    A roster entry and a poll entry are dictionaries with fixed keys; they
    are records here.  The provenance keys of a roster entry, absent before
    the first run, read as their defaults.  A poll entry of this section
    carries its name and its vote figure; the poll as it comes, with any
    JSON value under its keys or none, is
    [assign_votes_to_candidates_json] further down, and the two runs agree
    on the entries of this section. *)

Module Candidate.
Record t : Type := mk {
  id : string;
  name : string;
  votes : Q;
  party_id : string;
  matched_from : option string;
  match_quality : Q
}.
End Candidate.

Module Encuesta.
Record t : Type := mk {
  nombre : string;
  votos : Q
}.
End Encuesta.

(** The loop state: the roster, mutated in place, and the two index sets. *)
Record estado : Type := mk_estado {
  st_candidates : list Candidate.t;
  matched_candidates : list nat;
  matched_encuestas : list nat
}.

Definition mem (i : nat) (s : list nat) : bool := existsb (Nat.eqb i) s.

Fixpoint replace_nth {A : Type} (i : nat) (x : A) (l : list A) : list A :=
  match l, i with
  | [], _ => []
  | _ :: l', O => x :: l'
  | y :: l', S i' => y :: replace_nth i' x l'
  end.

(** [l[i]] *)
Definition list_get {A : Type} (l : list A) (i : nat) : result A :=
  match nth_error l i with
  | Some x => Ok x
  | None => Err IndexError
  end.

(** The three writes to [candidates[best_match]]. *)
Definition marcar (votos : Q) (nombre : option string) (quality : Q)
  (c : Candidate.t) : Candidate.t :=
  Candidate.mk (Candidate.id c) (Candidate.name c) votos (Candidate.party_id c)
               nombre quality.

(** The writes to a roster entry that no poll entry matched:
    [float(c.get("votes", 0) or 0)] is the entry's own figure. *)
Definition sin_match (c : Candidate.t) : Candidate.t :=
  marcar (Candidate.votes c) None 0 c.

(** The writes of the branch taken on an empty poll. *)
Definition sin_encuesta (c : Candidate.t) : Candidate.t :=
  marcar 0 None 0 c.

Section Reconciler.

(** Library functions the service calls: the pieces of [normalize]
    ([str.lower], [str.strip], [unicodedata.normalize("NFD", _)], the removal
    of combining marks), [difflib.SequenceMatcher(None, a, b).ratio()] and
    [round(_, 3)]. *)
Variable lower : string -> string.
Variable strip : string -> string.
Variable nfd : string -> string.
Variable quitar_marcas : string -> string.
Variable ratio : string -> string -> Q.
Variable round3 : Q -> Q.

Definition normalize (s : string) : string :=
  if String.eqb s "" then "" else quitar_marcas (nfd (strip (lower s))).

(** One turn of [for i, name in enumerate(names)]. *)
Definition mejor_paso (nombre_encuesta : string) (acc : option nat * Q)
  (item : nat * string) : option nat * Q :=
  let (i, name) := item in
  let r := ratio nombre_encuesta name in
  if Qgt_bool r (snd acc) then (Some i, r) else acc.

(** [(best_match, best_ratio)] once the inner loop is over. *)
Definition buscar_mejor (names : list string) (nombre_encuesta : string)
  : option nat * Q :=
  fold_left (mejor_paso nombre_encuesta) (enumerate names) (None, 0%Q).

(** One turn of [for e_idx, encuesta in enumerate(encuesta_lista)]. *)
Definition procesar (names : list string) (threshold : Q) (st : estado)
  (item : nat * Encuesta.t) : result estado :=
  let (e_idx, encuesta) := item in
  let nombre_encuesta := normalize (Encuesta.nombre encuesta) in
  match buscar_mejor names nombre_encuesta with
  | (Some best_match, best_ratio) =>
      if Qle_bool threshold best_ratio then
        if mem best_match (matched_candidates st) then
          c <- list_get (st_candidates st) best_match ;;
          Err (ValueError ("Candidato " ++ Candidate.name c ++ " duplicado"))
        else
          c <- list_get (st_candidates st) best_match ;;
          Ok (mk_estado
                (replace_nth best_match
                   (marcar (Encuesta.votos encuesta)
                           (Some (Encuesta.nombre encuesta))
                           (round3 best_ratio) c)
                   (st_candidates st))
                (best_match :: matched_candidates st)
                (e_idx :: matched_encuestas st))
      else Ok st
  | (None, _) => Ok st
  end.

(** The roster after the run and the poll names the warning is printed
    from ([unmatched]). *)
Definition assign_votes_to_candidates (candidates : list Candidate.t)
  (encuesta_lista : list Encuesta.t) (threshold : Q)
  : result (list Candidate.t * list string) :=
  match encuesta_lista with
  | [] => Ok (map sin_encuesta candidates, [])
  | _ =>
      let names := map (fun c => normalize (Candidate.name c)) candidates in
      st <- foldM (procesar names threshold) (enumerate encuesta_lista)
                  (mk_estado candidates [] []) ;;
      Ok (map (fun ic : nat * Candidate.t =>
                 if mem (fst ic) (matched_candidates st) then snd ic
                 else sin_match (snd ic))
              (enumerate (st_candidates st)),
          map (fun ie : nat * Encuesta.t => Encuesta.nombre (snd ie))
              (filter (fun ie : nat * Encuesta.t =>
                         negb (mem (fst ie) (matched_encuestas st)))
                      (enumerate encuesta_lista)))
  end.

(** *** Notions used to state the properties of the reconciliation *)

(** The candidate a poll name points to: the first one, in roster order, of
    the highest ratio among all the candidates. *)
Definition mejor_candidato (names : list string) (nombre_encuesta : string)
  (i : nat) : Prop :=
  exists name,
    nth_error names i = Some name
    /\ (forall j name', nth_error names j = Some name' ->
                        (ratio nombre_encuesta name'
                         <= ratio nombre_encuesta name)%Q)
    /\ (forall j name', (j < i)%nat -> nth_error names j = Some name' ->
                        (ratio nombre_encuesta name'
                         < ratio nombre_encuesta name)%Q).

(** The poll entry [e] selects candidate [i]: its best candidate reaches the
    threshold. *)
Definition acepta (names : list string) (threshold : Q) (e : Encuesta.t)
  (i : nat) : Prop :=
  mejor_candidato names (normalize (Encuesta.nombre e)) i
  /\ exists name,
       nth_error names i = Some name
       /\ (threshold <= ratio (normalize (Encuesta.nombre e)) name)%Q.

(** The same, computed as the loop body computes it: the candidate and the
    ratio of an accepted match. *)
Definition destino (names : list string) (threshold : Q) (e : Encuesta.t)
  : option (nat * Q) :=
  match buscar_mejor names (normalize (Encuesta.nombre e)) with
  | (Some i, r) => if Qle_bool threshold r then Some (i, r) else None
  | (None, _) => None
  end.

(** The first poll entry that selects candidate [i], with its ratio. *)
Fixpoint asignado (names : list string) (threshold : Q)
  (encuesta_lista : list Encuesta.t) (i : nat) : option (Encuesta.t * Q) :=
  match encuesta_lista with
  | [] => None
  | e :: resto =>
      match destino names threshold e with
      | Some (i', r) =>
          if Nat.eqb i' i then Some (e, r)
          else asignado names threshold resto i
      | None => asignado names threshold resto i
      end
  end.

Definition es_algo {A : Type} (o : option A) : bool :=
  match o with Some _ => true | None => false end.

(** Some candidate is selected by two poll entries. *)
Fixpoint duplicado (names : list string) (threshold : Q)
  (encuesta_lista : list Encuesta.t) : bool :=
  match encuesta_lista with
  | [] => false
  | e :: resto =>
      match destino names threshold e with
      | Some (i, _) =>
          es_algo (asignado names threshold resto i)
          || duplicado names threshold resto
      | None => duplicado names threshold resto
      end
  end.

(** Poll entry number [j] selects a candidate, the entries being numbered
    from [desde]. *)
Definition marcada (names : list string) (threshold : Q)
  (encuesta_lista : list Encuesta.t) (desde j : nat) : bool :=
  match nth_error encuesta_lista (j - desde) with
  | Some e => Nat.leb desde j && es_algo (destino names threshold e)
  | None => false
  end.

(** The roster entry [snd ic], number [fst ic], after a run without
    duplicate: the figures of the poll entry that selected it, if any. *)
Definition reconciliado (names : list string) (threshold : Q)
  (encuesta_lista : list Encuesta.t) (ic : nat * Candidate.t)
  : Candidate.t :=
  match asignado names threshold encuesta_lista (fst ic) with
  | Some (e, r) =>
      marcar (Encuesta.votos e) (Some (Encuesta.nombre e)) (round3 r) (snd ic)
  | None => sin_match (snd ic)
  end.

(** *** The matching rule in the words of the specification

    "For each poll entry, compute the similarity ratio against every
    not-yet-matched candidate; select the single highest-ratio candidate."
    These definitions follow that sentence, not the code. *)

Definition buscar_mejor_spec (names : list string) (matched : list nat)
  (nombre_encuesta : string) : option nat * Q :=
  fold_left (mejor_paso nombre_encuesta)
            (filter (fun item : nat * string => negb (mem (fst item) matched))
                    (enumerate names))
            (None, 0%Q).

Definition procesar_spec (names : list string) (threshold : Q) (st : estado)
  (item : nat * Encuesta.t) : result estado :=
  let (e_idx, encuesta) := item in
  let nombre_encuesta := normalize (Encuesta.nombre encuesta) in
  match buscar_mejor_spec names (matched_candidates st) nombre_encuesta with
  | (Some best_match, best_ratio) =>
      if Qle_bool threshold best_ratio then
        c <- list_get (st_candidates st) best_match ;;
        Ok (mk_estado
              (replace_nth best_match
                 (marcar (Encuesta.votos encuesta)
                         (Some (Encuesta.nombre encuesta))
                         (round3 best_ratio) c)
                 (st_candidates st))
              (best_match :: matched_candidates st)
              (e_idx :: matched_encuestas st))
      else Ok st
  | (None, _) => Ok st
  end.

Definition reconcile_spec (candidates : list Candidate.t)
  (encuesta_lista : list Encuesta.t) (threshold : Q)
  : result (list Candidate.t * list string) :=
  match encuesta_lista with
  | [] => Ok (map sin_encuesta candidates, [])
  | _ =>
      let names := map (fun c => normalize (Candidate.name c)) candidates in
      st <- foldM (procesar_spec names threshold) (enumerate encuesta_lista)
                  (mk_estado candidates [] []) ;;
      Ok (map (fun ic : nat * Candidate.t =>
                 if mem (fst ic) (matched_candidates st) then snd ic
                 else sin_match (snd ic))
              (enumerate (st_candidates st)),
          map (fun ie : nat * Encuesta.t => Encuesta.nombre (snd ie))
              (filter (fun ie : nat * Encuesta.t =>
                         negb (mem (fst ie) (matched_encuestas st)))
                      (enumerate encuesta_lista)))
  end.

End Reconciler.

(** *** A concrete poll

    Names that [normalize] leaves as they are, with the values difflib gives
    on them: [ratio("ana", "ana") = 1.0] and [ratio("ana", "anab") = 6/7];
    any other pair is given 0.  [round3_ej] rounds to three decimals. *)

Definition ratio_ej (a b : string) : Q :=
  if String.eqb a b then 1%Q
  else if String.eqb a "ana" && String.eqb b "anab" then (6 # 7)%Q
  else 0%Q.

Definition round3_ej (q : Q) : Q :=
  Qmake (Qfloor (q * 1000 + (1 # 2))) 1000.

Definition sin_cambio (s : string) : string := s.

Definition roster_ej : list Candidate.t :=
  [Candidate.mk "1" "ana" 0 "P" None 0;
   Candidate.mk "2" "anab" 0 "P" None 0].

Definition encuesta_ej : list Encuesta.t :=
  [Encuesta.mk "ana" 10; Encuesta.mk "ana" 20].

Definition encuesta_sin_duplicado_ej : list Encuesta.t :=
  [Encuesta.mk "ana" 10; Encuesta.mk "zzz" 5].

(** ** Notions used to state the properties *)

(** Pairwise distinct keys, as a test. *)
Fixpoint distintas (l : list string) : bool :=
  match l with
  | [] => true
  | x :: l' => negb (existsb (String.eqb x) l') && distintas l'
  end.

(** The order a stable descending sort produces on rows told apart by a
    tag [id]: a higher key first, and on equal keys the row whose tag comes
    first under [R]. *)
Definition precede {A : Type} (key : A -> Q) (id : A -> nat)
  (R : nat -> nat -> Prop) (x y : A) : Prop :=
  (key y < key x)%Q \/ ((key x == key y)%Q /\ R (id x) (id y)).

(** [precede] under the strict order of the tags, as a test. *)
Definition antes {A : Type} (key : A -> Q) (id : A -> nat) (y x : A) : bool :=
  Qgt_bool (key y) (key x) || (Qeq_bool (key y) (key x) && Nat.ltb (id y) (id x)).

(** The number of rows of [l] that go before [x]. *)
Definition rango {A : Type} (key : A -> Q) (id : A -> nat) (l : list A)
  (x : A) : nat :=
  List.length (filter (fun y => antes key id y x) l).

(** The table of quotients, every row tagged with the position of its list
    in the input mapping, positions counted from [desde]. *)
Definition cocientes_indexados (desde : nat) (votos_por_lista : dict Q)
  (num_escanos : Z) : list (nat * (Q * string)) :=
  flat_map
    (fun item : nat * (string * Q) =>
       map (fun divisor =>
              (fst item,
               ((snd (snd item) / inject_Z divisor)%Q, fst (snd item))))
           (range1 num_escanos))
    (combine (seq desde (List.length votos_por_lista)) votos_por_lista).

(** Raising the votes of [k] leaves every row of another list as it is and
    lowers no row of [k]. *)
Definition sube (k : string) (r r' : Q * string) : Prop :=
  snd r = snd r'
  /\ (if String.eqb (snd r) k then (fst r <= fst r')%Q else r = r').

(** How many of the rows belong to [k]. *)
Definition cuenta (k : string) (rows : list (Q * string)) : Z :=
  Z.of_nat (List.length (filter (fun r => String.eqb (snd r) k) rows)).

(** ** The elected candidates

    Inside the loop over the pacts, [compute_dhondt] takes for every party of
    [sub_alloc] the first [n] candidates of the party by votes:
    [sorted([c for c in candidates if c.party_id == pid],
            key=lambda x: x.votes, reverse=True)[:n]].
    A row without [cupo] carries a [party_id] equal to no party identifier;
    it is never selected and has no place in the roster here. *)

Definition candidatos_electos (candidates : list Candidate.t) (pid : string)
  (n : Z) : list Candidate.t :=
  slice_to
    (sort_desc Candidate.votes
       (filter (fun c => String.eqb (Candidate.party_id c) pid) candidates))
    n.

(** [winners], once the loop over the pacts is over. *)
Definition winners_de (candidates : list Candidate.t)
  (sub_allocs : list (string * dict Z)) : list Candidate.t :=
  flat_map
    (fun ps : string * dict Z =>
       flat_map
         (fun it : string * Z =>
            candidatos_electos candidates (fst it) (snd it))
         (snd ps))
    sub_allocs.

(** The seats handed to parties, all pacts together. *)
Definition escanos_repartidos (sub_allocs : list (string * dict Z)) : Z :=
  sumZ (map (fun ps : string * dict Z => sumZ (values (snd ps))) sub_allocs).

(** ** [normalize_district]

    A string is a sequence of characters with code points below 256; among
    these the decimal digits, which is what [\d] matches, are ['0'] to
    ['9']. *)

Definition es_digito (c : ascii) : bool :=
  Nat.leb 48 (nat_of_ascii c) && Nat.leb (nat_of_ascii c) 57.

(** The longest run of digits at the head of [s]. *)
Fixpoint tomar_digitos (s : string) : string :=
  match s with
  | EmptyString => EmptyString
  | String c s' =>
      if es_digito c then String c (tomar_digitos s') else EmptyString
  end.

(** [re.search(r'\d+', s)]: the first run of digits, taken whole. *)
Fixpoint primer_numero (s : string) : option string :=
  match s with
  | EmptyString => None
  | String c s' =>
      if es_digito c then Some (String c (tomar_digitos s'))
      else primer_numero s'
  end.

Fixpoint valor_desde (acc : nat) (num : string) : nat :=
  match num with
  | EmptyString => acc
  | String c num' => valor_desde (acc * 10 + (nat_of_ascii c - 48)) num'
  end.

(** [int(num)] on a run of digits.  [limite] is the interpreter's
    [sys.get_int_max_str_digits()]: when it is not 0, a longer run raises
    [ValueError]. *)
Definition int_de_digitos (limite : nat) (num : string) : result nat :=
  if negb (Nat.eqb limite 0) && Nat.ltb limite (String.length num)
  then Err (ValueError "Exceeds the limit for integer string conversion")
  else Ok (valor_desde 0 num).

(** [str(d)] *)
Definition str_de_nat (d : nat) : string :=
  NilZero.string_of_uint (Nat.to_uint d).

(** The bare [except] sends every failure of the conversion to the last
    line, which returns the input. *)
Definition normalize_district (limite : nat) (distrito : string) : string :=
  match primer_numero distrito with
  | Some num =>
      match int_de_digitos limite num with
      | Ok d =>
          if Nat.leb 1 d && Nat.leb d 28 then str_de_nat d else distrito
      | Err _ => distrito
      end
  | None => distrito
  end.

(** A string of [z] zeros. *)
Fixpoint ceros (z : nat) : string :=
  match z with
  | O => EmptyString
  | S z' => String "0" (ceros z')
  end.

Fixpoint todos (p : ascii -> bool) (s : string) : bool :=
  match s with
  | EmptyString => true
  | String c s' => p c && todos p s'
  end.

(** [s] does not start with a digit. *)
Definition sin_digito_inicial (s : string) : bool :=
  match s with
  | EmptyString => true
  | String c _ => negb (es_digito c)
  end.

(** What the decimal writing of a district number must satisfy; checked by
    computation on 1 to 28. *)
Definition decimal_correcto (d : nat) : bool :=
  match primer_numero (str_de_nat d) with
  | Some num => String.eqb num (str_de_nat d)
  | None => false
  end
  && Nat.eqb (valor_desde 0 (str_de_nat d)) d
  && Nat.leb (String.length (str_de_nat d)) 2
  && todos es_digito (str_de_nat d)
  && negb (String.eqb (str_de_nat d) "").

(** ** [get_emol_csv]

    A row of the district's table, with the columns the service reads.  A
    column without value is [None]. *)

Module Fila.
Record t : Type := mk {
  nombre : string;
  cupo : string;
  pacto : option string;
  id_foto : option string
}.
End Fila.

(** The roster [get_emol_csv] builds, every candidate at 0.0 votes:
    [{"id": str(row.get("id_foto", idx)), "name": row["nombre"],
      "votes": 0.0, "party_id": row.get("cupo", "")}]. *)
Definition roster_de_filas (rows : list Fila.t) : list Candidate.t :=
  map (fun item : nat * Fila.t =>
         Candidate.mk
           (match Fila.id_foto (snd item) with
            | Some f => f
            | None => str_de_nat (fst item)
            end)
           (Fila.nombre (snd item)) 0 (Fila.cupo (snd item)) None 0)
      (enumerate rows).

(** ** [resumen_nacional]

    The national summary runs the two-level loop on every district that has
    a table and a poll, and adds the seats and the votes up in two
    dictionaries, one by pact and one by party.  The embedding starts where
    the district's pacts, parties and seats are at hand ([# Aplicar
    D'Hondt]): the matching of the poll and the two groupings before it are
    not part of it. *)

Module ResumenPacto.
Record t : Type := mk {
  escanos : Z;
  votos : Q
}.
End ResumenPacto.

Module ResumenPartido.
Record t : Type := mk {
  escanos : Z;
  votos : Q;
  pacto : string
}.
End ResumenPartido.

(** What the loop has of a district: its pacts, its parties, its seats. *)
Module Distrito.
Record t : Type := mk {
  pacts : list Pact.t;
  parties : list Party.t;
  seats : Z
}.
End Distrito.

(** [d.setdefault(k, v)] *)
Definition setdefault {V : Type} (d : dict V) (k : string) (v : V) : dict V :=
  match dict_get d k with
  | Ok _ => d
  | Err _ => dict_set d k v
  end.

(** [d.get(k, v)] *)
Definition dict_get_default {V : Type} (d : dict V) (k : string) (v : V) : V :=
  match dict_get d k with
  | Ok x => x
  | Err _ => v
  end.

(** [next((p.votes for p in parties if p.id == pid), 0)] *)
Definition votos_de_partido (parties : list Party.t) (pid : string) : Q :=
  match find (fun p => String.eqb (Party.id p) pid) parties with
  | Some p => Party.votes p
  | None => 0
  end.

(** [resumen_pactos.setdefault(pacto, {"escaños": 0, "votos": 0})] and the
    two [+=] on the entry. *)
Definition acumular_pacto (resumen_pactos : dict ResumenPacto.t)
  (pacto : string) (n_seats : Z) (votos : Q)
  : result (dict ResumenPacto.t) :=
  let resumen := setdefault resumen_pactos pacto (ResumenPacto.mk 0 0) in
  x <- dict_get resumen pacto ;;
  Ok (dict_set resumen pacto
        (ResumenPacto.mk (ResumenPacto.escanos x + n_seats)
                         (ResumenPacto.votos x + votos))).

(** [resumen_partidos.setdefault(pid, {"escaños": 0, "votos": 0,
    "pacto": pacto})] and the two [+=] on the entry. *)
Definition acumular_partido (parties : list Party.t) (pacto : string)
  (resumen_partidos : dict ResumenPartido.t) (item : string * Z)
  : result (dict ResumenPartido.t) :=
  let (pid, n) := item in
  let resumen :=
    setdefault resumen_partidos pid (ResumenPartido.mk 0 0 pacto) in
  x <- dict_get resumen pid ;;
  Ok (dict_set resumen pid
        (ResumenPartido.mk (ResumenPartido.escanos x + n)
                           (ResumenPartido.votos x
                            + votos_de_partido parties pid)
                           (ResumenPartido.pacto x))).

(** One turn of [for pacto, n_seats in pact_alloc.items()]. *)
Definition resumen_pacto (parties : list Party.t) (pact_votes : dict Q)
  (acc : dict ResumenPacto.t * dict ResumenPartido.t) (item : string * Z)
  : result (dict ResumenPacto.t * dict ResumenPartido.t) :=
  let (pacto, n_seats) := item in
  match sub_votes_de parties pacto with
  | [] => Ok acc
  | sub_votes =>
      sub_alloc <- dhondt_alloc sub_votes n_seats ;;
      resumen_pactos <- acumular_pacto (fst acc) pacto n_seats
                          (dict_get_default pact_votes pacto 0) ;;
      resumen_partidos <- foldM (acumular_partido parties pacto) sub_alloc
                            (snd acc) ;;
      Ok (resumen_pactos, resumen_partidos)
  end.

(** One turn of [for d in distritos], for a district that is not skipped,
    from [pact_votes] on. *)
Definition resumen_distrito
  (acc : dict ResumenPacto.t * dict ResumenPartido.t) (d : Distrito.t)
  : result (dict ResumenPacto.t * dict ResumenPartido.t) :=
  let pact_votes := pact_votes_de (Distrito.pacts d) in
  pact_alloc <- dhondt_alloc pact_votes (Distrito.seats d) ;;
  foldM (resumen_pacto (Distrito.parties d) pact_votes) pact_alloc acc.

(** [resumen_pactos] and [resumen_partidos] after the loop. *)
Definition resumen_nacional (distritos : list Distrito.t)
  : result (dict ResumenPacto.t * dict ResumenPartido.t) :=
  foldM resumen_distrito distritos ([], []).

Definition escanos_pactos (r : dict ResumenPacto.t) : Z :=
  sumZ (map ResumenPacto.escanos (values r)).

Definition escanos_partidos (r : dict ResumenPartido.t) : Z :=
  sumZ (map ResumenPartido.escanos (values r)).

(** ** Votes of a row: [compute_dhondt] and [get_todos_candidatos]

    Both go through the rows of a district and look in the poll for the
    name of the row, each in its own way. *)

Module CandidatoNacional.
Record t : Type := mk {
  nombre : string;
  partido : string;
  pacto : option string;
  distrito : nat;
  votos : Q;
  color : string
}.
End CandidatoNacional.

(** A district of the national list: its number, its rows, its poll. *)
Module Tabla.
Record t : Type := mk {
  numero : nat;
  filas : list Fila.t;
  encuesta : list Encuesta.t
}.
End Tabla.

Section Coincidencias.

Variables lower strip nfd quitar_marcas : string -> string.
Variable ratio : string -> string -> Q.

(** One turn of [for enc in encuesta_lista] in [compute_dhondt]. *)
Definition mejor_encuesta_paso (nombre_emol : string)
  (acc : option Encuesta.t * Q) (enc : Encuesta.t) : option Encuesta.t * Q :=
  let r := ratio nombre_emol
             (normalize lower strip nfd quitar_marcas (Encuesta.nombre enc)) in
  if Qgt_bool r (snd acc) then (Some enc, r) else acc.

(** [(best_enc, best_ratio)] once the loop is over. *)
Definition mejor_encuesta (encuesta_lista : list Encuesta.t)
  (nombre_emol : string) : option Encuesta.t * Q :=
  fold_left (mejor_encuesta_paso nombre_emol) encuesta_lista (None, 0%Q).

(** [float(best_enc["votos"]) if best_ratio >= 0.8 else 0.0]; [None] stands
    for the [TypeError] of reading ["votos"] in a [best_enc] that is
    [None]. *)
Definition votos_de_fila (encuesta_lista : list Encuesta.t) (row : Fila.t)
  : option Q :=
  let (best_enc, best_ratio) :=
    mejor_encuesta encuesta_lista
      (normalize lower strip nfd quitar_marcas (Fila.nombre row)) in
  if Qle_bool (8 # 10) best_ratio then
    match best_enc with
    | Some enc => Some (Encuesta.votos enc)
    | None => None
    end
  else Some 0%Q.

(** The poll entry [e] is the first of the highest ratio for [nombre_emol]. *)
Definition mejor_entrada (encuesta_lista : list Encuesta.t)
  (nombre_emol : string) (j : nat) (e : Encuesta.t) : Prop :=
  nth_error encuesta_lista j = Some e
  /\ (forall j' e', nth_error encuesta_lista j' = Some e' ->
         (ratio nombre_emol
            (normalize lower strip nfd quitar_marcas (Encuesta.nombre e'))
          <= ratio nombre_emol
               (normalize lower strip nfd quitar_marcas (Encuesta.nombre e)))%Q)
  /\ (forall j' e', (j' < j)%nat -> nth_error encuesta_lista j' = Some e' ->
         (ratio nombre_emol
            (normalize lower strip nfd quitar_marcas (Encuesta.nombre e'))
          < ratio nombre_emol
              (normalize lower strip nfd quitar_marcas (Encuesta.nombre e)))%Q).

(** In [get_todos_candidatos]: the loop over the poll stops at the first
    entry whose ratio is above 0.8 and takes its votes,
    [float(enc.get("votos", 0) or 0)]; without such an entry the votes stay
    at 0.0. *)
Definition supera (nombre_norm : string) (enc : Encuesta.t) : bool :=
  Qgt_bool
    (ratio nombre_norm
       (normalize lower strip nfd quitar_marcas (Encuesta.nombre enc)))
    (8 # 10).

Definition votos_primera (encuesta_lista : list Encuesta.t)
  (nombre : string) : Q :=
  match find (supera (normalize lower strip nfd quitar_marcas nombre))
             encuesta_lista with
  | Some enc => Encuesta.votos enc
  | None => 0
  end.

(** The rows of one district that make the list: those with votes above 0.
    [colores_pactos] is the table of colours of the function. *)
Definition candidatos_de_tabla (colores_pactos : dict string) (t : Tabla.t)
  : list CandidatoNacional.t :=
  flat_map
    (fun row =>
       let votos := votos_primera (Tabla.encuesta t) (Fila.nombre row) in
       if Qgt_bool votos 0 then
         [CandidatoNacional.mk (Fila.nombre row) (Fila.cupo row)
            (Fila.pacto row) (Tabla.numero t) votos
            (match Fila.pacto row with
             | Some pacto => dict_get_default colores_pactos pacto "#CCCCCC"
             | None => "#CCCCCC"
             end)]
       else [])
    (Tabla.filas t).

(** The list, sorted by votes, highest first. *)
Definition get_todos_candidatos (colores_pactos : dict string)
  (tablas : list Tabla.t) : list CandidatoNacional.t :=
  sort_desc CandidatoNacional.votos
            (flat_map (candidatos_de_tabla colores_pactos) tablas).

End Coincidencias.

(** ** [get_distritos]

    The list of districts is read off the zones of the remote database; any
    failure, and an empty outcome, fall back on the 28 districts by
    number. *)

Module Zona.
Record t : Type := mk {
  n : option string;
  r : option string
}.
End Zona.

Module DistritoInfo.
Record t : Type := mk {
  numero : Z;
  nombre : string
}.
End DistritoInfo.

(** [list.sort(key=...)]: stable and ascending, that is, stable and
    descending in the opposite of the key. *)
Definition sort_asc {A : Type} (key : A -> Z) (l : list A) : list A :=
  sort_desc (fun x => inject_Z (- key x)) l.

(** [[{"numero": i, "nombre": f"Distrito {i}"} for i in range(1, 29)]] *)
Definition distritos_por_defecto : list DistritoInfo.t :=
  map (fun i => DistritoInfo.mk (Z.of_nat i) ("Distrito " ++ str_de_nat i))
      (seq 1 28).

Section Distritos.

(** [int(s)] on the two characters after ["60"]: [None] is [ValueError]. *)
Variable int_py : string -> option Z.

(** One turn of [for codigo, info in dbzonas.items()]: the entry the zone
    adds to the list, if any.  [dbregiones] maps a region code to the name
    of the region, when it has one. *)
Definition distrito_de_zona (dbregiones : dict (option string))
  (item : string * Zona.t) : list DistritoInfo.t :=
  let (codigo, info) := item in
  if String.prefix "60" codigo && Nat.eqb (String.length codigo) 4 then
    match int_py (String.substring 2 (String.length codigo - 2) codigo) with
    | Some num_distrito =>
        if Z.leb 1 num_distrito && Z.leb num_distrito 28 then
          let codigo_region :=
            match Zona.r info with Some c => c | None => "" end in
          let nombre_region :=
            match dict_get_default dbregiones codigo_region None with
            | Some nm => nm
            | None => ""
            end in
          [DistritoInfo.mk num_distrito
             (if String.eqb nombre_region "" then
                "Distrito " ++ str_de_nat (Z.to_nat num_distrito)
              else
                "Distrito " ++ str_de_nat (Z.to_nat num_distrito) ++ " - "
                ++ nombre_region)]
        else []
    | None => []
    end
  else [].

(** [respuesta] is what the request gave: the zones and the regions, or the
    exception it raised. *)
Definition get_distritos
  (respuesta : result (dict Zona.t * dict (option string)))
  : list DistritoInfo.t :=
  match respuesta with
  | Ok (dbzonas, dbregiones) =>
      let distritos_list :=
        sort_asc DistritoInfo.numero
                 (flat_map (distrito_de_zona dbregiones) dbzonas) in
      if Nat.ltb 0 (List.length distritos_list) then distritos_list
      else distritos_por_defecto
  | Err _ => distritos_por_defecto
  end.

End Distritos.

(** ** The candidates, the parties and the pacts of [compute_dhondt]

    [compute_dhondt] builds one candidate per row of the district's table,
    one party per [cupo] and one pact per value of the column [pacto]. *)

(** [sum(...)] of vote figures: from 0, left to right. *)
Definition sumQ (l : list Q) : Q := fold_left Qplus l 0%Q.

(** [sum(c.votes for c in candidates if c.party_id == partido)] *)
Definition votos_de_cupo (candidates : list Candidate.t) (partido : string)
  : Q :=
  sumQ (map Candidate.votes
          (filter (fun c => String.eqb (Candidate.party_id c) partido)
                  candidates)).

(** One turn of the loop over the rows that fills [parties]; the second
    component is [seen_parties].  The [cupo] of a row is a string here: a
    row whose [cupo] has no value is not covered. *)
Definition agregar_partido (candidates : list Candidate.t)
  (acc : list Party.t * list string) (row : Fila.t)
  : list Party.t * list string :=
  let partido := Fila.cupo row in
  if negb (String.eqb partido "")
     && negb (existsb (String.eqb partido) (snd acc)) then
    (fst acc ++ [Party.mk partido partido (votos_de_cupo candidates partido)
                          (Fila.pacto row)],
     snd acc ++ [partido])%list
  else acc.

Definition parties_de (rows : list Fila.t) (candidates : list Candidate.t)
  : list Party.t :=
  fst (fold_left (agregar_partido candidates) rows ([], [])).

(** [.dropna()] *)
Definition dropna (col : list (option string)) : list string :=
  flat_map (fun x => match x with Some v => [v] | None => [] end) col.

(** [.unique()]: every value once, in the order of the first appearances;
    [vistos] are the values met so far. *)
Fixpoint unique_desde (vistos : list string) (col : list string)
  : list string :=
  match col with
  | [] => []
  | x :: col' =>
      if existsb (String.eqb x) vistos then unique_desde vistos col'
      else x :: unique_desde (x :: vistos) col'
  end.

Definition unique (col : list string) : list string := unique_desde [] col.

(** [sum(p.votes for p in parties if p.pact_id == name)] *)
Definition votos_de_pacto (parties : list Party.t) (name : string) : Q :=
  sumQ (map Party.votes
          (filter (fun p => pact_id_eqb (Party.pact_id p) name) parties)).

Definition pacts_de (rows : list Fila.t) (parties : list Party.t)
  : list Pact.t :=
  map (fun name => Pact.mk name name (votos_de_pacto parties name))
      (unique (dropna (map Fila.pacto rows))).

(** [total_votos = sum(pact_votes.values())] *)
Definition total_votos_de (pacts : list Pact.t) : Q :=
  sumQ (values (pact_votes_de pacts)).

(** The party carries a pact with a name. *)
Definition con_pacto (p : Party.t) : bool :=
  match Party.pact_id p with
  | Some s => negb (String.eqb s "")
  | None => false
  end.

Section Candidatos.

Variables lower strip nfd quitar_marcas : string -> string.
Variable ratio : string -> string -> Q.

(** [Candidate(id=str(row.get("id_foto", idx)), name=row.get("nombre"),
    party_id=row.get("cupo"), votes=votos)] *)
Definition candidato_de_fila (encuesta_lista : list Encuesta.t)
  (item : nat * Fila.t) : option Candidate.t :=
  match votos_de_fila lower strip nfd quitar_marcas ratio encuesta_lista
          (snd item) with
  | Some votos =>
      Some (Candidate.mk
              (match Fila.id_foto (snd item) with
               | Some f => f
               | None => str_de_nat (fst item)
               end)
              (Fila.nombre (snd item)) votos (Fila.cupo (snd item)) None 0)
  | None => None
  end.

Fixpoint todos_o_nada {A B : Type} (f : A -> option B) (l : list A)
  : option (list B) :=
  match l with
  | [] => Some []
  | x :: l' =>
      match f x with
      | Some y =>
          match todos_o_nada f l' with
          | Some ys => Some (y :: ys)
          | None => None
          end
      | None => None
      end
  end.

(** [candidates] after the loop over the rows; [None] when a row fails. *)
Definition candidates_de (encuesta_lista : list Encuesta.t)
  (rows : list Fila.t) : option (list Candidate.t) :=
  todos_o_nada (candidato_de_fila encuesta_lista) (enumerate rows).

End Candidatos.

(** ** [get_pacto_nombre] and [resultado_por_pacto]

    The result of [compute_dhondt] lists the pacts, those of [pact_alloc]
    first and by seats, each with its elected candidates. *)

(** An entry of [PACTOS_MAPPING]; a key the entry does not have is
    [None]. *)
Module PactoInfo.
Record t : Type := mk {
  id : option string;
  nombre : option string
}.
End PactoInfo.

Definition get_pacto_nombre (PACTOS_MAPPING : list PactoInfo.t)
  (pacto_id : string) : string :=
  match find (fun pacto => match PactoInfo.id pacto with
                           | Some i => String.eqb i pacto_id
                           | None => false
                           end) PACTOS_MAPPING with
  | Some pacto =>
      match PactoInfo.nombre pacto with
      | Some n => n
      | None => pacto_id
      end
  | None => pacto_id
  end.

Module ElectoPacto.
Record t : Type := mk {
  nombre : string;
  partido : string;
  votos : Q
}.
End ElectoPacto.

Module ResultadoPacto.
Record t : Type := mk {
  pacto : string;
  pacto_id : string;
  candidatos_electos : list ElectoPacto.t;
  votos : Q;
  porcentaje : Q;
  escanos : Z
}.
End ResultadoPacto.

(** [next((p.pact_id for p in parties if p.id == pid), None)] *)
Definition pacto_de_partido (parties : list Party.t) (pid : string)
  : option string :=
  match find (fun p => String.eqb (Party.id p) pid) parties with
  | Some p => Party.pact_id p
  | None => None
  end.

(** [[c for c in winners if next(...) == pacto]] *)
Definition candidatos_pacto (parties : list Party.t)
  (winners : list Candidate.t) (pacto : string) : list Candidate.t :=
  filter (fun c => pact_id_eqb
                     (pacto_de_partido parties (Candidate.party_id c)) pacto)
         winners.

Section ResultadoPorPacto.

Variable PACTOS_MAPPING : list PactoInfo.t.

(** [round(x, 1)] *)
Variable round1 : Q -> Q.

(** [round((votos_pacto / total_votos * 100) if total_votos > 0 else 0,
    1)] *)
Definition porcentaje_de (votos_pacto total_votos : Q) : Q :=
  round1 (if Qgt_bool total_votos 0 then votos_pacto / total_votos * 100
          else 0).

(** One turn of the loop over the pacts of [pact_alloc]. *)
Definition resultado_con_escanos (parties : list Party.t)
  (pact_votes : dict Q) (total_votos : Q) (pact_alloc : dict Z)
  (winners : list Candidate.t) (acc : list ResultadoPacto.t)
  (pacto : string) : result (list ResultadoPacto.t) :=
  let votos_pacto := dict_get_default pact_votes pacto 0 in
  escanos_pacto <- dict_get pact_alloc pacto ;;
  Ok (acc ++ [ResultadoPacto.mk
                (get_pacto_nombre PACTOS_MAPPING pacto) pacto
                (map (fun c => ElectoPacto.mk (Candidate.name c)
                                 (Candidate.party_id c) (Candidate.votes c))
                     (sort_desc Candidate.votes
                        (candidatos_pacto parties winners pacto)))
                votos_pacto (porcentaje_de votos_pacto total_votos)
                escanos_pacto])%list.

(** One turn of the loop over [pacts] that adds the pacts without seats. *)
Definition resultado_sin_escanos (total_votos : Q) (pact_alloc : dict Z)
  (acc : list ResultadoPacto.t) (p : Pact.t) : list ResultadoPacto.t :=
  if negb (existsb (String.eqb (Pact.id p)) (keys pact_alloc)) then
    (acc ++ [ResultadoPacto.mk
               (get_pacto_nombre PACTOS_MAPPING (Pact.id p)) (Pact.id p) []
               (Pact.votes p) (porcentaje_de (Pact.votes p) total_votos)
               0])%list
  else acc.

(** [resultado_por_pacto] after the two loops.  The keys are sorted by
    [pact_alloc[x]], which is the value of a key of [pact_alloc]. *)
Definition resultado_por_pacto_de (pacts : list Pact.t)
  (parties : list Party.t) (pact_alloc : dict Z)
  (winners : list Candidate.t) : result (list ResultadoPacto.t) :=
  let pact_votes := pact_votes_de pacts in
  let total_votos := total_votos_de pacts in
  con_escanos <-
    foldM (resultado_con_escanos parties pact_votes total_votos pact_alloc
             winners)
          (sort_desc (fun x => inject_Z (dict_get_default pact_alloc x 0%Z))
                     (keys pact_alloc))
          [] ;;
  Ok (fold_left (resultado_sin_escanos total_votos pact_alloc) pacts
                con_escanos).

End ResultadoPorPacto.

(** What one turn of the loop over [pact_alloc.items()] records: nothing
    for a pact without votes, else the pact with its [sub_alloc]. *)
Definition sub_alloc_de (parties : list Party.t) (item : string * Z)
  : list (string * dict Z) :=
  match sub_votes_de parties (fst item) with
  | [] => []
  | sub_votes =>
      [(fst item,
        map (fun k => (k, cuenta k (ganadores_de sub_votes (snd item))))
            (keys sub_votes))]
  end.

(** ** The poll as it comes to [assign_votes_to_candidates]

    The poll is the answer of a remote service, read with [r.json()]: a
    poll entry is a dictionary whose values are any JSON value, and the
    operation reads it with [encuesta.get("nombre", "")],
    [encuesta.get("votos", 0)], [encuesta.get("nombre")] and, for the
    warning, [enc["nombre"]].  The roster is built by the service and keeps
    its keys; its provenance holds whatever a poll entry has under
    ["nombre"]. *)

#[local] Unset Elimination Schemes.

Inductive json : Type :=
| JNull
| JBool (b : bool)
| JInt (z : Z)
| JFloat (q : Q)
| JStr (s : string)
| JList (l : list json)
| JDict (d : list (string * json)).

#[local] Set Elimination Schemes.

(** [bool(v)] *)
Definition verdadero (v : json) : bool :=
  match v with
  | JNull => false
  | JBool b => b
  | JInt z => negb (Z.eqb z 0)
  | JFloat q => negb (Qeq_bool q 0)
  | JStr s => negb (String.eqb s "")
  | JList l => match l with [] => false | _ :: _ => true end
  | JDict d => match d with [] => false | _ :: _ => true end
  end.

Definition es_str (v : json) : bool :=
  match v with JStr _ => true | _ => false end.

Definition es_numero (v : json) : bool :=
  match v with JInt _ | JFloat _ => true | _ => false end.

(** [float] takes an [int] below this magnitude and raises [OverflowError]
    from it on. *)
Definition limite_float : Z := 2 ^ 1024 - 2 ^ 970.

Module CandidateJson.
Record t : Type := mk {
  id : string;
  name : string;
  votes : Q;
  party_id : string;
  matched_from : json;
  match_quality : Q
}.
End CandidateJson.

Record estado_json : Type := mk_estado_json {
  stj_candidates : list CandidateJson.t;
  stj_matched_candidates : list nat;
  stj_matched_encuestas : list nat
}.

Definition marcar_json (votos : Q) (nombre : json) (quality : Q)
  (c : CandidateJson.t) : CandidateJson.t :=
  CandidateJson.mk (CandidateJson.id c) (CandidateJson.name c) votos
                   (CandidateJson.party_id c) nombre quality.

Definition sin_match_json (c : CandidateJson.t) : CandidateJson.t :=
  marcar_json (CandidateJson.votes c) JNull 0 c.

Definition sin_encuesta_json (c : CandidateJson.t) : CandidateJson.t :=
  marcar_json 0 JNull 0 c.

(** A roster entry with a provenance that is a name or nothing. *)
Definition candidate_tipado (c : CandidateJson.t) : Candidate.t :=
  Candidate.mk (CandidateJson.id c) (CandidateJson.name c)
               (CandidateJson.votes c) (CandidateJson.party_id c)
               (match CandidateJson.matched_from c with
                | JStr s => Some s
                | _ => None
                end)
               (CandidateJson.match_quality c).

(** [', '.join(unmatched[:3])] inside the warning, printed when [unmatched]
    is not empty: [TypeError] on an item that is not a string. *)
Definition aviso (unmatched : list json) : result unit :=
  match unmatched with
  | [] => Ok tt
  | _ :: _ =>
      if forallb es_str (firstn 3 unmatched) then Ok tt else Err TypeError
  end.

Section ReconcilerJson.

Variables lower strip nfd quitar_marcas : string -> string.
Variable ratio : string -> string -> Q.
Variable round3 : Q -> Q.

(** [float(s)] on a string that is not empty: the figure it reads, or the
    [ValueError] it raises. *)
Variable float_de_str : string -> result Q.

(** [normalize(v)]: a value that is not a string and is not false has no
    [lower]. *)
Definition normalize_json (v : json) : result string :=
  if verdadero v then
    match v with
    | JStr s => Ok (quitar_marcas (nfd (strip (lower s))))
    | _ => Err AttributeError
    end
  else Ok "".

(** [float(v or 0)] *)
Definition float_json (v : json) : result Q :=
  if verdadero v then
    match v with
    | JBool _ => Ok 1%Q
    | JInt z =>
        if Z.ltb (Z.abs z) limite_float then Ok (inject_Z z)
        else Err OverflowError
    | JFloat q => Ok q
    | JStr s => float_de_str s
    | _ => Err TypeError
    end
  else Ok 0%Q.

(** One turn of [for e_idx, encuesta in enumerate(encuesta_lista)]. *)
Definition procesar_json (names : list string) (threshold : Q)
  (st : estado_json) (item : nat * dict json) : result estado_json :=
  let (e_idx, encuesta) := item in
  nombre_encuesta <-
    normalize_json (dict_get_default encuesta "nombre" (JStr "")) ;;
  match buscar_mejor ratio names nombre_encuesta with
  | (Some best_match, best_ratio) =>
      if Qle_bool threshold best_ratio then
        if mem best_match (stj_matched_candidates st) then
          c <- list_get (stj_candidates st) best_match ;;
          Err (ValueError
                 ("Candidato " ++ CandidateJson.name c ++ " duplicado"))
        else
          votos <- float_json (dict_get_default encuesta "votos" (JInt 0)) ;;
          c <- list_get (stj_candidates st) best_match ;;
          Ok (mk_estado_json
                (replace_nth best_match
                   (marcar_json votos
                      (dict_get_default encuesta "nombre" JNull)
                      (round3 best_ratio) c)
                   (stj_candidates st))
                (best_match :: stj_matched_candidates st)
                (e_idx :: stj_matched_encuestas st))
      else Ok st
  | (None, _) => Ok st
  end.

(** One turn of [[enc["nombre"] for idx, enc in enumerate(encuesta_lista)
    if idx not in matched_encuestas]], on an entry that passes the test. *)
Definition nombre_sin_match (acc : list json) (ie : nat * dict json)
  : result (list json) :=
  nombre <- dict_get (snd ie) "nombre" ;; Ok (acc ++ [nombre])%list.

(** The roster after the run and [unmatched]. *)
Definition assign_votes_to_candidates_json
  (candidates : list CandidateJson.t) (encuesta_lista : list (dict json))
  (threshold : Q) : result (list CandidateJson.t * list json) :=
  match encuesta_lista with
  | [] => Ok (map sin_encuesta_json candidates, [])
  | _ :: _ =>
      let names :=
        map (fun c => normalize lower strip nfd quitar_marcas
                        (CandidateJson.name c)) candidates in
      st <- foldM (procesar_json names threshold) (enumerate encuesta_lista)
                  (mk_estado_json candidates [] []) ;;
      let candidates' :=
        map (fun ic : nat * CandidateJson.t =>
               if mem (fst ic) (stj_matched_candidates st) then snd ic
               else sin_match_json (snd ic))
            (enumerate (stj_candidates st)) in
      unmatched <-
        foldM nombre_sin_match
              (filter (fun ie : nat * dict json =>
                         negb (mem (fst ie) (stj_matched_encuestas st)))
                      (enumerate encuesta_lista))
              [] ;;
      _ <- aviso unmatched ;;
      Ok (candidates', unmatched)
  end.

(** A poll entry that carries a name, as a string, and a vote figure, as a
    number [float] takes: the entry as the record of the sections above. *)
Definition leer_encuesta (encuesta : dict json) : option Encuesta.t :=
  match dict_get encuesta "nombre", dict_get encuesta "votos" with
  | Ok (JStr s), Ok v =>
      if es_numero v then
        match float_json v with
        | Ok q => Some (Encuesta.mk s q)
        | Err _ => None
        end
      else None
  | _, _ => None
  end.

End ReconcilerJson.

(** A concrete poll in JSON: [float] reads no string here. *)
Definition float_ej (s : string) : result Q :=
  Err (ValueError "could not convert string to float").

Definition roster_json_ej : list CandidateJson.t :=
  [CandidateJson.mk "1" "ana" 0 "P" JNull 0;
   CandidateJson.mk "2" "anab" 0 "P" JNull 0].

Definition encuesta_json_ej : list (dict json) :=
  [[("nombre", JStr "ana"); ("votos", JInt 10)];
   [("nombre", JStr "ana"); ("votos", JFloat 20)]].

(** An entry without name, and a name that matches nobody. *)
Definition encuesta_sin_nombre_ej : list (dict json) :=
  [[("votos", JInt 10)]].

(** The loop state and the result, with the provenance read as a name or
    nothing. *)
Definition estado_tipado (st : estado_json) : estado :=
  mk_estado (map candidate_tipado (stj_candidates st))
            (stj_matched_candidates st) (stj_matched_encuestas st).

Definition result_map {A B : Type} (f : A -> B) (r : result A) : result B :=
  match r with
  | Ok a => Ok (f a)
  | Err e => Err e
  end.

(** * Properties *)

Local Open Scope list_scope.

(** ** The error monad and dictionaries *)

Lemma dict_set_fresh {V : Type} (d : dict V) (k : string) (v : V) :
  ~ In k (keys d) -> dict_set d k v = (d ++ [(k, v)])%list.
Proof.
  induction d as [|[k' v'] d IH]; simpl; intros H; [reflexivity|].
  destruct (String.eqb_spec k' k) as [->|Hne].
  - exfalso; apply H; now left.
  - rewrite IH; [reflexivity|]. intros Hin; apply H; now right.
Qed.

Lemma dict_of_items_acc {V : Type} (l acc : list (string * V)) :
  NoDup (keys (acc ++ l)) ->
  fold_left (fun d kv => dict_set d (fst kv) (snd kv)) l acc = (acc ++ l)%list.
Proof.
  revert acc; induction l as [|[k v] l IH]; intros acc H; simpl.
  - now rewrite app_nil_r.
  - rewrite dict_set_fresh.
    + rewrite IH; rewrite <- app_assoc; [reflexivity | exact H].
    + unfold keys in H; rewrite map_app in H; simpl in H.
      apply NoDup_remove_2 in H. intros Hin; apply H.
      apply in_or_app; now left.
Qed.

Lemma dict_of_items_wf {V : Type} (l : list (string * V)) :
  NoDup (map fst l) -> dict_of_items l = l.
Proof. intros H. unfold dict_of_items. now rewrite dict_of_items_acc. Qed.

Lemma asignacion_inicial_wf (votos : dict Q) :
  wf_dict votos ->
  asignacion_inicial votos = map (fun k => (k, 0%Z)) (keys votos).
Proof.
  intros H. unfold asignacion_inicial. apply dict_of_items_wf.
  rewrite map_map; simpl. now rewrite map_id.
Qed.

Lemma dict_get_map (f : string -> Z) (ks : list string) (k : string) :
  In k ks -> dict_get (map (fun x => (x, f x)) ks) k = Ok (f k).
Proof.
  induction ks as [|a ks IH]; simpl; [tauto|]. intros H.
  destruct (String.eqb_spec a k) as [->|Hne]; [reflexivity|].
  destruct H as [H|H]; [contradiction | auto].
Qed.

Lemma dict_set_map (f : string -> Z) (ks : list string) (k : string) (v : Z) :
  NoDup ks -> In k ks ->
  dict_set (map (fun x => (x, f x)) ks) k v
  = map (fun x => (x, if String.eqb x k then v else f x)) ks.
Proof.
  induction ks as [|a ks IH]; simpl; [tauto|]. intros Hnd Hin.
  inversion Hnd as [|? ? Ha Hnd']; subst.
  destruct (String.eqb_spec a k) as [->|Hne].
  - f_equal. apply map_ext_in. intros x Hx.
    destruct (String.eqb_spec x k) as [->|_]; [contradiction | reflexivity].
  - f_equal. destruct Hin as [Hin|Hin]; [contradiction | auto].
Qed.

Lemma cuenta_cons (k : string) (r : Q * string) (rows : list (Q * string)) :
  cuenta k (r :: rows)
  = ((if String.eqb (snd r) k then 1 else 0) + cuenta k rows)%Z.
Proof.
  unfold cuenta; cbn [filter]. destruct (String.eqb (snd r) k);
    cbn [List.length]; lia.
Qed.

Lemma tally_spec (rows : list (Q * string)) :
  forall (ks : list string) (f : string -> Z),
    NoDup ks ->
    (forall r, In r rows -> In (snd r) ks) ->
    foldM (fun asignacion row => dict_incr asignacion (snd row)) rows
          (map (fun k => (k, f k)) ks)
    = Ok (map (fun k => (k, (f k + cuenta k rows)%Z)) ks).
Proof.
  induction rows as [|r rows IH]; intros ks f Hnd Hin; simpl.
  - f_equal. apply map_ext. intros k. unfold cuenta; simpl.
    now rewrite Z.add_0_r.
  - unfold dict_incr at 1. rewrite dict_get_map by (apply Hin; now left).
    simpl. rewrite dict_set_map by (auto; apply Hin; now left).
    rewrite (IH ks (fun x => if String.eqb x (snd r) then (f (snd r) + 1)%Z
                             else f x)) by (auto; intros; apply Hin; now right).
    f_equal. apply map_ext. intros k. rewrite cuenta_cons.
    rewrite (String.eqb_sym (snd r) k).
    destruct (String.eqb_spec k (snd r)) as [->|_]; f_equal; lia.
Qed.

(** ** The stable descending sort *)

Lemma insert_desc_perm {A : Type} (key : A -> Q) (x : A) (l : list A) :
  Permutation (insert_desc key x l) (x :: l).
Proof.
  induction l as [|y l IH]; simpl; [reflexivity|].
  destruct (Qle_bool (key y) (key x)); [reflexivity|].
  rewrite IH. apply perm_swap.
Qed.

Lemma sort_desc_perm {A : Type} (key : A -> Q) (l : list A) :
  Permutation (sort_desc key l) l.
Proof.
  induction l as [|x l IH]; simpl; [reflexivity|].
  rewrite insert_desc_perm. now constructor.
Qed.

Lemma sort_desc_length {A : Type} (key : A -> Q) (l : list A) :
  List.length (sort_desc key l) = List.length l.
Proof. apply Permutation_length, sort_desc_perm. Qed.

(** ** The table of quotients and the winning rows *)

Lemma range1_length (n : Z) : List.length (range1 n) = Z.to_nat n.
Proof. unfold range1. now rewrite length_map, length_seq. Qed.

Lemma range1_pos (n d : Z) : In d (range1 n) -> (1 <= d <= n)%Z.
Proof.
  unfold range1. rewrite in_map_iff. intros (i & <- & Hi).
  apply in_seq in Hi. lia.
Qed.

Lemma cocientes_length (votos : dict Q) (n : Z) :
  List.length (cocientes_de votos n)
  = (List.length votos * Z.to_nat n)%nat.
Proof.
  unfold cocientes_de. induction votos as [|[k v] votos IH]; simpl;
    [reflexivity|].
  rewrite length_app, length_map, range1_length, IH. reflexivity.
Qed.

Lemma cocientes_lista (votos : dict Q) (n : Z) (r : Q * string) :
  In r (cocientes_de votos n) -> In (snd r) (keys votos).
Proof.
  unfold cocientes_de. rewrite in_flat_map. intros ([k v] & Hkv & Hr).
  apply in_map_iff in Hr. destruct Hr as (d & <- & _). simpl.
  unfold keys. apply in_map_iff. now exists (k, v).
Qed.

Lemma slice_to_incl {A : Type} (l : list A) (n : Z) (x : A) :
  In x (slice_to l n) -> In x l.
Proof.
  unfold slice_to. destruct (0 <=? n)%Z; intros H;
    match type of H with In _ (firstn ?m _) =>
      rewrite <- (firstn_skipn m l); apply in_or_app; left; exact H
    end.
Qed.

Lemma ganadores_lista (votos : dict Q) (n : Z) (r : Q * string) :
  In r (ganadores_de votos n) -> In (snd r) (keys votos).
Proof.
  intros H. apply (cocientes_lista votos n).
  apply (Permutation_in _ (sort_desc_perm fst _)).
  apply (slice_to_incl _ n), H.
Qed.

Lemma ganadores_length (votos : dict Q) (n : Z) :
  List.length (ganadores_de votos n)
  = Nat.min (Z.to_nat n) (List.length votos * Z.to_nat n).
Proof.
  unfold ganadores_de, slice_to.
  destruct (Z.leb_spec 0 n) as [Hn|Hn].
  - now rewrite length_firstn, sort_desc_length, cocientes_length.
  - rewrite length_firstn, sort_desc_length, cocientes_length.
    replace (Z.to_nat n) with 0%nat by lia. lia.
Qed.

(** The allocation in closed form: every list of the input, in input order,
    with the number of winning rows it owns. *)
Lemma dhondt_alloc_spec (votos : dict Q) (n : Z) :
  wf_dict votos ->
  dhondt_alloc votos n
  = Ok (map (fun k => (k, cuenta k (ganadores_de votos n))) (keys votos)).
Proof.
  intros Hwf. unfold dhondt_alloc. rewrite asignacion_inicial_wf by assumption.
  rewrite (tally_spec _ (keys votos) (fun _ => 0%Z)); auto.
  intros r. apply ganadores_lista.
Qed.

Lemma sum_cuenta_cons (r : Q * string) (rows : list (Q * string))
  (ks : list string) :
  NoDup ks ->
  sumZ (map (fun k => cuenta k (r :: rows)) ks)
  = ((if in_dec string_dec (snd r) ks then 1 else 0)
     + sumZ (map (fun k => cuenta k rows) ks))%Z.
Proof.
  induction ks as [|a ks IH]; intros Hnd; [reflexivity|].
  inversion Hnd as [|? ? Ha Hnd']; subst. simpl.
  rewrite IH by assumption. rewrite cuenta_cons.
  destruct (String.eqb_spec (snd r) a) as [E|E].
  - destruct (string_dec a (snd r)); [|congruence].
    destruct (in_dec string_dec (snd r) ks); [subst; contradiction|].
    lia.
  - destruct (string_dec a (snd r)); [congruence|].
    destruct (in_dec string_dec (snd r) ks); lia.
Qed.

Lemma sum_cuenta (rows : list (Q * string)) (ks : list string) :
  NoDup ks ->
  (forall r, In r rows -> In (snd r) ks) ->
  sumZ (map (fun k => cuenta k rows) ks) = Z.of_nat (List.length rows).
Proof.
  intros Hnd. induction rows as [|r rows IH]; intros Hin.
  - unfold cuenta; simpl. clear. induction ks; simpl; auto.
  - rewrite sum_cuenta_cons by assumption.
    destruct (in_dec string_dec (snd r) ks) as [_|Hn];
      [|exfalso; apply Hn, Hin; now left].
    rewrite IH by (intros; apply Hin; now right).
    simpl List.length. lia.
Qed.

Lemma keys_map_pair {V : Type} (f : string -> V) (ks : list string) :
  keys (map (fun k => (k, f k)) ks) = ks.
Proof. unfold keys. rewrite map_map; simpl. apply map_id. Qed.

Lemma values_map_pair {V : Type} (f : string -> V) (ks : list string) :
  values (map (fun k => (k, f k)) ks) = map f ks.
Proof. unfold values. now rewrite map_map. Qed.

Lemma cuenta_bounds (k : string) (rows : list (Q * string)) :
  (0 <= cuenta k rows <= Z.of_nat (List.length rows))%Z.
Proof.
  unfold cuenta. split; [lia|]. apply inj_le, filter_length_le.
Qed.

(** Deciding well-formedness on a concrete dictionary. *)
Lemma distintas_NoDup (l : list string) : distintas l = true -> NoDup l.
Proof.
  induction l as [|x l IH]; simpl; intros H; constructor;
    apply andb_prop in H; destruct H as [Hx Hl]; [|auto].
  intros Hin. apply negb_true_iff in Hx.
  assert (existsb (String.eqb x) l = true); [|congruence].
  apply existsb_exists. exists x. split; [exact Hin | apply String.eqb_refl].
Qed.

Lemma wf_dict_dec {V : Type} (d : dict V) :
  distintas (keys d) = true -> wf_dict d.
Proof. apply distintas_NoDup. Qed.

(** ** The Apportioner *)

Lemma suma_escanos (votos : dict Q) (n : Z) :
  wf_dict votos ->
  (0 <= n)%Z ->
  votos <> [] \/ n = 0%Z ->
  sumZ (map (fun k => cuenta k (ganadores_de votos n)) (keys votos)) = n.
Proof.
  intros Hwf Hn Hne.
  rewrite sum_cuenta; [| exact Hwf | intros r; apply ganadores_lista].
  rewrite ganadores_length. destruct Hne as [Hne | ->]; [|reflexivity].
  destruct votos as [|kv votos]; [congruence|]. simpl List.length. nia.
Qed.

(** C1. With non-negative votes and a non-negative seat count, the seats
    that [dhondt_alloc] returns add up to the seat count as soon as some list
    has positive votes or the seat count is 0. *)
Theorem dhondt_alloc_sum (votos : dict Q) (n : Z) :
  wf_dict votos ->
  (forall k v, In (k, v) votos -> (0 <= v)%Q) ->
  (0 <= n)%Z ->
  (exists k v, In (k, v) votos /\ (0 < v)%Q) \/ n = 0%Z ->
  exists asignacion,
    dhondt_alloc votos n = Ok asignacion /\ sumZ (values asignacion) = n.
Proof.
  intros Hwf _ Hn Hpos. eexists. split; [apply dhondt_alloc_spec, Hwf|].
  rewrite values_map_pair. apply suma_escanos; auto.
  destruct Hpos as [(k & v & Hin & _) | ->]; [left | now right].
  intros ->. contradiction.
Qed.

Lemma dhondt_alloc_sum_witness :
  exists asignacion,
    dhondt_alloc [("A", 100000%Q); ("B", 80000%Q); ("C", 0%Q)] 5
    = Ok asignacion /\ sumZ (values asignacion) = 5%Z.
Proof.
  apply dhondt_alloc_sum.
  - apply wf_dict_dec. reflexivity.
  - intros k v [H | [H | [H | [ ] ] ] ]; inversion H; subst; discriminate.
  - discriminate.
  - left. exists "A", 100000%Q. split; [now left | reflexivity].
Defined.

(** C2, as the code has it.  [dhondt_alloc] validates nothing: whatever the
    votes and the seat count, negative ones included, it returns an
    allocation over the lists of the input and raises no exception; under a
    negative seat count every list gets 0 seats. *)
Theorem dhondt_alloc_never_raises (votos : dict Q) (n : Z) :
  wf_dict votos ->
  exists asignacion,
    dhondt_alloc votos n = Ok asignacion
    /\ keys asignacion = keys votos
    /\ ((n < 0)%Z -> forall k s, In (k, s) asignacion -> s = 0%Z).
Proof.
  intros Hwf. eexists. split; [apply dhondt_alloc_spec, Hwf|].
  split; [apply keys_map_pair|].
  intros Hn k s Hin. apply in_map_iff in Hin. destruct Hin as (k' & E & _).
  inversion E; subst.
  pose proof (cuenta_bounds k (ganadores_de votos n)) as Hb.
  rewrite ganadores_length in Hb. lia.
Qed.

Lemma dhondt_alloc_never_raises_witness :
  exists asignacion,
    dhondt_alloc [("A", (-5)%Q); ("B", 3%Q)] (-2) = Ok asignacion
    /\ keys asignacion = ["A"; "B"]
    /\ ((-2 < 0)%Z -> forall k s, In (k, s) asignacion -> s = 0%Z).
Proof.
  apply (dhondt_alloc_never_raises [("A", (-5)%Q); ("B", 3%Q)] (-2)).
  apply wf_dict_dec. reflexivity.
Defined.

(** C2, as stated, fails: a negative vote total and a negative seat count
    both yield an allocation, not an error. *)
Lemma dhondt_alloc_accepts_negative :
  dhondt_alloc [("A", (-5)%Q)] 2 = Ok [("A", 2%Z)]
  /\ dhondt_alloc [("A", 5%Q)] (-1) = Ok [("A", 0%Z)].
Proof. split; vm_compute; reflexivity. Qed.

(** C10. Under a non-negative seat count the returned mapping has the keys of
    the input, in the same order, and every value lies between 0 and the
    seat count. *)
Theorem dhondt_alloc_keys_range (votos : dict Q) (n : Z) :
  wf_dict votos ->
  (0 <= n)%Z ->
  exists asignacion,
    dhondt_alloc votos n = Ok asignacion
    /\ keys asignacion = keys votos
    /\ forall k s, In (k, s) asignacion -> (0 <= s <= n)%Z.
Proof.
  intros Hwf Hn. eexists. split; [apply dhondt_alloc_spec, Hwf|].
  split; [apply keys_map_pair|].
  intros k s Hin. apply in_map_iff in Hin. destruct Hin as (k' & E & _).
  inversion E; subst.
  pose proof (cuenta_bounds k (ganadores_de votos n)) as Hb.
  rewrite ganadores_length in Hb. lia.
Qed.

Lemma dhondt_alloc_keys_range_witness :
  exists asignacion,
    dhondt_alloc [("A", 100000%Q); ("B", 80000%Q); ("C", 30000%Q)] 5
    = Ok asignacion
    /\ keys asignacion = ["A"; "B"; "C"]
    /\ forall k s, In (k, s) asignacion -> (0 <= s <= 5)%Z.
Proof.
  apply (dhondt_alloc_keys_range
           [("A", 100000%Q); ("B", 80000%Q); ("C", 30000%Q)] 5).
  - apply wf_dict_dec. reflexivity.
  - discriminate.
Defined.

(** ** Dictionary comprehensions *)

Lemma dict_set_keys_in {V : Type} (d : dict V) (k : string) (v : V)
  (k' : string) :
  In k' (keys (dict_set d k v)) <-> In k' (keys d) \/ k' = k.
Proof.
  induction d as [|[a w] d IH]; simpl.
  - intuition.
  - destruct (String.eqb_spec a k) as [->|Hne]; simpl.
    + intuition.
    + rewrite IH. intuition.
Qed.

Lemma dict_set_wf {V : Type} (d : dict V) (k : string) (v : V) :
  wf_dict d -> wf_dict (dict_set d k v).
Proof.
  unfold wf_dict. induction d as [|[a w] d IH]; simpl; intros Hnd.
  - constructor; [tauto | constructor].
  - inversion Hnd as [|? ? Ha Hnd']; subst.
    destruct (String.eqb_spec a k) as [->|Hne]; simpl.
    + now constructor.
    + constructor; [|auto]. intros Hin.
      apply (dict_set_keys_in d k v a) in Hin. intuition.
Qed.

Lemma dict_of_items_acc_spec {V : Type} (l : list (string * V)) :
  forall acc : dict V,
    wf_dict acc ->
    let d := fold_left (fun d kv => dict_set d (fst kv) (snd kv)) l acc in
    wf_dict d
    /\ forall k, In k (keys d) <-> In k (keys acc) \/ In k (map fst l).
Proof.
  induction l as [|[k v] l IH]; intros acc Hacc; simpl.
  - split; [exact Hacc | intuition].
  - destruct (IH (dict_set acc k v) (dict_set_wf acc k v Hacc)) as [Hwf Hk].
    split; [exact Hwf|]. intros k'. rewrite Hk, dict_set_keys_in.
    intuition.
Qed.

Lemma dict_of_items_is_wf {V : Type} (l : list (string * V)) :
  wf_dict (dict_of_items l).
Proof. apply (dict_of_items_acc_spec l []). constructor. Qed.

Lemma dict_of_items_keys {V : Type} (l : list (string * V)) (k : string) :
  In k (keys (dict_of_items l)) <-> In k (map fst l).
Proof.
  destruct (dict_of_items_acc_spec l [] (NoDup_nil _)) as [_ H].
  unfold dict_of_items. rewrite H. simpl. intuition.
Qed.

Lemma dict_of_items_nil {V : Type} (l : list (string * V)) :
  dict_of_items l = [] <-> l = [].
Proof.
  split; [|intros ->; reflexivity].
  destruct l as [|[k v] l]; [reflexivity|]. intros H.
  assert (Hin : In k (keys (dict_of_items ((k, v) :: l))))
    by (apply dict_of_items_keys; now left).
  rewrite H in Hin. contradiction.
Qed.

Lemma Qgt_bool_iff (a b : Q) : Qgt_bool a b = true <-> (b < a)%Q.
Proof.
  unfold Qgt_bool. rewrite negb_true_iff.
  split.
  - intros H. apply Qnot_le_lt. intros Hle.
    apply Qle_bool_iff in Hle. congruence.
  - intros H. destruct (Qle_bool a b) eqn:E; [|reflexivity].
    apply Qle_bool_iff in E. exfalso. now apply (Qlt_not_le b a).
Qed.

Lemma pact_id_eqb_iff (o : option string) (pacto : string) :
  pact_id_eqb o pacto = true <-> o = Some pacto.
Proof.
  destruct o as [s|]; simpl; [|split; discriminate].
  rewrite String.eqb_eq. split; congruence.
Qed.

(** ** The two-level application *)

(** The parties that take part in the allocation of [pacto]. *)
Lemma sub_votes_keys (parties : list Party.t) (pacto pid : string) :
  In pid (keys (sub_votes_de parties pacto))
  <-> exists p, In p parties /\ Party.id p = pid
                /\ Party.pact_id p = Some pacto /\ (0 < Party.votes p)%Q.
Proof.
  unfold sub_votes_de, sub_parties_de. rewrite dict_of_items_keys, map_map.
  simpl. rewrite in_map_iff. split.
  - intros (p & Hid & Hin). apply filter_In in Hin. destruct Hin as [Hin Hv].
    apply filter_In in Hin. destruct Hin as [Hin Hp].
    exists p. rewrite <- Qgt_bool_iff, <- pact_id_eqb_iff. auto.
  - intros (p & Hin & Hid & Hp & Hv). exists p. split; [exact Hid|].
    apply filter_In. split; [apply filter_In; split; auto|].
    + now apply pact_id_eqb_iff.
    + now apply Qgt_bool_iff.
Qed.

Lemma sub_votes_nil (parties : list Party.t) (pacto : string) :
  sub_votes_de parties pacto = []
  <-> ~ exists p, In p parties /\ Party.pact_id p = Some pacto
                  /\ (0 < Party.votes p)%Q.
Proof.
  split.
  - intros H (p & Hin & Hp & Hv).
    assert (Hk : In (Party.id p) (keys (sub_votes_de parties pacto)))
      by (apply sub_votes_keys; exists p; auto).
    rewrite H in Hk. contradiction.
  - intros H. destruct (sub_votes_de parties pacto) as [|[pid v] d] eqn:E;
      [reflexivity|]. exfalso. apply H.
    assert (Hk : In pid (keys (sub_votes_de parties pacto)))
      by (rewrite E; now left).
    apply sub_votes_keys in Hk. destruct Hk as (p & ? & ? & ? & ?).
    exists p; auto.
Qed.

Lemma wf_dict_functional {V : Type} (d : dict V) (k : string) (v v' : V) :
  wf_dict d -> In (k, v) d -> In (k, v') d -> v = v'.
Proof.
  unfold wf_dict. induction d as [|[a w] d IH]; simpl; [tauto|].
  intros Hnd H1 H2. inversion Hnd as [|? ? Ha Hnd']; subst.
  assert (Hk : forall u, In (k, u) d -> In k (keys d))
    by (intros u Hu; apply in_map_iff; now exists (k, u)).
  destruct H1 as [H1|H1], H2 as [H2|H2];
    try (inversion H1; subst); try (inversion H2; subst); auto;
    exfalso; apply Ha; eauto.
Qed.

Lemma asignar_partidos_acc (parties : list Party.t) (pact_alloc : dict Z) :
  forall acc,
  exists subs,
    foldM (asignar_pacto parties) pact_alloc acc = Ok (acc ++ subs)
    /\ forall pacto sa,
        In (pacto, sa) subs
        <-> exists n, In (pacto, n) pact_alloc
                      /\ sub_votes_de parties pacto <> []
                      /\ dhondt_alloc (sub_votes_de parties pacto) n = Ok sa.
Proof.
  induction pact_alloc as [|[pacto n] pact_alloc IH]; intros acc.
  - exists []. split; [simpl; now rewrite app_nil_r|].
    intros pacto sa. split; [intros [] | intros (n & [] & _)].
  - cbn [foldM]. unfold asignar_pacto at 1.
    destruct (sub_votes_de parties pacto) as [|kv sv] eqn:E.
    + cbn [bind]. destruct (IH acc) as (subs & Hrun & Hsubs).
      exists subs. split; [exact Hrun|].
      intros pacto' sa. rewrite Hsubs. split.
      * intros (n' & Hin & Hne & Hd). exists n'. split; [now right | auto].
      * intros (n' & [Hin|Hin] & Hne & Hd).
        -- inversion Hin; subst. congruence.
        -- exists n'. auto.
    + rewrite <- E.
      rewrite (dhondt_alloc_spec (sub_votes_de parties pacto) n)
        by apply dict_of_items_is_wf.
      cbn [bind].
      destruct (IH (acc ++ [(pacto,
                  map (fun k => (k, cuenta k
                         (ganadores_de (sub_votes_de parties pacto) n)))
                      (keys (sub_votes_de parties pacto)))]))
        as (subs & Hrun & Hsubs).
      rewrite <- app_assoc in Hrun. eexists (_ :: subs). split.
      * exact Hrun.
      * intros pacto' sa. simpl. rewrite Hsubs. split.
        -- intros [Hhd | (n' & Hin & Hne & Hd)].
           ++ inversion Hhd; subst. exists n. split; [now left|].
              split; [congruence|].
              apply dhondt_alloc_spec, dict_of_items_is_wf.
           ++ exists n'. auto.
        -- intros (n' & [Hin|Hin] & Hne & Hd).
           ++ inversion Hin; subst. left.
              rewrite dhondt_alloc_spec in Hd by apply dict_of_items_is_wf.
              inversion Hd. reflexivity.
           ++ right. exists n'. auto.
Qed.

(** C3. [compute_dhondt] returns; for a pact of the pact allocation with
    some party of positive votes, the party allocation of the pact is over
    exactly those parties and adds up to the pact's seats; a pact with no
    such party is skipped, so no party receives its seats. *)
Theorem compute_dhondt_party_level (pacts : list Pact.t)
  (parties : list Party.t) (seats : Z) :
  exists pact_alloc sub_allocs,
    compute_dhondt pacts parties seats = Ok (pact_alloc, sub_allocs)
    /\ forall pacto n_seats,
        In (pacto, n_seats) pact_alloc ->
        ((exists p, In p parties /\ Party.pact_id p = Some pacto
                    /\ (0 < Party.votes p)%Q) ->
         exists sub_alloc,
           In (pacto, sub_alloc) sub_allocs
           /\ (forall sa, In (pacto, sa) sub_allocs -> sa = sub_alloc)
           /\ sumZ (values sub_alloc) = n_seats
           /\ forall pid,
               In pid (keys sub_alloc)
               <-> exists p, In p parties /\ Party.id p = pid
                             /\ Party.pact_id p = Some pacto
                             /\ (0 < Party.votes p)%Q)
        /\ (~ (exists p, In p parties /\ Party.pact_id p = Some pacto
                         /\ (0 < Party.votes p)%Q) ->
            forall sub_alloc, ~ In (pacto, sub_alloc) sub_allocs).
Proof.
  unfold compute_dhondt.
  pose proof (dict_of_items_is_wf
    (map (fun p => (Pact.id p, Pact.votes p))
         (filter (fun p => negb (String.eqb (Pact.id p) "")) pacts))) as Hwf.
  fold (pact_votes_de pacts) in Hwf.
  rewrite (dhondt_alloc_spec _ seats Hwf). cbn [bind].
  set (pact_alloc := map _ (keys (pact_votes_de pacts))).
  assert (Hwfa : wf_dict pact_alloc)
    by (unfold wf_dict, pact_alloc; now rewrite keys_map_pair).
  destruct (asignar_partidos_acc parties pact_alloc []) as (subs & Hrun & Hsubs).
  unfold asignar_partidos. rewrite Hrun. cbn [bind app].
  exists pact_alloc, subs. split; [reflexivity|].
  intros pacto n Hin.
  assert (Hn : (0 <= n)%Z).
  { apply in_map_iff in Hin. destruct Hin as (k & E & _).
    inversion E; subst. apply cuenta_bounds. }
  pose proof (dict_of_items_is_wf
    (map (fun p => (Party.id p, Party.votes p))
         (filter (fun p => Qgt_bool (Party.votes p) 0)
                 (sub_parties_de parties pacto)))) as Hwfs.
  fold (sub_votes_de parties pacto) in Hwfs.
  split.
  - intros Hpos.
    assert (Hne : sub_votes_de parties pacto <> [])
      by (intros E; apply sub_votes_nil in E; exact (E Hpos)).
    exists (map (fun k => (k, cuenta k
                   (ganadores_de (sub_votes_de parties pacto) n)))
                (keys (sub_votes_de parties pacto))).
    split; [|split; [|split]].
    + apply Hsubs. exists n. split; [exact Hin|]. split.
      * exact Hne.
      * now apply dhondt_alloc_spec.
    + intros sa Hsa. apply Hsubs in Hsa. destruct Hsa as (n' & Hin' & _ & Hd).
      rewrite (wf_dict_functional pact_alloc pacto n' n Hwfa Hin' Hin) in Hd.
      rewrite dhondt_alloc_spec in Hd by assumption. now inversion Hd.
    + rewrite values_map_pair. apply suma_escanos; auto.
    + intros pid. rewrite keys_map_pair. apply sub_votes_keys.
  - intros Hno sa Hsa. apply Hsubs in Hsa.
    destruct Hsa as (n' & _ & Hne & _). apply Hne. now apply sub_votes_nil.
Qed.

(** ** The order of the sorted table *)

Section Orden.
Context {A : Type} (key : A -> Q) (id : A -> nat) (R : nat -> nat -> Prop).

Lemma insert_desc_precede (x : A) (l : list A) :
  StronglySorted (precede key id R) l ->
  (forall y, In y l -> R (id x) (id y)) ->
  StronglySorted (precede key id R) (insert_desc key x l).
Proof.
  induction l as [|y l IH]; intros Hs Hx; simpl.
  - constructor; constructor.
  - inversion Hs as [|? ? Hs' Hy]; subst. rewrite Forall_forall in Hy.
    destruct (Qle_bool (key y) (key x)) eqn:E.
    + apply Qle_bool_iff in E. constructor; [exact Hs|].
      apply Forall_forall. intros z Hz.
      assert (Hzx : (key z <= key x)%Q).
      { destruct Hz as [<-|Hz]; [exact E|].
        destruct (Hy z Hz) as [Hlt|[Heq _]]; lra. }
      apply Qle_lt_or_eq in Hzx. destruct Hzx as [Hlt|Heq].
      * now left.
      * right. split; [now symmetry | now apply Hx].
    + constructor.
      * apply IH; [exact Hs' | intros; apply Hx; now right].
      * apply Forall_forall. intros z Hz.
        apply (Permutation_in _ (insert_desc_perm key x l)) in Hz.
        destruct Hz as [<-|Hz]; [|now apply Hy].
        left. apply Qnot_le_lt. intros H. apply Qle_bool_iff in H.
        congruence.
Qed.

Lemma sort_desc_precede (l : list A) :
  StronglySorted R (map id l) ->
  StronglySorted (precede key id R) (sort_desc key l).
Proof.
  induction l as [|x l IH]; simpl; intros Hs; [constructor|].
  inversion Hs as [|? ? Hs' Hx]; subst. rewrite Forall_forall in Hx.
  apply insert_desc_precede; [now apply IH|].
  intros y Hy. apply Hx, in_map.
  exact (Permutation_in _ (sort_desc_perm key l) Hy).
Qed.

End Orden.

Lemma StronglySorted_nth {A : Type} (R : A -> A -> Prop) (l : list A) :
  StronglySorted R l ->
  forall i j a b,
    (i < j)%nat -> nth_error l i = Some a -> nth_error l j = Some b -> R a b.
Proof.
  induction 1 as [|x l Hs IH Hx]; intros i j a b Hij Hi Hj.
  - destruct i; discriminate.
  - destruct j as [|j]; [lia|]. simpl in Hj. destruct i as [|i]; simpl in Hi.
    + inversion Hi; subst. rewrite Forall_forall in Hx.
      eapply Hx, nth_error_In, Hj.
    + apply (IH i j); auto. lia.
Qed.

Lemma sort_desc_map {A B : Type} (f : A -> B) (key : B -> Q) (l : list A) :
  map f (sort_desc (fun x => key (f x)) l) = sort_desc key (map f l).
Proof.
  induction l as [|x l IH]; simpl; [reflexivity|]. rewrite <- IH.
  generalize (sort_desc (fun x => key (f x)) l). intros s.
  induction s as [|y s IHs]; simpl; [reflexivity|].
  destruct (Qle_bool (key (f y)) (key (f x))); simpl; [reflexivity|].
  now rewrite IHs.
Qed.

Lemma StronglySorted_app {A : Type} (R : A -> A -> Prop) (l1 l2 : list A) :
  StronglySorted R l1 -> StronglySorted R l2 ->
  (forall a b, In a l1 -> In b l2 -> R a b) ->
  StronglySorted R (l1 ++ l2).
Proof.
  induction l1 as [|x l1 IH]; simpl; intros H1 H2 H12; [exact H2|].
  inversion H1 as [|? ? H1' Hx]; subst. constructor.
  - apply IH; auto.
  - apply Forall_app. split; [exact Hx|].
    apply Forall_forall. intros b Hb. apply H12; auto.
Qed.

Lemma StronglySorted_le_const (e : nat) (l : list nat) :
  (forall x, In x l -> x = e) -> StronglySorted le l.
Proof.
  induction l as [|x l IH]; intros H; constructor.
  - apply IH. intros; apply H; now right.
  - apply Forall_forall. intros y Hy.
    rewrite (H x), (H y); auto; now (left + right).
Qed.

Lemma cocientes_indexados_snd (votos : dict Q) (n : Z) :
  forall desde,
    map snd (cocientes_indexados desde votos n) = cocientes_de votos n.
Proof.
  unfold cocientes_indexados, cocientes_de.
  induction votos as [|[k v] votos IH]; intros desde; simpl; [reflexivity|].
  rewrite map_app, map_map, IH. reflexivity.
Qed.

Lemma cocientes_indexados_tag (votos : dict Q) (n : Z) :
  forall desde x,
    In x (cocientes_indexados desde votos n) ->
    (desde <= fst x)%nat
    /\ nth_error (keys votos) (fst x - desde) = Some (snd (snd x)).
Proof.
  unfold cocientes_indexados.
  induction votos as [|[k v] votos IH]; intros desde x; simpl; [tauto|].
  rewrite in_app_iff, in_map_iff. intros [(d & <- & _)|Hx]; simpl.
  - rewrite Nat.sub_diag. auto.
  - destruct (IH (S desde) x Hx) as [Hle Hnth]. split; [lia|].
    replace (fst x - desde)%nat with (S (fst x - S desde)) by lia.
    exact Hnth.
Qed.

Lemma cocientes_indexados_sorted (votos : dict Q) (n : Z) :
  forall desde,
    StronglySorted le (map fst (cocientes_indexados desde votos n)).
Proof.
  induction votos as [|[k v] votos IH]; intros desde; [constructor|].
  change (cocientes_indexados desde ((k, v) :: votos) n)
    with (map (fun divisor => (desde, ((v / inject_Z divisor)%Q, k)))
              (range1 n)
          ++ cocientes_indexados (S desde) votos n).
  rewrite map_app. apply StronglySorted_app.
  - apply (StronglySorted_le_const desde). intros x Hx.
    rewrite map_map in Hx. apply in_map_iff in Hx.
    now destruct Hx as (d & <- & _).
  - apply IH.
  - intros a b Ha Hb. rewrite map_map in Ha. apply in_map_iff in Ha.
    destruct Ha as (d & <- & _). simpl.
    apply in_map_iff in Hb. destruct Hb as (x & <- & Hx).
    apply cocientes_indexados_tag in Hx. lia.
Qed.



(** ** Ranks: which rows make the first [m] of the sorted table *)

Lemma filter_length_perm {A : Type} (p : A -> bool) (l l' : list A) :
  Permutation l l' ->
  List.length (filter p l) = List.length (filter p l').
Proof.
  induction 1 as [|x l l' _ IH|x y l|l l' l'' _ IH1 _ IH2]; simpl.
  - reflexivity.
  - destruct (p x); simpl; congruence.
  - destruct (p x), (p y); reflexivity.
  - congruence.
Qed.

Lemma filter_none {A : Type} (p : A -> bool) (l : list A) :
  (forall x, In x l -> p x = false) -> filter p l = [].
Proof.
  intros H. rewrite (filter_ext_in p (fun _ => false) l H).
  apply filter_false.
Qed.

Lemma filter_filter {A : Type} (p q : A -> bool) (l : list A) :
  filter q (filter p l) = filter (fun x => p x && q x) l.
Proof.
  induction l as [|x l IH]; simpl; [reflexivity|].
  destruct (p x); simpl; [destruct (q x)|]; now rewrite IH.
Qed.

Lemma filter_length_map {A B : Type} (f : A -> B) (q : B -> bool)
  (l : list A) :
  List.length (filter q (map f l))
  = List.length (filter (fun x => q (f x)) l).
Proof.
  induction l as [|x l IH]; simpl; [reflexivity|].
  destruct (q (f x)); simpl; now rewrite IH.
Qed.

Section Rango.
Context {A : Type} (key : A -> Q) (id : A -> nat).

Lemma antes_iff (y x : A) :
  antes key id y x = true <-> precede key id lt y x.
Proof.
  unfold antes, precede.
  rewrite orb_true_iff, andb_true_iff, Qgt_bool_iff, Qeq_bool_iff,
    Nat.ltb_lt.
  reflexivity.
Qed.

Lemma precede_asym (x y : A) :
  precede key id lt x y -> ~ precede key id lt y x.
Proof. unfold precede. intros [H|[H1 H2]] [H'|[H1' H2']]; try lra; lia. Qed.

Lemma rango_perm (l l' : list A) (x : A) :
  Permutation l l' -> rango key id l x = rango key id l' x.
Proof. apply filter_length_perm. Qed.

(** In a sorted table the rank of a row is its position. *)
Lemma rango_firstn (s : list A) :
  StronglySorted (precede key id lt) s ->
  forall m, filter (fun x => Nat.ltb (rango key id s x) m) s = firstn m s.
Proof.
  induction 1 as [|h t Hs IH Hh]; intros m; [now destruct m|].
  rewrite Forall_forall in Hh.
  assert (Hh0 : rango key id (h :: t) h = 0%nat).
  { unfold rango. cbn [filter].
    destruct (antes key id h h) eqn:E.
    - apply antes_iff in E. exfalso. exact (precede_asym h h E E).
    - rewrite filter_none; [reflexivity|]. intros y Hy.
      destruct (antes key id y h) eqn:E'; [|reflexivity].
      apply antes_iff in E'. exfalso.
      exact (precede_asym h y (Hh y Hy) E'). }
  assert (Ht : forall x, In x t ->
             rango key id (h :: t) x = S (rango key id t x)).
  { intros x Hx. unfold rango. cbn [filter].
    replace (antes key id h x) with true; [reflexivity|].
    symmetry. apply antes_iff, Hh, Hx. }
  cbn [filter]. rewrite Hh0. destruct m as [|m].
  - cbn. apply filter_none. reflexivity.
  - cbn [Nat.ltb Nat.leb firstn]. f_equal. rewrite <- IH.
    apply filter_ext_in. intros x Hx. now rewrite Ht.
Qed.

(** Counting among the first [m] rows of the sorted table is counting among
    the rows of rank below [m]. *)
Lemma top_count (l : list A) (m : nat) (q : A -> bool) :
  StronglySorted lt (map id l) ->
  List.length (filter q (firstn m (sort_desc key l)))
  = List.length
      (filter (fun x => Nat.ltb (rango key id l x) m && q x) l).
Proof.
  intros Hs.
  rewrite <- (rango_firstn _ (sort_desc_precede key id lt l Hs)).
  rewrite filter_filter.
  rewrite (filter_length_perm _ _ _ (sort_desc_perm key l)).
  f_equal. apply filter_ext. intros x.
  now rewrite (rango_perm _ _ x (sort_desc_perm key l)).
Qed.

End Rango.

Lemma enumerate_fst {A : Type} (l : list A) :
  forall s, map fst (combine (seq s (List.length l)) l)
            = seq s (List.length l).
Proof.
  induction l as [|x l IH]; intros s; simpl; [reflexivity|]. now rewrite IH.
Qed.

Lemma enumerate_snd {A : Type} (l : list A) :
  forall s, map snd (combine (seq s (List.length l)) l) = l.
Proof.
  induction l as [|x l IH]; intros s; simpl; [reflexivity|]. now rewrite IH.
Qed.

Lemma seq_sorted (n : nat) : forall s, StronglySorted lt (seq s n).
Proof.
  induction n as [|n IH]; intros s; simpl; constructor; [apply IH|].
  apply Forall_forall. intros x Hx. apply in_seq in Hx. lia.
Qed.

Lemma enumerate_sorted {A : Type} (l : list A) :
  StronglySorted lt (map fst (enumerate l)).
Proof. unfold enumerate. rewrite enumerate_fst. apply seq_sorted. Qed.

(** The winning rows are the first [Z.to_nat n] rows of the sorted table,
    whatever the sign of [n]. *)
Lemma ganadores_firstn (votos : dict Q) (n : Z) :
  ganadores_de votos n
  = firstn (Z.to_nat n) (sort_desc fst (cocientes_de votos n)).
Proof.
  unfold ganadores_de, slice_to. destruct (Z.leb_spec 0 n) as [Hn|Hn];
    [reflexivity|].
  assert (E : sort_desc fst (cocientes_de votos n) = []).
  { apply length_zero_iff_nil.
    rewrite sort_desc_length, cocientes_length. lia. }
  rewrite E. now rewrite !firstn_nil.
Qed.

(** The seats of [k], counted on the table with its rows numbered. *)
Lemma cuenta_ganadores (votos : dict Q) (n : Z) (k : string) :
  cuenta k (ganadores_de votos n)
  = Z.of_nat
      (List.length
         (filter
            (fun x : nat * (Q * string) =>
               Nat.ltb (rango (fun x => fst (snd x)) fst
                              (enumerate (cocientes_de votos n)) x)
                       (Z.to_nat n)
               && String.eqb (snd (snd x)) k)
            (enumerate (cocientes_de votos n)))).
Proof.
  unfold cuenta. f_equal. rewrite ganadores_firstn.
  rewrite <- (top_count (fun x => fst (snd x)) fst _ _
                (fun x => String.eqb (snd (snd x)) k)
                (enumerate_sorted (cocientes_de votos n))).
  rewrite <- (enumerate_snd (cocientes_de votos n) 0) at 1.
  fold (enumerate (cocientes_de votos n)).
  rewrite <- (sort_desc_map snd fst), firstn_map.
  now rewrite filter_length_map.
Qed.

Lemma filter_length_impl {A : Type} (p q : A -> bool) (l : list A) :
  (forall x, In x l -> p x = true -> q x = true) ->
  (List.length (filter p l) <= List.length (filter q l))%nat.
Proof.
  induction l as [|x l IH]; simpl; intros H; [lia|].
  assert (IH' := IH (fun y Hy => H y (or_intror Hy))).
  destruct (p x) eqn:Ep.
  - rewrite (H x (or_introl eq_refl) Ep). simpl. lia.
  - destruct (q x); simpl; lia.
Qed.

Lemma enumerate_In {A : Type} (l : list A) (x : nat * A) :
  In x (enumerate l) -> In (snd x) l.
Proof.
  destruct x as [i a]. unfold enumerate. intros H.
  exact (in_combine_r _ _ _ _ H).
Qed.

Lemma cocientes_row (votos : dict Q) (n : Z) (r : Q * string) :
  In r (cocientes_de votos n) ->
  exists k v d,
    In (k, v) votos /\ (1 <= d <= n)%Z /\ r = ((v / inject_Z d)%Q, k).
Proof.
  unfold cocientes_de. rewrite in_flat_map. intros ([k v] & Hkv & Hr).
  apply in_map_iff in Hr. destruct Hr as (d & <- & Hd).
  exists k, v, d. split; [exact Hkv|]. split; [|reflexivity].
  now apply range1_pos.
Qed.

Lemma cocientes_de_lista (votos : dict Q) (n : Z) (k : string) :
  wf_dict votos -> In k (keys votos) ->
  List.length (filter (fun r => String.eqb (snd r) k) (cocientes_de votos n))
  = Z.to_nat n.
Proof.
  unfold wf_dict, cocientes_de.
  induction votos as [|[a v] votos IH]; simpl; intros Hnd Hin; [tauto|].
  inversion Hnd as [|? ? Ha Hnd']; subst.
  rewrite filter_app, length_app.
  destruct (String.eqb_spec a k) as [->|Hne].
  - rewrite (filter_ext_in _ (fun _ => true)), filter_true, length_map,
      range1_length.
    + rewrite filter_none; [simpl; lia|].
      intros r Hr. apply (cocientes_lista votos n) in Hr.
      apply String.eqb_neq. intros E. now rewrite E in Hr.
    + intros r Hr. apply in_map_iff in Hr. destruct Hr as (d & <- & _).
      apply String.eqb_refl.
  - rewrite filter_none.
    + simpl. apply IH; [exact Hnd'|]. destruct Hin; [contradiction | auto].
    + intros r Hr. apply in_map_iff in Hr. destruct Hr as (d & <- & _).
      now apply String.eqb_neq.
Qed.

Lemma cociente_zero (v : Q) (d : Z) : (v == 0)%Q -> (v / inject_Z d == 0)%Q.
Proof. intros H. unfold Qdiv. rewrite H. apply Qmult_0_l. Qed.

Lemma cociente_mono (v v' : Q) (d : Z) :
  (v <= v')%Q -> (1 <= d)%Z -> (v / inject_Z d <= v' / inject_Z d)%Q.
Proof.
  intros Hv Hd. unfold Qdiv. apply Qmult_le_compat_r; [exact Hv|].
  apply Qinv_le_0_compat. change 0%Q with (inject_Z 0).
  rewrite <- Zle_Qle. lia.
Qed.




(** ** Monotonicity *)

Lemma filter_length_Forall2 {A : Type} (R : A -> A -> Prop) (p q : A -> bool)
  (l l' : list A) :
  Forall2 R l l' ->
  (forall a b, R a b -> p a = true -> q b = true) ->
  (List.length (filter p l) <= List.length (filter q l'))%nat.
Proof.
  intros HF H. induction HF as [|a b l l' Hab _ IH]; simpl; [lia|].
  destruct (p a) eqn:Ep.
  - rewrite (H a b Hab Ep). simpl. lia.
  - destruct (q b); simpl; lia.
Qed.

Lemma filter_length_split {A : Type} (p q : A -> bool) (l : list A) :
  List.length (filter p l)
  = (List.length (filter (fun x => p x && q x) l)
     + List.length (filter (fun x => p x && negb (q x)) l))%nat.
Proof.
  induction l as [|x l IH]; simpl; [reflexivity|].
  destruct (p x), (q x); simpl; lia.
Qed.

Lemma enumerate_Forall2 {A : Type} (R : A -> A -> Prop) (l l' : list A) :
  Forall2 R l l' ->
  forall s,
    Forall2 (fun x x' => fst x = fst x' /\ R (snd x) (snd x'))
            (combine (seq s (List.length l)) l)
            (combine (seq s (List.length l')) l').
Proof.
  induction 1 as [|a b l l' Hab _ IH]; intros s; simpl; constructor; auto.
Qed.

Lemma dict_sube_refl (votos : dict Q) (k : string) :
  ~ In k (keys votos) ->
  Forall2 (fun it it' : string * Q =>
             fst it = fst it'
             /\ (if String.eqb (fst it) k then (snd it <= snd it')%Q
                 else it = it'))
          votos votos.
Proof.
  induction votos as [|[b u] votos IH]; intros Hk; constructor.
  - simpl. split; [reflexivity|].
    destruct (String.eqb_spec b k) as [->|_]; [|reflexivity].
    exfalso. apply Hk. now left.
  - apply IH. intros H. apply Hk. now right.
Qed.

Lemma dict_set_sube (votos : dict Q) (k : string) (v v' : Q) :
  In (k, v) votos -> wf_dict votos -> (v <= v')%Q ->
  Forall2 (fun it it' : string * Q =>
             fst it = fst it'
             /\ (if String.eqb (fst it) k then (snd it <= snd it')%Q
                 else it = it'))
          votos (dict_set votos k v').
Proof.
  unfold wf_dict. induction votos as [|[a w] votos IH]; simpl;
    intros Hin Hnd Hv; [contradiction|].
  inversion Hnd as [|? ? Ha Hnd']; subst.
  destruct (String.eqb_spec a k) as [->|Hne].
  - constructor.
    + simpl. rewrite String.eqb_refl. split; [reflexivity|].
      destruct Hin as [Hin|Hin]; [inversion Hin; subst; exact Hv|].
      exfalso. apply Ha. apply in_map_iff. now exists (k, v).
    + now apply dict_sube_refl.
  - constructor.
    + simpl. split; [reflexivity|].
      destruct (String.eqb_spec a k); [contradiction | reflexivity].
    + apply IH; auto. destruct Hin as [Hin|Hin]; [|exact Hin].
      inversion Hin; subst. contradiction.
Qed.

Lemma cocientes_sube (k : string) (n : Z) (votos votos' : dict Q) :
  Forall2 (fun it it' : string * Q =>
             fst it = fst it'
             /\ (if String.eqb (fst it) k then (snd it <= snd it')%Q
                 else it = it'))
          votos votos' ->
  Forall2 (sube k) (cocientes_de votos n) (cocientes_de votos' n).
Proof.
  unfold cocientes_de.
  induction 1 as [|[a w] [a' w'] votos votos' [Ha Hw] _ IH]; simpl;
    [constructor|].
  simpl in Ha, Hw. subst a'. apply Forall2_app; [|exact IH].
  pose proof (range1_pos n) as Hpos. revert Hpos.
  generalize (range1 n). intros ds Hds.
  induction ds as [|d ds IHd]; simpl; constructor.
  - unfold sube. simpl. split; [reflexivity|].
    destruct (String.eqb a k).
    + apply cociente_mono; [exact Hw|]. apply (Hds d). now left.
    + now inversion Hw.
  - apply IHd. intros d' Hd'. apply Hds. now right.
Qed.

Lemma top_count_enumerate (rows : list (Q * string)) (m : nat)
  (q : Q * string -> bool) :
  List.length (filter q (firstn m (sort_desc fst rows)))
  = List.length
      (filter
         (fun x : nat * (Q * string) =>
            Nat.ltb (rango (fun x => fst (snd x)) fst (enumerate rows) x) m
            && q (snd x))
         (enumerate rows)).
Proof.
  rewrite <- (top_count (fun x => fst (snd x)) fst _ _
                (fun x => q (snd x)) (enumerate_sorted rows)).
  rewrite <- (enumerate_snd rows 0) at 1. fold (enumerate rows).
  rewrite <- (sort_desc_map snd fst), firstn_map.
  now rewrite filter_length_map.
Qed.

Lemma antes_sube (k : string) (y y' b : nat * (Q * string)) :
  fst y = fst y' -> sube k (snd y) (snd y') ->
  antes (fun x => fst (snd x)) fst y b = true ->
  antes (fun x => fst (snd x)) fst y' b = true.
Proof.
  intros Hid [Hl Hv]. rewrite !antes_iff. unfold precede.
  destruct (String.eqb (snd (snd y)) k).
  - rewrite <- Hid. intros [H|[H1 H2]].
    + left. lra.
    + apply Qle_lt_or_eq in Hv. destruct Hv as [Hv|Hv].
      * left. lra.
      * right. split; [lra | exact H2].
  - rewrite <- Hid, <- Hv. auto.
Qed.

(** The heart of monotonicity: when the rows of [k] rise and the others
    stay, [k] owns at least as many of the first [m] sorted rows. *)
Lemma top_count_sube (k : string) (m : nat) (rows rows' : list (Q * string)) :
  Forall2 (sube k) rows rows' ->
  (List.length (filter (fun r => String.eqb (snd r) k)
                       (firstn m (sort_desc fst rows)))
   <= List.length (filter (fun r => String.eqb (snd r) k)
                          (firstn m (sort_desc fst rows'))))%nat.
Proof.
  intros HF.
  pose proof (enumerate_Forall2 _ _ _ HF 0) as HT.
  fold (enumerate rows) in HT. fold (enumerate rows') in HT.
  set (key := fun x : nat * (Q * string) => fst (snd x)) in *.
  set (own := fun x : nat * (Q * string) => String.eqb (snd (snd x)) k).
  assert (Htot : forall l : list (Q * string),
    List.length (filter (fun x => Nat.ltb (rango key fst (enumerate l) x) m)
                        (enumerate l))
    = Nat.min m (List.length l)).
  { intros l.
    rewrite <- (sort_desc_length fst l), <- length_firstn.
    rewrite <- (filter_true (firstn m (sort_desc fst l))).
    rewrite (top_count_enumerate l m (fun _ => true)).
    f_equal. apply filter_ext. intros x. fold key. now rewrite andb_true_r. }
  rewrite !(top_count_enumerate _ m (fun r => String.eqb (snd r) k)).
  fold key.
  pose proof (filter_length_split
    (fun x => Nat.ltb (rango key fst (enumerate rows) x) m) own
    (enumerate rows)) as Hs.
  pose proof (filter_length_split
    (fun x => Nat.ltb (rango key fst (enumerate rows') x) m) own
    (enumerate rows')) as Hs'.
  rewrite Htot in Hs. rewrite Htot in Hs'.
  rewrite <- (Forall2_length HF) in Hs'.
  assert (Hothers :
    (List.length (filter
       (fun x => Nat.ltb (rango key fst (enumerate rows') x) m
                 && negb (own x)) (enumerate rows'))
     <= List.length (filter
       (fun x => Nat.ltb (rango key fst (enumerate rows) x) m
                 && negb (own x)) (enumerate rows)))%nat).
  { apply (filter_length_Forall2
             (fun x' x => fst x = fst x' /\ sube k (snd x) (snd x'))).
    - apply Forall2_flip. exact HT.
    - intros a' b [Hid [Hl Hv]] H. apply andb_prop in H.
      destruct H as [Hr Ho]. unfold own in Ho |- *.
      rewrite <- Hl in Ho. rewrite Ho, andb_true_r.
      apply negb_true_iff in Ho. rewrite Ho in Hv.
      assert (E : b = a').
      { destruct b as [ib rb], a' as [ia ra]. simpl in *. congruence. }
      subst a'. apply Nat.ltb_lt in Hr. apply Nat.ltb_lt.
      eapply Nat.le_lt_trans; [|exact Hr].
      unfold rango.
      apply (filter_length_Forall2
               (fun x x' => fst x = fst x' /\ sube k (snd x) (snd x'))).
      + exact HT.
      + intros y y' [Hy1 Hy2]. now apply antes_sube with (k := k). }
  unfold own in Hs, Hs', Hothers. lia.
Qed.



(** ** The Reconciler *)

Section ReconcilerProps.

Variables lower strip nfd quitar_marcas : string -> string.
Variable ratio : string -> string -> Q.
Variable round3 : Q -> Q.

Local Abbreviation norm := (normalize lower strip nfd quitar_marcas).
Local Abbreviation buscar := (buscar_mejor ratio).
Local Abbreviation mejor := (mejor_candidato ratio).
Local Abbreviation proc := (procesar lower strip nfd quitar_marcas ratio round3).
Local Abbreviation asignar :=
  (assign_votes_to_candidates lower strip nfd quitar_marcas ratio round3).
Local Abbreviation acepta_en := (acepta lower strip nfd quitar_marcas ratio).
Local Abbreviation dest := (destino lower strip nfd quitar_marcas ratio).
Local Abbreviation asig := (asignado lower strip nfd quitar_marcas ratio).
Local Abbreviation dupl := (duplicado lower strip nfd quitar_marcas ratio).

(** *** The inner loop finds the first candidate of the highest ratio *)

Lemma buscar_acc (s : string) (names : list string) :
  forall start acc res,
    fold_left (mejor_paso ratio s)
              (combine (seq start (List.length names)) names) acc = res ->
    (res = acc /\ forall name, In name names -> (ratio s name <= snd acc)%Q)
    \/ exists j name,
        res = (Some (start + j)%nat, ratio s name)
        /\ nth_error names j = Some name
        /\ (snd acc < ratio s name)%Q
        /\ (forall j' name', nth_error names j' = Some name' ->
                             (ratio s name' <= ratio s name)%Q)
        /\ (forall j' name', (j' < j)%nat ->
                             nth_error names j' = Some name' ->
                             (ratio s name' < ratio s name)%Q).
Proof.
  induction names as [|x rest IH]; intros start acc res Hres.
  - left. split; [now symmetry | intros ? []].
  - cbn [List.length seq combine fold_left] in Hres.
    assert (Hp : mejor_paso ratio s acc (start, x)
                 = if Qgt_bool (ratio s x) (snd acc)
                   then (Some start, ratio s x) else acc) by reflexivity.
    rewrite Hp in Hres. clear Hp.
    destruct (Qgt_bool (ratio s x) (snd acc)) eqn:E.
    + apply Qgt_bool_iff in E.
      destruct (IH _ _ _ Hres)
        as [[Hr Hall] | (j & name & Hr & Hn & Hlt & Hmax & Hfirst)];
        simpl in *.
      * right. exists 0%nat, x. rewrite Hr, Nat.add_0_r.
        repeat split; auto.
        -- intros [|j'] name' Hj'; simpl in Hj'.
           ++ inversion Hj'; subst. lra.
           ++ apply Hall. eapply nth_error_In; eauto.
        -- intros; lia.
      * right. exists (S j), name. rewrite Hr.
        replace (start + S j)%nat with (S (start + j)) by lia.
        repeat split; auto.
        -- lra.
        -- intros [|j'] name' Hj'; simpl in Hj'.
           ++ inversion Hj'; subst. lra.
           ++ eapply Hmax; eauto.
        -- intros [|j'] name' Hlt' Hj'; simpl in Hj'.
           ++ inversion Hj'; subst. lra.
           ++ apply (Hfirst j'); auto. lia.
    + assert (Hx : (ratio s x <= snd acc)%Q).
      { destruct (Qlt_le_dec (snd acc) (ratio s x)) as [H|H]; [|exact H].
        apply Qgt_bool_iff in H. congruence. }
      destruct (IH _ _ _ Hres)
        as [[Hr Hall] | (j & name & Hr & Hn & Hlt & Hmax & Hfirst)].
      * left. split; [exact Hr|]. intros name [<-|H]; auto.
      * right. exists (S j), name. rewrite Hr.
        replace (start + S j)%nat with (S (start + j)) by lia.
        repeat split; auto.
        -- intros [|j'] name' Hj'; simpl in Hj'.
           ++ inversion Hj'; subst. lra.
           ++ eapply Hmax; eauto.
        -- intros [|j'] name' Hlt' Hj'; simpl in Hj'.
           ++ inversion Hj'; subst. lra.
           ++ apply (Hfirst j'); auto. lia.
Qed.

Lemma buscar_mejor_some (names : list string) (s : string) (i : nat)
  (r : Q) :
  buscar names s = (Some i, r) ->
  mejor names s i
  /\ (exists name, nth_error names i = Some name /\ r = ratio s name)
  /\ (0 < r)%Q.
Proof.
  unfold buscar_mejor, enumerate. intros H.
  destruct (buscar_acc s names 0 (None, 0%Q) _ H)
    as [[Hres _] | (j & name & Hres & Hn & Hlt & Hmax & Hfirst)];
    simpl in *; [discriminate|].
  inversion Hres; subst. split; [|split].
  - exists name. auto.
  - exists name. auto.
  - exact Hlt.
Qed.

Lemma buscar_mejor_none (names : list string) (s : string) (r : Q) :
  buscar names s = (None, r) ->
  forall name, In name names -> (ratio s name <= 0)%Q.
Proof.
  unfold buscar_mejor, enumerate. intros H.
  destruct (buscar_acc s names 0 (None, 0%Q) _ H)
    as [[Hres Hall] | (j & name & Hres & _)];
    simpl in *; [exact Hall | discriminate].
Qed.

Lemma mejor_candidato_unique (names : list string) (s : string) (i i' : nat) :
  mejor names s i -> mejor names s i' -> i = i'.
Proof.
  intros (n1 & Hn1 & Hmax1 & Hfirst1) (n2 & Hn2 & Hmax2 & Hfirst2).
  destruct (Nat.lt_trichotomy i i') as [H|[H|H]]; [|exact H|].
  - pose proof (Hfirst2 i n1 H Hn1). pose proof (Hmax1 i' n2 Hn2). lra.
  - pose proof (Hfirst1 i' n2 H Hn2). pose proof (Hmax2 i n1 Hn1). lra.
Qed.

(** Under a positive threshold, [destino] is [acepta]. *)
Lemma destino_acepta (names : list string) (threshold : Q)
  (e : Encuesta.t) (i : nat) :
  (0 < threshold)%Q ->
  (exists r, dest names threshold e = Some (i, r))
  <-> acepta_en names threshold e i.
Proof.
  intros Hth. unfold destino, acepta. split.
  - intros (r & H).
    destruct (buscar names (norm (Encuesta.nombre e))) as [[b|] r'] eqn:E;
      [|discriminate].
    destruct (Qle_bool threshold r') eqn:El; [|discriminate].
    inversion H; subst. apply Qle_bool_iff in El.
    apply buscar_mejor_some in E. destruct E as (Hm & (name & Hn & ->) & _).
    split; [exact Hm|]. exists name. auto.
  - intros (Hm & name & Hn & Hle).
    destruct (buscar names (norm (Encuesta.nombre e))) as [[b|] r'] eqn:E.
    + apply buscar_mejor_some in E.
      destruct E as (Hm' & (name' & Hn' & ->) & _).
      rewrite (mejor_candidato_unique _ _ _ _ Hm' Hm) in *.
      assert (name' = name) by congruence. subst name'.
      apply Qle_bool_iff in Hle. rewrite Hle. eauto.
    + exfalso. pose proof (buscar_mejor_none _ _ _ E name
                             (nth_error_In _ _ Hn)). lra.
Qed.

Lemma destino_ratio (names : list string) (threshold : Q)
  (e : Encuesta.t) (i : nat) (r : Q) :
  dest names threshold e = Some (i, r) ->
  exists name,
    nth_error names i = Some name
    /\ r = ratio (norm (Encuesta.nombre e)) name.
Proof.
  unfold destino.
  destruct (buscar names (norm (Encuesta.nombre e))) as [[b|] r'] eqn:E;
    [|discriminate].
  destruct (Qle_bool threshold r'); [|discriminate].
  intros H. inversion H; subst.
  apply buscar_mejor_some in E. tauto.
Qed.

(** *** The outer loop *)

Lemma replace_nth_length {A : Type} (i : nat) (x : A) (l : list A) :
  List.length (replace_nth i x l) = List.length l.
Proof.
  revert i; induction l as [|y l IH]; intros [|i]; simpl; auto.
Qed.

Lemma replace_nth_eq {A : Type} (i : nat) (x : A) (l : list A) :
  (i < List.length l)%nat -> nth_error (replace_nth i x l) i = Some x.
Proof.
  revert i; induction l as [|y l IH]; intros [|i]; simpl; intros H;
    try lia; auto. apply IH. lia.
Qed.

Lemma replace_nth_neq {A : Type} (i j : nat) (x : A) (l : list A) :
  j <> i -> nth_error (replace_nth i x l) j = nth_error l j.
Proof.
  revert i j; induction l as [|y l IH]; intros [|i] [|j] H; simpl; auto;
    try congruence.
Qed.

Lemma existsb_ext_in {A : Type} (f g : A -> bool) (l : list A) :
  (forall x, In x l -> f x = g x) -> existsb f l = existsb g l.
Proof.
  induction l as [|x l IH]; simpl; intros H; [reflexivity|].
  rewrite (H x) by now left. rewrite IH; [reflexivity|].
  intros y Hy. apply H. now right.
Qed.

Lemma mem_In (i : nat) (m : list nat) : mem i m = true <-> In i m.
Proof.
  unfold mem. rewrite existsb_exists. split.
  - intros (x & Hx & E). apply Nat.eqb_eq in E. now subst.
  - intros H. exists i. split; [exact H | apply Nat.eqb_refl].
Qed.

Lemma list_get_ok {A : Type} (l : list A) (i : nat) :
  (i < List.length l)%nat ->
  exists x, nth_error l i = Some x /\ list_get l i = Ok x.
Proof.
  intros H. unfold list_get.
  destruct (nth_error l i) as [x|] eqn:E; [eauto|].
  apply nth_error_None in E. lia.
Qed.

Lemma procesar_destino (names : list string) (threshold : Q) (st : estado)
  (j : nat) (e : Encuesta.t) :
  proc names threshold st (j, e)
  = match dest names threshold e with
    | None => Ok st
    | Some (i, r) =>
        if mem i (matched_candidates st) then
          c <- list_get (st_candidates st) i ;;
          Err (ValueError ("Candidato " ++ Candidate.name c ++ " duplicado")
                 %string)
        else
          c <- list_get (st_candidates st) i ;;
          Ok (mk_estado
                (replace_nth i
                   (marcar (Encuesta.votos e) (Some (Encuesta.nombre e))
                           (round3 r) c)
                   (st_candidates st))
                (i :: matched_candidates st)
                (j :: matched_encuestas st))
    end.
Proof.
  unfold procesar, destino.
  destruct (buscar names (norm (Encuesta.nombre e))) as [[b|] r];
    [|reflexivity].
  destruct (Qle_bool threshold r); reflexivity.
Qed.

Lemma destino_bound (names : list string) (threshold : Q) (e : Encuesta.t)
  (i : nat) (r : Q) :
  dest names threshold e = Some (i, r) -> (i < List.length names)%nat.
Proof.
  intros H. apply destino_ratio in H. destruct H as (name & Hn & _).
  apply nth_error_Some. congruence.
Qed.

Lemma asignado_cons (names : list string) (threshold : Q) (e : Encuesta.t)
  (resto : list Encuesta.t) (i : nat) :
  asig names threshold (e :: resto) i
  = match dest names threshold e with
    | Some (i', r) =>
        if Nat.eqb i' i then Some (e, r) else asig names threshold resto i
    | None => asig names threshold resto i
    end.
Proof. reflexivity. Qed.

Local Abbreviation marc := (marcada lower strip nfd quitar_marcas ratio).

Lemma marcada_cons (names : list string) (threshold : Q) (e : Encuesta.t)
  (resto : list Encuesta.t) (desde j : nat) :
  marc names threshold (e :: resto) desde j
  = (Nat.eqb j desde && es_algo (dest names threshold e))
    || marc names threshold resto (S desde) j.
Proof.
  unfold marcada.
  destruct (Nat.lt_trichotomy j desde) as [H|[H|H]].
  - replace (j - desde)%nat with 0%nat by lia.
    replace (j - S desde)%nat with 0%nat by lia. cbn [nth_error].
    replace (Nat.leb desde j) with false by (symmetry; apply Nat.leb_gt; lia).
    replace (Nat.leb (S desde) j) with false
      by (symmetry; apply Nat.leb_gt; lia).
    replace (Nat.eqb j desde) with false
      by (symmetry; apply Nat.eqb_neq; lia).
    now destruct resto.
  - subst j. rewrite Nat.sub_diag, Nat.eqb_refl, Nat.leb_refl.
    replace (desde - S desde)%nat with 0%nat by lia. cbn [nth_error].
    replace (Nat.leb (S desde) desde) with false
      by (symmetry; apply Nat.leb_gt; lia).
    destruct resto; simpl; now rewrite ?orb_false_r.
  - replace (j - desde)%nat with (S (j - S desde)) by lia. cbn [nth_error].
    replace (Nat.leb desde j) with true by (symmetry; apply Nat.leb_le; lia).
    replace (Nat.leb (S desde) j) with true
      by (symmetry; apply Nat.leb_le; lia).
    replace (Nat.eqb j desde) with false
      by (symmetry; apply Nat.eqb_neq; lia).
    reflexivity.
Qed.

Lemma existsb_nunca {A : Type} (l : list A) :
  existsb (fun _ => false) l = false.
Proof. induction l; simpl; auto. Qed.

(** The loop fails exactly when a poll entry selects a candidate that is
    already matched; otherwise every selected candidate carries the figures
    of the entry that selected it, and nothing else changes. *)
Lemma run_spec (names : list string) (threshold : Q)
  (encuesta_lista : list Encuesta.t) :
  forall desde st,
    List.length (st_candidates st) = List.length names ->
    (dupl names threshold encuesta_lista
     || existsb (fun i => es_algo (asig names threshold encuesta_lista i))
                (matched_candidates st) = true ->
     exists msg,
       foldM (proc names threshold)
             (combine (seq desde (List.length encuesta_lista)) encuesta_lista)
             st
       = Err (ValueError msg))
    /\ (dupl names threshold encuesta_lista
        || existsb (fun i => es_algo (asig names threshold encuesta_lista i))
                   (matched_candidates st) = false ->
        exists st',
          foldM (proc names threshold)
                (combine (seq desde (List.length encuesta_lista))
                         encuesta_lista) st
          = Ok st'
          /\ List.length (st_candidates st') = List.length names
          /\ (forall i,
                mem i (matched_candidates st')
                = mem i (matched_candidates st)
                  || es_algo (asig names threshold encuesta_lista i))
          /\ (forall j,
                mem j (matched_encuestas st')
                = mem j (matched_encuestas st)
                  || marc names threshold encuesta_lista desde j)
          /\ (forall i c,
                nth_error (st_candidates st) i = Some c ->
                nth_error (st_candidates st') i
                = Some match asig names threshold encuesta_lista i with
                       | Some (e, r) =>
                           marcar (Encuesta.votos e)
                                  (Some (Encuesta.nombre e)) (round3 r) c
                       | None => c
                       end)).
Proof.
  induction encuesta_lista as [|e resto IH]; intros desde st Hlen.
  - cbn [duplicado asignado es_algo]. rewrite existsb_nunca. split;
      [discriminate|]. intros _. exists st. split; [reflexivity|].
    split; [exact Hlen|]. split; [|split].
    + intros i. now rewrite orb_false_r.
    + intros j. unfold marcada.
      destruct (j - desde)%nat; cbn [nth_error]; now rewrite orb_false_r.
    + auto.
  - cbn [List.length seq combine foldM duplicado].
    rewrite procesar_destino.
    destruct (dest names threshold e) as [[i r]|] eqn:Ed.
    + pose proof (destino_bound _ _ _ _ _ Ed) as Hi.
      destruct (list_get_ok (st_candidates st) i) as (c & Hc & Hget);
        [lia|].
      rewrite Hget. cbn [bind].
      destruct (mem i (matched_candidates st)) eqn:Em.
      * assert (Hex : existsb
                  (fun i' => es_algo (asig names threshold (e :: resto) i'))
                  (matched_candidates st) = true).
        { apply existsb_exists. exists i. split; [now apply mem_In|].
          now rewrite asignado_cons, Ed, Nat.eqb_refl. }
        rewrite Hex, orb_true_r. split; [|discriminate].
        intros _. eexists. reflexivity.
      * set (st1 := mk_estado _ _ _).
        assert (Hlen1 : List.length (st_candidates st1) = List.length names)
          by (unfold st1; cbn; now rewrite replace_nth_length).
        destruct (IH (S desde) st1 Hlen1) as [IHe IHo].
        assert (Hcond :
          (es_algo (asig names threshold resto i)
           || dupl names threshold resto)
          || existsb
               (fun i' => es_algo (asig names threshold (e :: resto) i'))
               (matched_candidates st)
          = dupl names threshold resto
            || existsb (fun i' => es_algo (asig names threshold resto i'))
                       (matched_candidates st1)).
        { unfold st1. cbn [matched_candidates existsb].
          rewrite (existsb_ext_in
                     (fun i' => es_algo (asig names threshold (e :: resto) i'))
                     (fun i' => es_algo (asig names threshold resto i'))).
          - destruct (es_algo (asig names threshold resto i)),
              (dupl names threshold resto); reflexivity.
          - intros i' Hi'. rewrite asignado_cons, Ed.
            destruct (Nat.eqb_spec i i') as [<-|_]; [|reflexivity].
            apply mem_In in Hi'. congruence. }
        rewrite Hcond. split; [exact IHe|]. intros H.
        destruct (IHo H) as (st' & Hrun & Hl & Hm & Hme & Hcs).
        exists st'. split; [exact Hrun|]. split; [exact Hl|].
        apply orb_false_iff in H. destruct H as [_ Hex].
        unfold st1 in Hex. cbn [matched_candidates existsb] in Hex.
        apply orb_false_iff in Hex. destruct Hex as [Hai _].
        split; [|split].
        -- intros i'. rewrite Hm, asignado_cons, Ed. unfold st1.
           cbn [matched_candidates]. unfold mem at 1. cbn [existsb].
           fold (mem i' (matched_candidates st)).
           rewrite (Nat.eqb_sym i i').
           destruct (Nat.eqb i' i); simpl; [now rewrite orb_true_r|].
           reflexivity.
        -- intros j. rewrite Hme, marcada_cons, Ed. unfold st1.
           cbn [matched_encuestas es_algo]. unfold mem at 1. cbn [existsb].
           fold (mem j (matched_encuestas st)). rewrite andb_true_r.
           destruct (Nat.eqb j desde), (mem j (matched_encuestas st));
             reflexivity.
        -- intros i' c' Hc'. rewrite asignado_cons, Ed.
           destruct (Nat.eqb_spec i i') as [<-|Hne].
           ++ assert (c' = c) by congruence. subst c'.
              rewrite (Hcs i (marcar (Encuesta.votos e)
                                     (Some (Encuesta.nombre e))
                                     (round3 r) c)).
              ** destruct (asig names threshold resto i);
                   [discriminate | reflexivity].
              ** unfold st1. cbn [st_candidates].
                 apply replace_nth_eq. lia.
           ++ apply Hcs. unfold st1. cbn [st_candidates].
              rewrite replace_nth_neq; auto.
    + cbn [bind].
      rewrite (existsb_ext_in
                 (fun i' => es_algo (asig names threshold (e :: resto) i'))
                 (fun i' => es_algo (asig names threshold resto i')))
        by (intros; now rewrite asignado_cons, Ed).
      destruct (IH (S desde) st Hlen) as [IHe IHo].
      split; [exact IHe|]. intros H.
      destruct (IHo H) as (st' & Hrun & Hl & Hm & Hme & Hcs).
      exists st'. split; [exact Hrun|]. split; [exact Hl|].
      split; [|split].
      * intros i. now rewrite Hm, asignado_cons, Ed.
      * intros j. rewrite Hme, marcada_cons, Ed. cbn [es_algo].
        now rewrite andb_false_r.
      * intros i c Hc. rewrite asignado_cons, Ed. now apply Hcs.
Qed.

Local Abbreviation reconc :=
  (reconciliado lower strip nfd quitar_marcas ratio round3).

Lemma nth_error_enumerate {A : Type} (l : list A) :
  forall s i,
    nth_error (combine (seq s (List.length l)) l) i
    = option_map (pair (s + i)%nat) (nth_error l i).
Proof.
  induction l as [|x l IH]; intros s [|i]; simpl; auto.
  - now rewrite Nat.add_0_r.
  - rewrite IH. now replace (S s + i)%nat with (s + S i)%nat by lia.
Qed.

Lemma in_enumerate {A : Type} (l : list A) :
  forall s j x,
    In (j, x) (combine (seq s (List.length l)) l) ->
    (s <= j)%nat /\ nth_error l (j - s) = Some x.
Proof.
  induction l as [|y l IH]; intros s j x; simpl; [tauto|].
  intros [H|H].
  - inversion H; subst. now rewrite Nat.sub_diag.
  - apply IH in H. destruct H as [Hle Hn]. split; [lia|].
    now replace (j - s)%nat with (S (j - S s)) by lia.
Qed.

Lemma enumerate_map_filter {A B : Type} (f : A -> B) (g : A -> bool)
  (l : list A) :
  forall s,
    map (fun ie : nat * A => f (snd ie))
        (filter (fun ie : nat * A => g (snd ie))
                (combine (seq s (List.length l)) l))
    = map f (filter g l).
Proof.
  induction l as [|x l IH]; intros s; simpl; [reflexivity|].
  destruct (g x); simpl; now rewrite IH.
Qed.

Lemma asignar_cons (candidates : list Candidate.t) (e : Encuesta.t)
  (resto : list Encuesta.t) (threshold : Q) :
  asignar candidates (e :: resto) threshold
  = (st <- foldM (proc (map (fun c => norm (Candidate.name c)) candidates)
                       threshold)
                 (enumerate (e :: resto)) (mk_estado candidates [] []) ;;
     Ok (map (fun ic : nat * Candidate.t =>
                if mem (fst ic) (matched_candidates st) then snd ic
                else sin_match (snd ic))
             (enumerate (st_candidates st)),
         map (fun ie : nat * Encuesta.t => Encuesta.nombre (snd ie))
             (filter (fun ie : nat * Encuesta.t =>
                        negb (mem (fst ie) (matched_encuestas st)))
                     (enumerate (e :: resto))))).
Proof. reflexivity. Qed.

(** The whole operation in closed form. *)
Lemma asignar_spec (candidates : list Candidate.t)
  (encuesta_lista : list Encuesta.t) (threshold : Q) :
  (dupl (map (fun c => norm (Candidate.name c)) candidates) threshold
        encuesta_lista = true ->
   exists msg,
     asignar candidates encuesta_lista threshold = Err (ValueError msg))
  /\ (dupl (map (fun c => norm (Candidate.name c)) candidates) threshold
           encuesta_lista = false ->
      asignar candidates encuesta_lista threshold
      = Ok (match encuesta_lista with
            | [] => map sin_encuesta candidates
            | _ =>
                map (reconc (map (fun c => norm (Candidate.name c)) candidates)
                            threshold encuesta_lista)
                    (enumerate candidates)
            end,
            map Encuesta.nombre
                (filter
                   (fun e =>
                      negb (es_algo
                              (dest (map (fun c => norm (Candidate.name c))
                                         candidates) threshold e)))
                   encuesta_lista))).
Proof.
  set (names := map (fun c => norm (Candidate.name c)) candidates).
  destruct encuesta_lista as [|e resto].
  - split; [discriminate | reflexivity].
  - rewrite asignar_cons. fold names.
    set (polls := e :: resto).
    destruct (run_spec names threshold polls 0 (mk_estado candidates [] []))
      as [He Ho]; [unfold names; cbn; now rewrite length_map|].
    cbn [matched_candidates existsb] in He, Ho.
    rewrite orb_false_r in He, Ho. fold (enumerate polls) in He, Ho.
    split.
    + intros H. destruct (He H) as (msg & Hrun). exists msg.
      now rewrite Hrun.
    + intros H. destruct (Ho H) as (st' & Hrun & Hl & Hm & Hme & Hcs).
      rewrite Hrun. cbn [bind]. f_equal. f_equal.
      * apply nth_error_ext. intros i. rewrite !nth_error_map.
        unfold enumerate. rewrite !nth_error_enumerate.
        destruct (nth_error candidates i) as [c|] eqn:Ec.
        -- rewrite (Hcs i c Ec). cbn [option_map fst snd Nat.add].
           f_equal. rewrite Hm. cbn [matched_candidates mem existsb orb].
           unfold reconciliado. cbn [fst snd].
           destruct (asig names threshold polls i) as [[e' r']|];
             reflexivity.
        -- assert (E : nth_error (st_candidates st') i = None).
           { apply nth_error_None. rewrite Hl. unfold names.
             rewrite length_map. now apply nth_error_None. }
           now rewrite E.
      * rewrite (filter_ext_in _
                   (fun ie : nat * Encuesta.t =>
                      negb (es_algo (dest names threshold (snd ie))))).
        -- unfold enumerate.
           apply (enumerate_map_filter Encuesta.nombre
                    (fun e => negb (es_algo (dest names threshold e)))).
        -- intros [j x] Hin. cbn [fst snd]. rewrite Hme.
           cbn [matched_encuestas mem existsb orb].
           apply in_enumerate in Hin. destruct Hin as [_ Hn].
           unfold marcada. now rewrite Hn.
Qed.

Local Abbreviation nombres :=
  (fun candidates : list Candidate.t =>
     map (fun c => norm (Candidate.name c)) candidates).

Lemma asignado_algo (names : list string) (threshold : Q)
  (encuesta_lista : list Encuesta.t) (i : nat) :
  es_algo (asig names threshold encuesta_lista i) = true
  <-> exists j e r,
        nth_error encuesta_lista j = Some e
        /\ dest names threshold e = Some (i, r).
Proof.
  induction encuesta_lista as [|e0 resto IH].
  - split; [discriminate | intros ([|j] & e & r & H & _); discriminate].
  - rewrite asignado_cons. split.
    + intros H. destruct (dest names threshold e0) as [[i0 r0]|] eqn:Ed.
      * destruct (Nat.eqb_spec i0 i) as [->|_].
        -- exists 0%nat, e0, r0. auto.
        -- apply IH in H. destruct H as (j & e & r & Hn & Hd).
           exists (S j), e, r. auto.
      * apply IH in H. destruct H as (j & e & r & Hn & Hd).
        exists (S j), e, r. auto.
    + intros ([|j] & e & r & Hn & Hd); simpl in Hn.
      * inversion Hn; subst. now rewrite Hd, Nat.eqb_refl.
      * assert (H : es_algo (asig names threshold resto i) = true)
          by (apply IH; eauto).
        destruct (dest names threshold e0) as [[i0 r0]|]; [|exact H].
        now destruct (Nat.eqb i0 i).
Qed.

Lemma duplicado_iff (names : list string) (threshold : Q)
  (encuesta_lista : list Encuesta.t) :
  dupl names threshold encuesta_lista = true
  <-> exists j1 j2 e1 e2 i r1 r2,
        (j1 < j2)%nat
        /\ nth_error encuesta_lista j1 = Some e1
        /\ nth_error encuesta_lista j2 = Some e2
        /\ dest names threshold e1 = Some (i, r1)
        /\ dest names threshold e2 = Some (i, r2).
Proof.
  induction encuesta_lista as [|e0 resto IH].
  - split; [discriminate|].
    intros ([|j1] & j2 & e1 & e2 & i & r1 & r2 & _ & H & _); discriminate.
  - cbn [duplicado]. split.
    + intros H. destruct (dest names threshold e0) as [[i0 r0]|] eqn:Ed.
      * apply orb_true_iff in H. destruct H as [H|H].
        -- apply asignado_algo in H. destruct H as (j & e & r & Hn & Hd).
           exists 0%nat, (S j), e0, e, i0, r0, r.
           repeat split; auto. lia.
        -- apply IH in H.
           destruct H as (j1 & j2 & e1 & e2 & i & r1 & r2 & Hlt & H1 & H2
                          & Hd1 & Hd2).
           exists (S j1), (S j2), e1, e2, i, r1, r2.
           repeat split; auto. lia.
      * apply IH in H.
        destruct H as (j1 & j2 & e1 & e2 & i & r1 & r2 & Hlt & H1 & H2
                       & Hd1 & Hd2).
        exists (S j1), (S j2), e1, e2, i, r1, r2.
        repeat split; auto. lia.
    + intros (j1 & j2 & e1 & e2 & i & r1 & r2 & Hlt & H1 & H2 & Hd1 & Hd2).
      destruct j2 as [|j2]; [lia|]. simpl in H2.
      destruct j1 as [|j1]; simpl in H1.
      * inversion H1; subst. rewrite Hd1. apply orb_true_iff. left.
        apply asignado_algo. eauto.
      * assert (H : dupl names threshold resto = true).
        { apply IH. exists j1, j2, e1, e2, i, r1, r2.
          repeat split; auto. lia. }
        destruct (dest names threshold e0) as [[i0 r0]|]; [|exact H].
        rewrite H. apply orb_true_r.
Qed.

(** Without duplicate, the entry that selects a candidate is the one
    [asignado] finds. *)
Lemma asignado_unico (names : list string) (threshold : Q)
  (encuesta_lista : list Encuesta.t) :
  dupl names threshold encuesta_lista = false ->
  forall j e i r,
    nth_error encuesta_lista j = Some e ->
    dest names threshold e = Some (i, r) ->
    asig names threshold encuesta_lista i = Some (e, r).
Proof.
  induction encuesta_lista as [|e0 resto IH]; intros Hd j e i r Hn He.
  - destruct j; discriminate.
  - rewrite asignado_cons. cbn [duplicado] in Hd.
    destruct j as [|j]; simpl in Hn.
    + inversion Hn; subst. now rewrite He, Nat.eqb_refl.
    + destruct (dest names threshold e0) as [[i0 r0]|] eqn:Ed.
      * apply orb_false_iff in Hd. destruct Hd as [Ha Hd].
        destruct (Nat.eqb_spec i0 i) as [->|_]; [|eapply IH; eauto].
        assert (es_algo (asig names threshold resto i) = true)
          by (apply asignado_algo; eauto).
        congruence.
      * eapply IH; eauto.
Qed.

Lemma asignar_ok_sin_duplicado (candidates : list Candidate.t)
  (encuesta_lista : list Encuesta.t) (threshold : Q)
  (r : list Candidate.t * list string) :
  asignar candidates encuesta_lista threshold = Ok r ->
  dupl (nombres candidates) threshold encuesta_lista = false.
Proof.
  intros H.
  destruct (dupl (nombres candidates) threshold encuesta_lista) eqn:Ed;
    [|reflexivity].
  destruct (proj1 (asignar_spec candidates encuesta_lista threshold) Ed)
    as (msg & Hm).
  congruence.
Qed.

(** On poll entries that carry a name and a vote figure, and under a
    positive threshold, the operation raises the duplicate error exactly
    when two poll entries select the same candidate; it raises nothing else;
    and when it returns, the names it reports are those of the entries with
    no candidate at the threshold. *)
Lemma asignar_duplicado_iff (candidates : list Candidate.t)
  (encuesta_lista : list Encuesta.t) (threshold : Q) :
  (0 < threshold)%Q ->
  ((exists msg,
      asignar candidates encuesta_lista threshold = Err (ValueError msg))
   <-> exists j1 j2 e1 e2 i,
         (j1 < j2)%nat
         /\ nth_error encuesta_lista j1 = Some e1
         /\ nth_error encuesta_lista j2 = Some e2
         /\ acepta_en (nombres candidates) threshold e1 i
         /\ acepta_en (nombres candidates) threshold e2 i)
  /\ (forall err,
        asignar candidates encuesta_lista threshold = Err err ->
        exists msg, err = ValueError msg)
  /\ (forall candidates' unmatched,
        asignar candidates encuesta_lista threshold
        = Ok (candidates', unmatched) ->
        forall nombre,
          In nombre unmatched
          <-> exists e,
                In e encuesta_lista
                /\ Encuesta.nombre e = nombre
                /\ forall i, ~ acepta_en (nombres candidates) threshold e i).
Proof.
  intros Hth.
  destruct (asignar_spec candidates encuesta_lista threshold) as [He Ho].
  destruct (dupl (nombres candidates) threshold encuesta_lista) eqn:Ed.
  - destruct (He eq_refl) as (msg & Hm). split; [|split].
    + split; [intros _ | intros _; eauto].
      apply duplicado_iff in Ed.
      destruct Ed as (j1 & j2 & e1 & e2 & i & r1 & r2 & Hlt & H1 & H2
                      & Hd1 & Hd2).
      exists j1, j2, e1, e2, i.
      split; [exact Hlt|]. split; [exact H1|]. split; [exact H2|].
      split; apply destino_acepta; eauto.
    + intros err H. rewrite Hm in H. inversion H. eauto.
    + intros cs' diag H. congruence.
  - specialize (Ho eq_refl). split; [|split].
    + split.
      * intros (msg & H). congruence.
      * intros (j1 & j2 & e1 & e2 & i & Hlt & H1 & H2 & Ha1 & Ha2).
        apply destino_acepta in Ha1, Ha2; auto.
        destruct Ha1 as (r1 & Hr1), Ha2 as (r2 & Hr2).
        assert (dupl (nombres candidates) threshold encuesta_lista = true).
        { apply duplicado_iff. exists j1, j2, e1, e2, i, r1, r2. auto. }
        congruence.
    + intros err H. congruence.
    + intros cs' diag H. rewrite Ho in H. inversion H; subst.
      intros nm. rewrite in_map_iff. split.
      * intros (e & Hn & Hin). apply filter_In in Hin.
        destruct Hin as [Hin Hf]. exists e. repeat split; auto.
        intros i Ha. apply destino_acepta in Ha; auto.
        destruct Ha as (r & Hr). rewrite Hr in Hf. discriminate.
      * intros (e & Hin & Hn & Hno). exists e. split; auto.
        apply filter_In. split; auto.
        destruct (dest (nombres candidates) threshold e) as [[i r]|] eqn:E;
          [|reflexivity].
        exfalso. apply (Hno i). apply destino_acepta; eauto.
Qed.


Lemma marcar_marcar (v : Q) (n : option string) (q : Q) (v' : Q)
  (n' : option string) (q' : Q) (c : Candidate.t) :
  marcar v n q (marcar v' n' q' c) = marcar v n q c.
Proof. reflexivity. Qed.

(** C9. Running the operation again on the roster it returned, with the same
    poll, returns the same roster and the same report; and as the operation
    is a function of the roster, the poll and the threshold, two runs on
    equal inputs agree. *)
Theorem assign_votes_idempotent (candidates : list Candidate.t)
  (encuesta_lista : list Encuesta.t) (threshold : Q) :
  (r <- asignar candidates encuesta_lista threshold ;;
   asignar (fst r) encuesta_lista threshold)
  = asignar candidates encuesta_lista threshold.
Proof.
  destruct (dupl (nombres candidates) threshold encuesta_lista) eqn:Ed.
  - destruct (proj1 (asignar_spec candidates encuesta_lista threshold) Ed)
      as (msg & H).
    now rewrite H.
  - rewrite (proj2 (asignar_spec candidates encuesta_lista threshold) Ed).
    cbn [bind fst].
    set (res := match encuesta_lista with
                | [] => map sin_encuesta candidates
                | _ => map (reconc (nombres candidates) threshold
                                   encuesta_lista) (enumerate candidates)
                end).
    assert (Hnames : nombres res = nombres candidates).
    { unfold res. destruct encuesta_lista as [|e0 resto].
      - rewrite map_map. apply map_ext. now intros [].
      - rewrite map_map.
        transitivity (map (fun c => norm (Candidate.name c))
                          (map snd (enumerate candidates))).
        + rewrite map_map. apply map_ext. intros [i c].
          unfold reconciliado. cbn [fst snd].
          now destruct (asig _ _ _ i) as [[e r]|].
        + unfold enumerate. now rewrite enumerate_snd. }
    rewrite (proj2 (asignar_spec res encuesta_lista threshold));
      rewrite Hnames; [|exact Ed].
    f_equal. f_equal. unfold res.
    destruct encuesta_lista as [|e0 resto].
    + rewrite map_map. apply map_ext. now intros [].
    + apply nth_error_ext. intros i. rewrite !nth_error_map.
      unfold enumerate. rewrite !nth_error_enumerate, nth_error_map.
      unfold enumerate. rewrite nth_error_enumerate.
      destruct (nth_error candidates i) as [c|]; [|reflexivity].
      cbn [option_map Nat.add]. f_equal.
      unfold reconciliado. cbn [fst snd].
      now destruct (asig _ _ _ i) as [[e r]|].
Qed.

End ReconcilerProps.

(** *** The poll in JSON *)

Lemma map_replace_nth {A B : Type} (f : A -> B) (i : nat) (x : A)
  (l : list A) :
  map f (replace_nth i x l) = replace_nth i (f x) (map f l).
Proof.
  revert i. induction l as [|y l IH]; intros [|i]; simpl; auto.
  now rewrite IH.
Qed.

Lemma Forall2_filter {A B : Type} (R : A -> B -> Prop) (p : A -> bool)
  (q : B -> bool) (l : list A) (l' : list B) :
  (forall a b, R a b -> p a = q b) ->
  Forall2 R l l' -> Forall2 R (filter p l) (filter q l').
Proof.
  intros Hpq. induction 1 as [|a b l l' Hab _ IH]; [constructor|].
  cbn [filter]. rewrite (Hpq a b Hab). destruct (q b); auto.
Qed.

Lemma aviso_str (l : list string) : aviso (map JStr l) = Ok tt.
Proof.
  assert (H : forall n (l0 : list string),
             forallb es_str (firstn n (map JStr l0)) = true).
  { induction n as [|n IH]; intros [|x l0]; simpl; auto. }
  destruct l as [|x l]; [reflexivity|]. unfold aviso. cbn [map].
  change (JStr x :: map JStr l) with (map JStr (x :: l)).
  now rewrite H.
Qed.

Section ReconcilerJsonProps.

Variables lower strip nfd quitar_marcas : string -> string.
Variable ratio : string -> string -> Q.
Variable round3 : Q -> Q.
Variable float_de_str : string -> result Q.

Local Abbreviation norm := (normalize lower strip nfd quitar_marcas).
Local Abbreviation norm_json :=
  (normalize_json lower strip nfd quitar_marcas).
Local Abbreviation proc :=
  (procesar lower strip nfd quitar_marcas ratio round3).
Local Abbreviation proc_json :=
  (procesar_json lower strip nfd quitar_marcas ratio round3 float_de_str).
Local Abbreviation asignar :=
  (assign_votes_to_candidates lower strip nfd quitar_marcas ratio round3).
Local Abbreviation asignar_json :=
  (assign_votes_to_candidates_json lower strip nfd quitar_marcas ratio round3
     float_de_str).
Local Abbreviation leer := (leer_encuesta float_de_str).
Local Abbreviation acepta_en := (acepta lower strip nfd quitar_marcas ratio).

(** A poll entry and its record, with the same number in the poll. *)
Local Abbreviation misma :=
  (fun (a : nat * dict json) (b : nat * Encuesta.t) =>
     fst a = fst b /\ leer (snd a) = Some (snd b)).

Lemma normalize_json_str (s : string) : norm_json (JStr s) = Ok (norm s).
Proof.
  unfold normalize_json, normalize, verdadero.
  now destruct (String.eqb s "").
Qed.

Lemma leer_encuesta_spec (encuesta : dict json) (e : Encuesta.t) :
  leer encuesta = Some e ->
  dict_get encuesta "nombre" = Ok (JStr (Encuesta.nombre e))
  /\ exists v,
       dict_get encuesta "votos" = Ok v
       /\ float_json float_de_str v = Ok (Encuesta.votos e).
Proof.
  unfold leer_encuesta.
  destruct (dict_get encuesta "nombre") as [[| | | |s| |]|]; try discriminate.
  destruct (dict_get encuesta "votos") as [v|]; [|discriminate].
  destruct (es_numero v); [|discriminate].
  destruct (float_json float_de_str v) as [q|] eqn:E; [|discriminate].
  intros H. inversion H; subst. cbn. split; [reflexivity|]. eauto.
Qed.

Lemma procesar_json_tipado (names : list string) (threshold : Q)
  (st : estado_json) (a : nat * dict json) (b : nat * Encuesta.t) :
  misma a b ->
  result_map estado_tipado (proc_json names threshold st a)
  = proc names threshold (estado_tipado st) b.
Proof.
  destruct a as [i encuesta], b as [i' e]. cbn [fst snd]. intros [<- Hl].
  destruct (leer_encuesta_spec encuesta e Hl) as (Hn & v & Hv & Hf).
  unfold procesar_json, procesar, dict_get_default. rewrite Hn, Hv.
  rewrite normalize_json_str. cbn [bind].
  destruct (buscar_mejor ratio names (norm (Encuesta.nombre e)))
    as [[best_match|] best_ratio]; [|reflexivity].
  destruct (Qle_bool threshold best_ratio); [|reflexivity].
  cbn [estado_tipado matched_candidates st_candidates matched_encuestas].
  unfold list_get. rewrite nth_error_map.
  destruct (mem best_match (stj_matched_candidates st)).
  - destruct (nth_error (stj_candidates st) best_match) as [c|];
      reflexivity.
  - rewrite Hf. cbn [bind].
    destruct (nth_error (stj_candidates st) best_match) as [c|];
      [|reflexivity].
    cbn [option_map bind result_map]. unfold estado_tipado.
    cbn [stj_candidates stj_matched_candidates stj_matched_encuestas].
    now rewrite map_replace_nth.
Qed.

Lemma foldM_json_tipado (names : list string) (threshold : Q)
  (l : list (nat * dict json)) (l' : list (nat * Encuesta.t)) :
  Forall2 misma l l' ->
  forall st,
    result_map estado_tipado (foldM (proc_json names threshold) l st)
    = foldM (proc names threshold) l' (estado_tipado st).
Proof.
  induction 1 as [|a b l l' Hab _ IH]; intros st; [reflexivity|].
  cbn [foldM]. rewrite <- (procesar_json_tipado names threshold st a b Hab).
  destruct (proc_json names threshold st a) as [st'|err]; cbn [bind result_map].
  - apply IH.
  - reflexivity.
Qed.

Lemma enumerate_misma (encuesta_json : list (dict json))
  (encuesta_lista : list Encuesta.t) :
  map leer encuesta_json = map Some encuesta_lista ->
  Forall2 misma (enumerate encuesta_json) (enumerate encuesta_lista).
Proof.
  unfold enumerate. generalize 0%nat as desde. revert encuesta_lista.
  induction encuesta_json as [|a l IH]; intros [|b l'] desde H;
    try discriminate; [constructor|].
  cbn [map] in H. inversion H as [[Ha Hl]]. cbn [List.length seq combine].
  constructor; [now split|]. now apply IH.
Qed.

Lemma nombre_sin_match_run (l : list (nat * dict json))
  (l' : list (nat * Encuesta.t)) :
  Forall2 misma l l' ->
  forall acc,
    foldM nombre_sin_match l acc
    = Ok (acc ++ map (fun ie : nat * Encuesta.t =>
                        JStr (Encuesta.nombre (snd ie))) l').
Proof.
  induction 1 as [|a b l l' [_ Hab] _ IH]; intros acc; cbn [foldM map].
  - now rewrite app_nil_r.
  - unfold nombre_sin_match at 1.
    destruct (leer_encuesta_spec _ _ Hab) as (-> & _). cbn [bind].
    rewrite IH, <- app_assoc. reflexivity.
Qed.

(** On a poll whose entries carry a name and a vote figure, the run on the
    JSON entries is the run on their records. *)
Lemma asignar_json_tipado (candidates : list CandidateJson.t)
  (encuesta_json : list (dict json)) (encuesta_lista : list Encuesta.t)
  (threshold : Q) :
  map leer encuesta_json = map Some encuesta_lista ->
  result_map (fun r : list CandidateJson.t * list json =>
                (map candidate_tipado (fst r), snd r))
             (asignar_json candidates encuesta_json threshold)
  = result_map (fun r : list Candidate.t * list string =>
                  (fst r, map JStr (snd r)))
               (asignar (map candidate_tipado candidates) encuesta_lista
                        threshold).
Proof.
  intros Hl. pose proof (enumerate_misma _ _ Hl) as Hen.
  unfold assign_votes_to_candidates_json, assign_votes_to_candidates.
  destruct encuesta_json as [|a l], encuesta_lista as [|b l'];
    try discriminate.
  - cbn [result_map fst snd map]. f_equal. f_equal.
    rewrite !map_map. reflexivity.
  - rewrite map_map. cbn [Candidate.name candidate_tipado].
    set (names := map (fun c => norm (CandidateJson.name c)) candidates).
    pose proof (foldM_json_tipado names threshold _ _ Hen
                  (mk_estado_json candidates [] [])) as Hrun.
    change (estado_tipado (mk_estado_json candidates [] []))
      with (mk_estado (map candidate_tipado candidates) [] []) in Hrun.
    rewrite <- Hrun.
    destruct (foldM (proc_json names threshold) (enumerate (a :: l))
                    (mk_estado_json candidates [] [])) as [st|err];
      [|reflexivity].
    cbn [result_map bind].
    cbn [estado_tipado st_candidates matched_candidates matched_encuestas].
    rewrite (nombre_sin_match_run
               (filter (fun ie : nat * dict json =>
                          negb (mem (fst ie) (stj_matched_encuestas st)))
                       (enumerate (a :: l)))
               (filter (fun ie : nat * Encuesta.t =>
                          negb (mem (fst ie) (stj_matched_encuestas st)))
                       (enumerate (b :: l')))).
    2:{ apply Forall2_filter; [|exact Hen].
        intros x y [E _]. now rewrite E. }
    cbn [bind app].
    rewrite <- (map_map (fun ie : nat * Encuesta.t => Encuesta.nombre (snd ie))
                        JStr).
    rewrite aviso_str. cbn [bind result_map fst snd]. f_equal. f_equal.
    unfold enumerate. rewrite length_map.
    generalize 0%nat as desde.
    induction (stj_candidates st) as [|c cs IH]; intros desde;
      [reflexivity|].
    cbn [map List.length seq combine fst snd]. rewrite IH. f_equal.
    now destruct (mem desde (stj_matched_candidates st)).
Qed.


End ReconcilerJsonProps.

(** *** The concrete poll *)






(** ** Worked examples *)

(** A=100000, B=80000, C=30000 and 5 seats: A=3, B=2, C=0. *)
Example dhondt_alloc_example :
  dhondt_alloc [("A", 100000%Q); ("B", 80000%Q); ("C", 30000%Q)] 5
  = Ok [("A", 3%Z); ("B", 2%Z); ("C", 0%Z)].
Proof. vm_compute. reflexivity. Qed.

(** No seats: every list gets 0 and the table of quotients is empty. *)
Example dhondt_alloc_no_seats :
  dhondt_alloc [("A", 100000%Q); ("B", 80000%Q)] 0
  = Ok [("A", 0%Z); ("B", 0%Z)]
  /\ cocientes_de [("A", 100000%Q); ("B", 80000%Q)] 0 = [].
Proof. split; vm_compute; reflexivity. Qed.

(** A pact whose parties have no votes keeps its seats to itself. *)
Example compute_dhondt_skips_pact :
  compute_dhondt
    [Pact.mk "X" "X" 0; Pact.mk "Y" "Y" 0]
    [Party.mk "p" "p" 0 (Some "X"); Party.mk "q" "q" 0 (Some "Y")] 2
  = Ok ([("X", 2%Z); ("Y", 0%Z)], []).
Proof. vm_compute. reflexivity. Qed.

(** * Further properties of the service *)

(** ** More on [dhondt_alloc] *)

(** X1. A single list takes every seat, whatever its votes. *)
Theorem dhondt_alloc_single (k : string) (v : Q) (n : Z) :
  (0 <= n)%Z ->
  dhondt_alloc [(k, v)] n = Ok [(k, n)].
Proof.
  intros Hn.
  assert (Hwf : wf_dict [(k, v)])
    by (apply wf_dict_dec; simpl; reflexivity).
  rewrite (dhondt_alloc_spec _ n Hwf). cbn [keys map fst].
  pose proof (suma_escanos [(k, v)] n Hwf Hn) as Hs.
  cbn [keys map fst sumZ fold_right] in Hs. rewrite Z.add_0_r in Hs.
  rewrite Hs; [reflexivity|]. left. discriminate.
Qed.

Lemma dhondt_alloc_single_witness :
  dhondt_alloc [("A", 0%Q)] 4 = Ok [("A", 4%Z)].
Proof. apply dhondt_alloc_single. discriminate. Defined.

(** *** The divisor rule *)

Lemma cocientes_de_filas (votos : dict Q) (n : Z) (k : string) (v : Q) :
  wf_dict votos -> In (k, v) votos ->
  filter (fun r => String.eqb (snd r) k) (cocientes_de votos n)
  = map (fun d => ((v / inject_Z d)%Q, k)) (range1 n).
Proof.
  unfold wf_dict, cocientes_de.
  induction votos as [|[a w] votos IH]; simpl; intros Hnd Hin; [tauto|].
  inversion Hnd as [|? ? Ha Hnd']; subst. rewrite filter_app.
  destruct Hin as [Hin|Hin].
  - inversion Hin; subst.
    rewrite (filter_ext_in _ (fun _ => true)), filter_true.
    + rewrite filter_none; [now rewrite app_nil_r|].
      intros r Hr. apply (cocientes_lista votos n) in Hr.
      apply String.eqb_neq. intros E. now rewrite E in Hr.
    + intros r Hr. apply in_map_iff in Hr. destruct Hr as (d & <- & _).
      apply String.eqb_refl.
  - rewrite filter_none.
    + simpl. now apply IH.
    + intros r Hr. apply in_map_iff in Hr. destruct Hr as (d & <- & _).
      simpl. apply String.eqb_neq. intros E. apply Ha. rewrite E.
      apply in_map_iff. now exists (k, v).
Qed.

Lemma cociente_anti (v : Q) (d1 d2 : Z) :
  (0 <= v)%Q -> (1 <= d1 <= d2)%Z ->
  (v / inject_Z d2 <= v / inject_Z d1)%Q.
Proof.
  intros Hv Hd.
  assert (H1 : (0 < inject_Z d1)%Q)
    by (change 0%Q with (inject_Z 0); rewrite <- Zlt_Qlt; lia).
  assert (H2 : (0 < inject_Z d2)%Q)
    by (change 0%Q with (inject_Z 0); rewrite <- Zlt_Qlt; lia).
  assert (H12 : (inject_Z d1 <= inject_Z d2)%Q)
    by (rewrite <- Zle_Qle; lia).
  apply Qle_shift_div_l; [exact H1|].
  setoid_replace (v / inject_Z d2 * inject_Z d1)%Q
    with ((v * inject_Z d1) / inject_Z d2)%Q
    by (field; intros E; rewrite E in H2; discriminate).
  apply Qle_shift_div_r; [exact H2|].
  rewrite !(Qmult_comm v). now apply Qmult_le_compat_r.
Qed.

Lemma StronglySorted_impl {A : Type} (R R' : A -> A -> Prop) (l : list A) :
  (forall a b, R a b -> R' a b) ->
  StronglySorted R l -> StronglySorted R' l.
Proof.
  intros H. induction 1 as [|x l Hs IH Hx]; constructor; [exact IH|].
  eapply Forall_impl; [|exact Hx]. intros b; apply H.
Qed.

(** The sorted table descends. *)
Lemma sort_desc_descends {A : Type} (key : A -> Q) (l : list A) :
  StronglySorted (fun x y => (key y <= key x)%Q) (sort_desc key l).
Proof.
  apply (StronglySorted_impl
           (precede key (fun _ => 0%nat) (fun _ _ => True))).
  - intros a b [H|[H _]]; lra.
  - apply sort_desc_precede. induction l; simpl; constructor; auto.
    apply Forall_forall. auto.
Qed.

Lemma StronglySorted_firstn_skipn {A : Type} (R : A -> A -> Prop)
  (l : list A) :
  StronglySorted R l ->
  forall m a b, In a (firstn m l) -> In b (skipn m l) -> R a b.
Proof.
  induction 1 as [|x l Hs IH Hx]; intros m a b Ha Hb.
  - rewrite firstn_nil in Ha. contradiction.
  - destruct m as [|m]; [contradiction|]. simpl in Ha, Hb.
    destruct Ha as [<-|Ha]; [|eapply IH; eauto].
    rewrite Forall_forall in Hx. apply Hx.
    rewrite <- (firstn_skipn m l). apply in_or_app. now right.
Qed.

Lemma existe_en_filtro {A : Type} (p q : A -> bool) (l : list A) :
  (List.length (filter (fun x => p x && q x) l)
   < List.length (filter p l))%nat ->
  exists x, In x l /\ p x = true /\ q x = false.
Proof.
  intros H. rewrite (filter_length_split p q l) in H.
  destruct (filter (fun x => p x && negb (q x)) l) as [|x t] eqn:E;
    [simpl in H; lia|].
  assert (Hx : In x (filter (fun x => p x && negb (q x)) l))
    by (rewrite E; now left).
  apply filter_In in Hx. destruct Hx as [Hin Hpq].
  apply andb_prop in Hpq. destruct Hpq as [Hp Hq].
  exists x. repeat split; auto. now apply negb_true_iff.
Qed.

Lemma contar_menores (s : Z) (m : nat) :
  forall a,
    (List.length (filter (fun d => Z.ltb d s) (map Z.of_nat (seq a m)))
     <= Z.to_nat (s - Z.of_nat a))%nat.
Proof.
  induction m as [|m IH]; intros a; simpl; [lia|].
  specialize (IH (S a)).
  destruct (Z.ltb_spec (Z.of_nat a) s); simpl; lia.
Qed.

Lemma contar_mayores (s : Z) (m : nat) :
  forall a,
    (List.length (filter (fun d => Z.ltb s d) (map Z.of_nat (seq a m)))
     <= Z.to_nat (Z.of_nat a + Z.of_nat m - 1 - s))%nat.
Proof.
  induction m as [|m IH]; intros a; cbn [seq map filter]; [simpl; lia|].
  specialize (IH (S a)).
  destruct (Z.ltb_spec s (Z.of_nat a)); cbn [List.length].
  - pose proof (filter_length_le (fun d => Z.ltb s d)
                  (map Z.of_nat (seq (S a) m))) as Hl.
    rewrite length_map, length_seq in Hl. lia.
  - lia.
Qed.

Lemma filter_firstn_le {A : Type} (p : A -> bool) (m : nat) (l : list A) :
  (List.length (filter p (firstn m l)) <= List.length (filter p l))%nat.
Proof.
  rewrite <- (firstn_skipn m l) at 2. rewrite filter_app, length_app. lia.
Qed.

Lemma filter_skipn_le {A : Type} (p : A -> bool) (m : nat) (l : list A) :
  (List.length (filter p (skipn m l)) <= List.length (filter p l))%nat.
Proof.
  rewrite <- (firstn_skipn m l) at 2. rewrite filter_app, length_app. lia.
Qed.

Lemma Qgt_bool_false (a b : Q) : Qgt_bool a b = false -> (a <= b)%Q.
Proof.
  unfold Qgt_bool. intros H. apply negb_false_iff in H.
  now apply Qle_bool_iff.
Qed.



(** ** The elected candidates *)

Lemma slice_to_length_le {A : Type} (l : list A) (n : Z) :
  (0 <= n)%Z -> (Z.of_nat (List.length (slice_to l n)) <= n)%Z.
Proof.
  intros Hn. unfold slice_to.
  destruct (Z.leb_spec 0 n); [|lia]. rewrite length_firstn. lia.
Qed.

Lemma sumZ_app (l1 l2 : list Z) :
  sumZ (l1 ++ l2) = (sumZ l1 + sumZ l2)%Z.
Proof. induction l1 as [|x l1 IH]; simpl; lia. Qed.

Lemma escanos_repartidos_app (s1 s2 : list (string * dict Z)) :
  escanos_repartidos (s1 ++ s2)
  = (escanos_repartidos s1 + escanos_repartidos s2)%Z.
Proof. unfold escanos_repartidos. now rewrite map_app, sumZ_app. Qed.

Lemma dhondt_alloc_values (votos : dict Q) (n : Z) (asignacion : dict Z) :
  wf_dict votos ->
  dhondt_alloc votos n = Ok asignacion ->
  Forall (fun it : string * Z => (0 <= snd it)%Z) asignacion
  /\ (0 <= n -> sumZ (values asignacion) <= n)%Z.
Proof.
  intros Hwf H. rewrite (dhondt_alloc_spec _ _ Hwf) in H.
  inversion H; subst. clear H. split.
  - apply Forall_forall. intros it Hit. apply in_map_iff in Hit.
    destruct Hit as (k & <- & _). apply cuenta_bounds.
  - intros Hn. rewrite values_map_pair, sum_cuenta;
      [| exact Hwf | intros r; apply ganadores_lista].
    rewrite ganadores_length. lia.
Qed.

Lemma winners_de_length (candidates : list Candidate.t)
  (sub_allocs : list (string * dict Z)) :
  Forall (fun ps : string * dict Z =>
            Forall (fun it : string * Z => (0 <= snd it)%Z) (snd ps))
         sub_allocs ->
  (Z.of_nat (List.length (winners_de candidates sub_allocs))
   <= escanos_repartidos sub_allocs)%Z.
Proof.
  unfold winners_de, escanos_repartidos.
  induction 1 as [|[pacto sa] subs Hsa _ IH]; simpl; [lia|].
  rewrite length_app, Nat2Z.inj_add.
  assert (Hone : (Z.of_nat
                    (List.length
                       (flat_map
                          (fun it : string * Z =>
                             candidatos_electos candidates (fst it) (snd it))
                          sa))
                  <= sumZ (values sa))%Z).
  { clear IH. simpl in Hsa.
    induction Hsa as [|[pid n] sa Hn _ IHsa]; simpl; [lia|].
    rewrite length_app, Nat2Z.inj_add.
    pose proof (slice_to_length_le
                  (sort_desc Candidate.votes
                     (filter (fun c => String.eqb (Candidate.party_id c) pid)
                             candidates)) n Hn) as Hs.
    unfold candidatos_electos at 1. simpl in *. lia. }
  lia.
Qed.

Lemma asignar_partidos_total (parties : list Party.t) (pact_alloc : dict Z) :
  Forall (fun it : string * Z => (0 <= snd it)%Z) pact_alloc ->
  forall acc res,
    foldM (asignar_pacto parties) pact_alloc acc = Ok res ->
    exists subs,
      res = acc ++ subs
      /\ (escanos_repartidos subs <= sumZ (values pact_alloc))%Z
      /\ Forall (fun ps : string * dict Z =>
                   Forall (fun it : string * Z => (0 <= snd it)%Z) (snd ps))
                subs.
Proof.
  induction 1 as [|[pacto n] pact_alloc Hn _ IH]; intros acc res Hres.
  - simpl in Hres. inversion Hres; subst. exists [].
    rewrite app_nil_r. repeat split; [reflexivity | constructor].
  - cbn [foldM] in Hres. unfold asignar_pacto at 1 in Hres.
    destruct (sub_votes_de parties pacto) as [|kv sv] eqn:E.
    + cbn [bind] in Hres. destruct (IH _ _ Hres) as (subs & -> & Ht & Hf).
      exists subs. simpl in *. repeat split; auto. lia.
    + rewrite <- E in Hres.
      assert (Hwf : wf_dict (sub_votes_de parties pacto))
        by apply dict_of_items_is_wf.
      destruct (dhondt_alloc (sub_votes_de parties pacto) n)
        as [sub_alloc|e] eqn:Ed; [|discriminate].
      cbn [bind] in Hres.
      destruct (dhondt_alloc_values _ _ _ Hwf Ed) as [Hnn Hsum].
      destruct (IH _ _ Hres) as (subs & -> & Ht & Hf).
      exists ((pacto, sub_alloc) :: subs). rewrite <- app_assoc.
      split; [reflexivity|]. split; [|constructor; auto].
      simpl in Hn. specialize (Hsum Hn).
      change ((pacto, sub_alloc) :: subs)
        with ([(pacto, sub_alloc)] ++ subs).
      rewrite escanos_repartidos_app. unfold escanos_repartidos at 1.
      simpl in *. lia.
Qed.

(** X4. [compute_dhondt] never elects more candidates than the district has
    seats. *)
Theorem compute_dhondt_winners_bound (pacts : list Pact.t)
  (parties : list Party.t) (candidates : list Candidate.t) (seats : Z)
  (pact_alloc : dict Z) (sub_allocs : list (string * dict Z)) :
  (0 <= seats)%Z ->
  compute_dhondt pacts parties seats = Ok (pact_alloc, sub_allocs) ->
  (Z.of_nat (List.length (winners_de candidates sub_allocs)) <= seats)%Z.
Proof.
  intros Hseats H. unfold compute_dhondt in H.
  assert (Hwf : wf_dict (pact_votes_de pacts)) by apply dict_of_items_is_wf.
  destruct (dhondt_alloc (pact_votes_de pacts) seats) as [pa|e] eqn:Ed;
    [|discriminate].
  cbn [bind] in H.
  destruct (dhondt_alloc_values _ _ _ Hwf Ed) as [Hnn Hsum].
  unfold asignar_partidos in H.
  destruct (foldM (asignar_pacto parties) pa []) as [subs|e] eqn:Ef;
    [|discriminate].
  cbn [bind] in H. inversion H; subst. clear H.
  destruct (asignar_partidos_total parties _ Hnn _ _ Ef)
    as (subs' & -> & Ht & Hf).
  simpl. pose proof (winners_de_length candidates subs' Hf). lia.
Qed.

Lemma compute_dhondt_winners_bound_witness :
  (Z.of_nat
     (List.length
        (winners_de roster_ej
           [("X", [("P", 2%Z)])]))
   <= 2)%Z.
Proof.
  apply (compute_dhondt_winners_bound
           [Pact.mk "X" "X" 30] [Party.mk "P" "P" 30 (Some "X")]
           roster_ej 2 [("X", 2%Z)] [("X", [("P", 2%Z)])]).
  - discriminate.
  - vm_compute. reflexivity.
Defined.

(** X5. The candidates that take the [n] seats of a party are candidates of
    that party, as many as there are seats or all of them when the party
    runs fewer, and no candidate of the party left out has more votes than
    one that is elected. *)
Theorem candidatos_electos_top (candidates : list Candidate.t)
  (pid : string) (n : Z) :
  (0 <= n)%Z ->
  (forall w, In w (candidatos_electos candidates pid n) ->
             In w candidates /\ Candidate.party_id w = pid)
  /\ List.length (candidatos_electos candidates pid n)
     = Nat.min (Z.to_nat n)
         (List.length
            (filter (fun c => String.eqb (Candidate.party_id c) pid)
                    candidates))
  /\ exists resto,
       Permutation
         (candidatos_electos candidates pid n ++ resto)
         (filter (fun c => String.eqb (Candidate.party_id c) pid) candidates)
       /\ forall w c,
            In w (candidatos_electos candidates pid n) -> In c resto ->
            (Candidate.votes c <= Candidate.votes w)%Q.
Proof.
  intros Hn. unfold candidatos_electos, slice_to.
  destruct (Z.leb_spec 0 n) as [_|H]; [|lia].
  set (party := filter (fun c => String.eqb (Candidate.party_id c) pid)
                       candidates).
  set (S := sort_desc Candidate.votes party).
  split; [|split].
  - intros w Hw.
    assert (Hin : In w party).
    { apply (Permutation_in _ (sort_desc_perm Candidate.votes party)).
      fold S. rewrite <- (firstn_skipn (Z.to_nat n) S).
      apply in_or_app. now left. }
    apply filter_In in Hin. destruct Hin as [Hin Hp].
    split; [exact Hin | now apply String.eqb_eq].
  - unfold S. now rewrite length_firstn, sort_desc_length.
  - exists (skipn (Z.to_nat n) S). split.
    + rewrite firstn_skipn. apply sort_desc_perm.
    + intros w c Hw Hc.
      exact (StronglySorted_firstn_skipn _ _
               (sort_desc_descends Candidate.votes party) _ w c Hw Hc).
Qed.

Lemma candidatos_electos_top_witness :
  List.length (candidatos_electos roster_ej "P" 1)
  = Nat.min (Z.to_nat 1)
      (List.length
         (filter (fun c => String.eqb (Candidate.party_id c) "P") roster_ej)).
Proof.
  apply (candidatos_electos_top roster_ej "P" 1). discriminate.
Defined.

(** ** [normalize_district] *)

Lemma decimal_correcto_distritos (d : nat) :
  (1 <= d <= 28)%nat -> decimal_correcto d = true.
Proof.
  intros Hd.
  assert (H : forallb decimal_correcto (seq 1 28) = true)
    by (vm_compute; reflexivity).
  rewrite forallb_forall in H. apply H. apply in_seq. lia.
Qed.

Lemma int_de_digitos_corto (limite : nat) (num : string) :
  limite = 0%nat \/ (640 <= limite)%nat ->
  (String.length num <= 640)%nat ->
  int_de_digitos limite num = Ok (valor_desde 0 num).
Proof.
  intros Hl Hn. unfold int_de_digitos.
  destruct Hl as [-> | Hl]; [reflexivity|].
  replace (Nat.ltb limite (String.length num)) with false
    by (symmetry; apply Nat.ltb_ge; lia).
  now rewrite andb_false_r.
Qed.

Lemma rango_distrito (d : nat) :
  Nat.leb 1 d && Nat.leb d 28 = true <-> (1 <= d <= 28)%nat.
Proof. rewrite andb_true_iff, !Nat.leb_le. reflexivity. Qed.

(** The decimal writing of a district number is left as it is. *)
Lemma normalize_district_canonico (limite d : nat) :
  limite = 0%nat \/ (640 <= limite)%nat ->
  (1 <= d <= 28)%nat ->
  normalize_district limite (str_de_nat d) = str_de_nat d.
Proof.
  intros Hl Hd. pose proof (decimal_correcto_distritos d Hd) as Hc.
  unfold decimal_correcto in Hc.
  repeat (apply andb_prop in Hc; destruct Hc as [Hc ?]).
  unfold normalize_district.
  destruct (primer_numero (str_de_nat d)) as [num|]; [|discriminate].
  apply String.eqb_eq in Hc. subst num.
  rewrite int_de_digitos_corto; auto.
  - match goal with H : Nat.eqb _ d = true |- _ =>
      apply Nat.eqb_eq in H; rewrite H end.
    now rewrite (proj2 (rango_distrito d) Hd).
  - match goal with H : Nat.leb (String.length _) 2 = true |- _ =>
      apply Nat.leb_le in H end. lia.
Qed.

(** X6. The result is the input itself or the decimal writing, without leading
    zeros, of a number from 1 to 28. *)
Theorem normalize_district_shape (limite : nat) (distrito : string) :
  normalize_district limite distrito = distrito
  \/ exists d, (1 <= d <= 28)%nat
               /\ normalize_district limite distrito = str_de_nat d.
Proof.
  unfold normalize_district.
  destruct (primer_numero distrito) as [num|]; [|now left].
  destruct (int_de_digitos limite num) as [d|e]; [|now left].
  destruct (Nat.leb 1 d && Nat.leb d 28) eqn:E; [|now left].
  right. exists d. split; [now apply rango_distrito | reflexivity].
Qed.

(** X7. Normalising twice is normalising once. *)
Theorem normalize_district_idempotent (limite : nat) (distrito : string) :
  limite = 0%nat \/ (640 <= limite)%nat ->
  normalize_district limite (normalize_district limite distrito)
  = normalize_district limite distrito.
Proof.
  intros Hl. unfold normalize_district at 2 3.
  destruct (primer_numero distrito) as [num|] eqn:Ep.
  - destruct (int_de_digitos limite num) as [d|e] eqn:Ei.
    + destruct (Nat.leb 1 d && Nat.leb d 28) eqn:E.
      * apply normalize_district_canonico; [exact Hl|].
        now apply rango_distrito.
      * unfold normalize_district. now rewrite Ep, Ei, E.
    + unfold normalize_district. now rewrite Ep, Ei.
  - unfold normalize_district. now rewrite Ep.
Qed.

Lemma normalize_district_idempotent_witness :
  normalize_district 4300 (normalize_district 4300 "D07")
  = normalize_district 4300 "D07".
Proof. apply normalize_district_idempotent. right. lia. Defined.

Lemma primer_numero_sin_digitos (p s : string) :
  todos (fun c => negb (es_digito c)) p = true ->
  primer_numero (p ++ s) = primer_numero s.
Proof.
  induction p as [|c p IH]; simpl; intros H; [reflexivity|].
  apply andb_prop in H. destruct H as [Hc Hp].
  apply negb_true_iff in Hc. rewrite Hc. auto.
Qed.

Lemma tomar_digitos_app (ds r : string) :
  todos es_digito ds = true -> sin_digito_inicial r = true ->
  tomar_digitos (ds ++ r) = ds.
Proof.
  induction ds as [|c ds IH]; simpl; intros Hd Hr.
  - destruct r as [|c r]; simpl in *; [reflexivity|].
    apply negb_true_iff in Hr. now rewrite Hr.
  - apply andb_prop in Hd. destruct Hd as [Hc Hd]. rewrite Hc.
    now rewrite IH.
Qed.

Lemma primer_numero_digitos (ds r : string) :
  ds <> EmptyString ->
  todos es_digito ds = true -> sin_digito_inicial r = true ->
  primer_numero (ds ++ r) = Some ds.
Proof.
  destruct ds as [|c ds]; [congruence|]. simpl. intros _ Hd Hr.
  apply andb_prop in Hd. destruct Hd as [Hc Hd]. rewrite Hc.
  now rewrite tomar_digitos_app.
Qed.

Lemma todos_app (p : ascii -> bool) (s1 s2 : string) :
  todos p (s1 ++ s2) = todos p s1 && todos p s2.
Proof.
  induction s1 as [|c s1 IH]; simpl; [reflexivity|].
  now rewrite IH, andb_assoc.
Qed.

Lemma ceros_digitos (z : nat) : todos es_digito (ceros z) = true.
Proof. induction z; simpl; auto. Qed.

Lemma valor_desde_ceros (z : nat) (s : string) :
  valor_desde 0 (ceros z ++ s) = valor_desde 0 s.
Proof. induction z as [|z IH]; simpl; auto. Qed.

Lemma length_append (s1 s2 : string) :
  String.length (s1 ++ s2) = (String.length s1 + String.length s2)%nat.
Proof. induction s1 as [|c s1 IH]; simpl; auto. Qed.

Lemma ceros_length (z : nat) : String.length (ceros z) = z.
Proof. induction z; simpl; auto. Qed.



(** ** The roster after the reconciliation *)

Section ReconcilerRoster.

Variables lower strip nfd quitar_marcas : string -> string.
Variable ratio : string -> string -> Q.
Variable round3 : Q -> Q.

Local Abbreviation norm := (normalize lower strip nfd quitar_marcas).
Local Abbreviation asignar :=
  (assign_votes_to_candidates lower strip nfd quitar_marcas ratio round3).
Local Abbreviation acepta_en := (acepta lower strip nfd quitar_marcas ratio).
Local Abbreviation dest := (destino lower strip nfd quitar_marcas ratio).
Local Abbreviation asig := (asignado lower strip nfd quitar_marcas ratio).
Local Abbreviation reconc :=
  (reconciliado lower strip nfd quitar_marcas ratio round3).
Local Abbreviation nombres :=
  (fun candidates : list Candidate.t =>
     map (fun c => norm (Candidate.name c)) candidates).

Lemma asignado_In (names : list string) (threshold : Q)
  (encuesta_lista : list Encuesta.t) (i : nat) (e : Encuesta.t) (r : Q) :
  asig names threshold encuesta_lista i = Some (e, r) ->
  In e encuesta_lista /\ dest names threshold e = Some (i, r).
Proof.
  induction encuesta_lista as [|e0 resto IH]; [discriminate|].
  rewrite asignado_cons.
  destruct (dest names threshold e0) as [[i0 r0]|] eqn:Ed.
  - destruct (Nat.eqb_spec i0 i) as [->|_].
    + intros H. inversion H; subst. split; [now left | exact Ed].
    + intros H. destruct (IH H). split; [now right | assumption].
  - intros H. destruct (IH H). split; [now right | assumption].
Qed.

(** What the operation returns, entry by entry. *)
Lemma asignar_nth (candidates : list Candidate.t)
  (encuesta_lista : list Encuesta.t) (threshold : Q)
  (candidates' : list Candidate.t) (unmatched : list string) :
  asignar candidates encuesta_lista threshold = Ok (candidates', unmatched) ->
  forall i,
    nth_error candidates' i
    = option_map
        (fun c =>
           match encuesta_lista with
           | [] => sin_encuesta c
           | _ => reconc (nombres candidates) threshold encuesta_lista (i, c)
           end)
        (nth_error candidates i).
Proof.
  intros Hok i.
  pose proof (asignar_ok_sin_duplicado _ _ _ _ _ _ _ _ _ _ Hok) as Hd.
  rewrite (proj2 (asignar_spec _ _ _ _ _ _ candidates encuesta_lista
                    threshold) Hd) in Hok.
  inversion Hok as [[Hcs Hdiag]]. clear Hok Hdiag.
  destruct encuesta_lista as [|e0 resto].
  - now rewrite nth_error_map.
  - rewrite nth_error_map. unfold enumerate. rewrite nth_error_enumerate.
    now destruct (nth_error candidates i).
Qed.

Lemma asignar_roster (candidates : list Candidate.t)
  (encuesta_lista : list Encuesta.t) (threshold : Q)
  (candidates' : list Candidate.t) (unmatched : list string) :
  asignar candidates encuesta_lista threshold = Ok (candidates', unmatched) ->
  map (fun c => (Candidate.id c, Candidate.name c, Candidate.party_id c))
      candidates'
  = map (fun c => (Candidate.id c, Candidate.name c, Candidate.party_id c))
        candidates.
Proof.
  intros Hok. apply nth_error_ext. intros i. rewrite !nth_error_map.
  rewrite (asignar_nth _ _ _ _ _ Hok i).
  destruct (nth_error candidates i) as [c|]; [|reflexivity].
  cbn [option_map]. f_equal.
  destruct encuesta_lista as [|e0 resto]; [reflexivity|].
  unfold reconciliado. cbn [fst snd].
  now destruct (asig _ _ _ i) as [[e r]|].
Qed.

(** X9. The operation keeps the roster in place: as many entries, in the same
    order, each with the identifier, the name and the party it came with. *)
Theorem assign_votes_keeps_roster (candidates : list Candidate.t)
  (encuesta_lista : list Encuesta.t) (threshold : Q)
  (candidates' : list Candidate.t) (unmatched : list string) :
  asignar candidates encuesta_lista threshold = Ok (candidates', unmatched) ->
  map (fun c => (Candidate.id c, Candidate.name c, Candidate.party_id c))
      candidates'
  = map (fun c => (Candidate.id c, Candidate.name c, Candidate.party_id c))
        candidates.
Proof. apply asignar_roster. Qed.

(** X10. A candidate that no poll entry selects keeps the vote figure it came
    with when the poll is not empty, and is set to 0 when the poll is empty;
    its provenance is cleared in both cases. *)
Theorem assign_votes_unmatched (candidates : list Candidate.t)
  (encuesta_lista : list Encuesta.t) (threshold : Q)
  (candidates' : list Candidate.t) (unmatched : list string)
  (i : nat) (c : Candidate.t) :
  (0 < threshold)%Q ->
  asignar candidates encuesta_lista threshold = Ok (candidates', unmatched) ->
  nth_error candidates i = Some c ->
  (forall e, In e encuesta_lista ->
             ~ acepta_en (nombres candidates) threshold e i) ->
  nth_error candidates' i
  = Some (marcar (match encuesta_lista with
                  | [] => 0%Q
                  | _ => Candidate.votes c
                  end) None 0 c).
Proof.
  intros Hth Hok Hc Hno. rewrite (asignar_nth _ _ _ _ _ Hok i), Hc.
  cbn [option_map]. f_equal.
  destruct encuesta_lista as [|e0 resto]; [reflexivity|].
  unfold reconciliado. cbn [fst snd].
  destruct (asig _ _ _ i) as [[e r]|] eqn:Ea; [|reflexivity].
  exfalso. apply asignado_In in Ea. destruct Ea as [Hin Hd].
  apply (Hno e Hin).
  apply (destino_acepta lower strip nfd quitar_marcas ratio); eauto.
Qed.

(** X11. The roster of [get_emol_csv] starts at 0 votes, so after the
    reconciliation a candidate carries either 0 votes and no provenance, or
    the votes and the raw name of one poll entry. *)
Theorem get_emol_csv_votes (rows : list Fila.t)
  (encuesta_lista : list Encuesta.t) (threshold : Q)
  (candidates' : list Candidate.t) (unmatched : list string) :
  asignar (roster_de_filas rows) encuesta_lista threshold
  = Ok (candidates', unmatched) ->
  List.length candidates' = List.length rows
  /\ forall i c',
       nth_error candidates' i = Some c' ->
       exists row,
         nth_error rows i = Some row
         /\ Candidate.name c' = Fila.nombre row
         /\ Candidate.party_id c' = Fila.cupo row
         /\ ((Candidate.votes c' = 0%Q
              /\ Candidate.matched_from c' = None)
             \/ exists e,
                  In e encuesta_lista
                  /\ Candidate.votes c' = Encuesta.votos e
                  /\ Candidate.matched_from c'
                     = Some (Encuesta.nombre e)).
Proof.
  intros Hok. split.
  - pose proof (asignar_roster _ _ _ _ _ Hok) as Hk.
    apply (f_equal (@List.length _)) in Hk. rewrite !length_map in Hk.
    rewrite Hk. unfold roster_de_filas, enumerate.
    rewrite length_map, length_combine, length_seq. lia.
  - intros i c' Hc'. rewrite (asignar_nth _ _ _ _ _ Hok i) in Hc'.
    unfold roster_de_filas in Hc' at 2. rewrite nth_error_map in Hc'.
    unfold enumerate in Hc'. rewrite nth_error_enumerate in Hc'.
    destruct (nth_error rows i) as [row|]; [|discriminate].
    cbn [option_map Nat.add fst snd] in Hc'. inversion Hc' as [Hc].
    clear Hc'. exists row. split; [reflexivity|].
    destruct encuesta_lista as [|e0 resto].
    + cbn. repeat split; auto.
    + unfold reconciliado. cbn [fst snd].
      destruct (asig _ _ _ i) as [[e r]|] eqn:Ea.
      * apply asignado_In in Ea. destruct Ea as [Hin _].
        cbn. repeat split; auto. right. exists e. auto.
      * cbn. repeat split; auto.
Qed.

End ReconcilerRoster.

Lemma assign_votes_keeps_roster_witness :
  exists candidates' unmatched,
    assign_votes_to_candidates sin_cambio sin_cambio sin_cambio sin_cambio
      ratio_ej round3_ej roster_ej encuesta_sin_duplicado_ej (8 # 10)
    = Ok (candidates', unmatched)
    /\ map (fun c => (Candidate.id c, Candidate.name c,
                      Candidate.party_id c)) candidates'
       = map (fun c => (Candidate.id c, Candidate.name c,
                        Candidate.party_id c)) roster_ej.
Proof.
  eexists. eexists. split; [vm_compute; reflexivity|].
  apply (assign_votes_keeps_roster sin_cambio sin_cambio sin_cambio
           sin_cambio ratio_ej round3_ej roster_ej encuesta_sin_duplicado_ej
           (8 # 10) _ _ eq_refl).
Defined.

Lemma assign_votes_unmatched_witness :
  exists candidates' unmatched,
    assign_votes_to_candidates sin_cambio sin_cambio sin_cambio sin_cambio
      ratio_ej round3_ej
      [Candidate.mk "1" "ana" 0 "P" None 0;
       Candidate.mk "2" "berta" 7 "P" None 0]
      [Encuesta.mk "ana" 10] (8 # 10)
    = Ok (candidates', unmatched)
    /\ nth_error candidates' 1
       = Some (marcar 7 None 0 (Candidate.mk "2" "berta" 7 "P" None 0)).
Proof.
  eexists. eexists. split; [vm_compute; reflexivity|].
  apply (assign_votes_unmatched sin_cambio sin_cambio sin_cambio
           sin_cambio ratio_ej round3_ej
           [Candidate.mk "1" "ana" 0 "P" None 0;
            Candidate.mk "2" "berta" 7 "P" None 0]
           [Encuesta.mk "ana" 10] (8 # 10) _ _ 1%nat
           (Candidate.mk "2" "berta" 7 "P" None 0) eq_refl eq_refl eq_refl).
  intros e [<-|[]] (_ & name & Hn & Hle).
  vm_compute in Hn. inversion Hn; subst name.
  vm_compute in Hle. apply Hle. reflexivity.
Defined.

Lemma get_emol_csv_votes_witness :
  exists candidates' unmatched,
    assign_votes_to_candidates sin_cambio sin_cambio sin_cambio sin_cambio
      ratio_ej round3_ej
      (roster_de_filas [Fila.mk "ana" "P" (Some "X") None;
                        Fila.mk "berta" "Q" None (Some "f2")])
      [Encuesta.mk "ana" 10] (8 # 10)
    = Ok (candidates', unmatched)
    /\ List.length candidates' = 2%nat.
Proof.
  eexists. eexists. split; [vm_compute; reflexivity|].
  apply (get_emol_csv_votes sin_cambio sin_cambio sin_cambio
           sin_cambio ratio_ej round3_ej
           [Fila.mk "ana" "P" (Some "X") None;
            Fila.mk "berta" "Q" None (Some "f2")]
           [Encuesta.mk "ana" 10] (8 # 10) _ _ eq_refl).
Defined.

(** ** The national summary *)

Lemma dict_get_set_same {V : Type} (d : dict V) (k : string) (v : V) :
  dict_get (dict_set d k v) k = Ok v.
Proof.
  induction d as [|[a w] d IH]; simpl.
  - now rewrite String.eqb_refl.
  - destruct (String.eqb a k) eqn:E; simpl; rewrite E; auto.
Qed.

Lemma sumZ_cons (x : Z) (l : list Z) : sumZ (x :: l) = (x + sumZ l)%Z.
Proof. reflexivity. Qed.

Lemma sum_dict_set {V : Type} (m : V -> Z) (d : dict V) (k : string)
  (x : V) :
  sumZ (map m (values (dict_set d k x)))
  = (sumZ (map m (values d))
     - match dict_get d k with Ok y => m y | Err _ => 0 end
     + m x)%Z.
Proof.
  unfold values.
  induction d as [|[a w] d IH]; cbn [dict_set dict_get]; [cbn; lia|].
  destruct (String.eqb a k); cbn [map snd]; rewrite !sumZ_cons; [lia|].
  rewrite IH. lia.
Qed.

Lemma acumular_pacto_ok (r : dict ResumenPacto.t) (pacto : string) (n : Z)
  (v : Q) :
  exists r',
    acumular_pacto r pacto n v = Ok r'
    /\ escanos_pactos r' = (escanos_pactos r + n)%Z.
Proof.
  unfold acumular_pacto, setdefault, escanos_pactos.
  destruct (dict_get r pacto) as [x|e] eqn:E.
  - rewrite E. cbn [bind]. eexists. split; [reflexivity|].
    rewrite sum_dict_set, E. cbn. lia.
  - rewrite dict_get_set_same. cbn [bind]. eexists. split; [reflexivity|].
    rewrite !sum_dict_set, E, dict_get_set_same. cbn. lia.
Qed.

Lemma acumular_partido_ok (parties : list Party.t) (pacto : string)
  (r : dict ResumenPartido.t) (pid : string) (n : Z) :
  exists r',
    acumular_partido parties pacto r (pid, n) = Ok r'
    /\ escanos_partidos r' = (escanos_partidos r + n)%Z.
Proof.
  unfold acumular_partido, setdefault, escanos_partidos.
  destruct (dict_get r pid) as [x|e] eqn:E.
  - rewrite E. cbn [bind]. eexists. split; [reflexivity|].
    rewrite sum_dict_set, E. cbn. lia.
  - rewrite dict_get_set_same. cbn [bind]. eexists. split; [reflexivity|].
    rewrite !sum_dict_set, E, dict_get_set_same. cbn. lia.
Qed.

Lemma acumular_partidos_ok (parties : list Party.t) (pacto : string)
  (sub_alloc : dict Z) :
  forall r,
  exists r',
    foldM (acumular_partido parties pacto) sub_alloc r = Ok r'
    /\ escanos_partidos r'
       = (escanos_partidos r + sumZ (values sub_alloc))%Z.
Proof.
  induction sub_alloc as [|[pid n] sub_alloc IH]; intros r.
  - exists r. simpl. split; [reflexivity | lia].
  - cbn [foldM].
    destruct (acumular_partido_ok parties pacto r pid n) as (r1 & H1 & E1).
    rewrite H1. cbn [bind].
    destruct (IH r1) as (r' & H' & E'). exists r'.
    split; [exact H'|]. rewrite E', E1. simpl. lia.
Qed.

(** One pact of one district: the loop goes on, both totals grow by the same
    amount, and that amount is at most the pact's seats. *)
Lemma resumen_pacto_ok (parties : list Party.t) (pact_votes : dict Q)
  (acc : dict ResumenPacto.t * dict ResumenPartido.t) (pacto : string)
  (n : Z) :
  (0 <= n)%Z ->
  exists acc' g,
    resumen_pacto parties pact_votes acc (pacto, n) = Ok acc'
    /\ (0 <= g <= n)%Z
    /\ escanos_pactos (fst acc') = (escanos_pactos (fst acc) + g)%Z
    /\ escanos_partidos (snd acc') = (escanos_partidos (snd acc) + g)%Z.
Proof.
  intros Hn. unfold resumen_pacto.
  destruct (sub_votes_de parties pacto) as [|kv sv] eqn:E.
  - exists acc, 0%Z. repeat split; lia.
  - rewrite <- E.
    assert (Hwf : wf_dict (sub_votes_de parties pacto))
      by apply dict_of_items_is_wf.
    rewrite (dhondt_alloc_spec _ n Hwf). cbn [bind].
    destruct (acumular_pacto_ok (fst acc) pacto n
                (dict_get_default pact_votes pacto 0)) as (rp & Hp & Ep).
    rewrite Hp. cbn [bind].
    destruct (acumular_partidos_ok parties pacto
                (map (fun k => (k, cuenta k
                        (ganadores_de (sub_votes_de parties pacto) n)))
                     (keys (sub_votes_de parties pacto))) (snd acc))
      as (rq & Hq & Eq).
    rewrite Hq. cbn [bind]. exists (rp, rq), n. cbn [fst snd].
    split; [reflexivity|]. split; [lia|]. split; [exact Ep|].
    rewrite Eq, values_map_pair, suma_escanos; auto.
    left. rewrite E. discriminate.
Qed.

Lemma resumen_pactos_ok (parties : list Party.t) (pact_votes : dict Q)
  (pact_alloc : dict Z) :
  Forall (fun it : string * Z => (0 <= snd it)%Z) pact_alloc ->
  forall acc,
  exists acc' g,
    foldM (resumen_pacto parties pact_votes) pact_alloc acc = Ok acc'
    /\ (0 <= g <= sumZ (values pact_alloc))%Z
    /\ escanos_pactos (fst acc') = (escanos_pactos (fst acc) + g)%Z
    /\ escanos_partidos (snd acc') = (escanos_partidos (snd acc) + g)%Z.
Proof.
  induction 1 as [|[pacto n] pact_alloc Hn _ IH]; intros acc.
  - exists acc, 0%Z. simpl. repeat split; lia.
  - cbn [foldM]. simpl in Hn.
    destruct (resumen_pacto_ok parties pact_votes acc pacto n Hn)
      as (acc1 & g1 & H1 & Hg1 & Ep1 & Eq1).
    rewrite H1. cbn [bind].
    destruct (IH acc1) as (acc' & g & H' & Hg & Ep & Eq).
    exists acc', (g1 + g)%Z. split; [exact H'|]. simpl. repeat split; lia.
Qed.

Lemma resumen_distrito_ok
  (acc : dict ResumenPacto.t * dict ResumenPartido.t) (d : Distrito.t) :
  exists acc' g,
    resumen_distrito acc d = Ok acc'
    /\ (0 <= g)%Z
    /\ (0 <= Distrito.seats d -> g <= Distrito.seats d)%Z
    /\ escanos_pactos (fst acc') = (escanos_pactos (fst acc) + g)%Z
    /\ escanos_partidos (snd acc') = (escanos_partidos (snd acc) + g)%Z.
Proof.
  unfold resumen_distrito.
  assert (Hwf : wf_dict (pact_votes_de (Distrito.pacts d)))
    by apply dict_of_items_is_wf.
  destruct (dhondt_alloc (pact_votes_de (Distrito.pacts d))
                         (Distrito.seats d)) as [pa|e] eqn:Ed.
  - cbn [bind]. destruct (dhondt_alloc_values _ _ _ Hwf Ed) as [Hnn Hsum].
    destruct (resumen_pactos_ok (Distrito.parties d)
                (pact_votes_de (Distrito.pacts d)) pa Hnn acc)
      as (acc' & g & H' & Hg & Ep & Eq).
    exists acc', g. split; [exact H'|]. split; [lia|].
    split; [intros Hs; specialize (Hsum Hs); lia|]. split; assumption.
  - rewrite (dhondt_alloc_spec _ _ Hwf) in Ed. discriminate.
Qed.

Lemma resumen_distritos_ok (distritos : list Distrito.t) :
  forall acc,
  exists acc' g,
    foldM resumen_distrito distritos acc = Ok acc'
    /\ (0 <= g)%Z
    /\ (Forall (fun d => 0 <= Distrito.seats d)%Z distritos ->
        g <= sumZ (map Distrito.seats distritos))%Z
    /\ escanos_pactos (fst acc') = (escanos_pactos (fst acc) + g)%Z
    /\ escanos_partidos (snd acc') = (escanos_partidos (snd acc) + g)%Z.
Proof.
  induction distritos as [|d distritos IH]; intros acc.
  - exists acc, 0%Z. simpl. repeat split; lia.
  - cbn [foldM].
    destruct (resumen_distrito_ok acc d)
      as (acc1 & g1 & H1 & Hg1 & Hb1 & Ep1 & Eq1).
    rewrite H1. cbn [bind].
    destruct (IH acc1) as (acc' & g & H' & Hg & Hb & Ep & Eq).
    exists acc', (g1 + g)%Z. split; [exact H'|].
    split; [lia|]. split; [|split; lia].
    intros HF. inversion HF as [|? ? Hd HF']; subst.
    specialize (Hb1 Hd). specialize (Hb HF'). simpl. lia.
Qed.

(** X12. From the pacts, the parties and the seats of each district on, the
    accumulation of the national summary goes through (no update of the two
    dictionaries misses its key), and it gives the parties, all together,
    exactly the seats it gives the pacts. *)
Theorem resumen_nacional_totals (distritos : list Distrito.t) :
  exists resumen_pactos resumen_partidos,
    resumen_nacional distritos = Ok (resumen_pactos, resumen_partidos)
    /\ escanos_partidos resumen_partidos = escanos_pactos resumen_pactos.
Proof.
  destruct (resumen_distritos_ok distritos ([], []))
    as ([rp rq] & g & H & _ & _ & Ep & Eq).
  exists rp, rq. split; [exact H|]. cbn [fst snd] in Ep, Eq.
  change (escanos_pactos []) with 0%Z in Ep.
  change (escanos_partidos []) with 0%Z in Eq. lia.
Qed.

(** X13. The seats of the national summary are never negative and never
    exceed the seats of the districts it covers. *)
Theorem resumen_nacional_bound (distritos : list Distrito.t)
  (resumen_pactos : dict ResumenPacto.t)
  (resumen_partidos : dict ResumenPartido.t) :
  Forall (fun d => 0 <= Distrito.seats d)%Z distritos ->
  resumen_nacional distritos = Ok (resumen_pactos, resumen_partidos) ->
  (0 <= escanos_pactos resumen_pactos
   <= sumZ (map Distrito.seats distritos))%Z.
Proof.
  intros HF Hok.
  destruct (resumen_distritos_ok distritos ([], []))
    as (acc' & g & H & Hg & Hb & Ep & Eq).
  unfold resumen_nacional in Hok. rewrite H in Hok. inversion Hok; subst.
  cbn [fst snd] in Ep. change (escanos_pactos []) with 0%Z in Ep.
  specialize (Hb HF). lia.
Qed.

Lemma resumen_nacional_bound_witness :
  (0 <= escanos_pactos [("X", ResumenPacto.mk 2 30);
                        ("Y", ResumenPacto.mk 1 20)]
   <= sumZ (map Distrito.seats
              [Distrito.mk [Pact.mk "X" "X" 30; Pact.mk "Y" "Y" 20]
                           [Party.mk "P" "P" 30 (Some "X");
                            Party.mk "R" "R" 20 (Some "Y")] 3]))%Z.
Proof.
  apply (resumen_nacional_bound
           [Distrito.mk [Pact.mk "X" "X" 30; Pact.mk "Y" "Y" 20]
                        [Party.mk "P" "P" 30 (Some "X");
                         Party.mk "R" "R" 20 (Some "Y")] 3]
           [("X", ResumenPacto.mk 2 30); ("Y", ResumenPacto.mk 1 20)]
           [("P", ResumenPartido.mk 2 30 "X");
            ("R", ResumenPartido.mk 1 20 "Y")]).
  - constructor; [discriminate | constructor].
  - vm_compute. reflexivity.
Defined.

(** ** Votes of a row *)

Lemma find_primero {A : Type} (p : A -> bool) (l : list A) (x : A) :
  find p l = Some x ->
  exists j,
    nth_error l j = Some x
    /\ p x = true
    /\ forall j' y, (j' < j)%nat -> nth_error l j' = Some y -> p y = false.
Proof.
  induction l as [|a l IH]; simpl; [discriminate|].
  destruct (p a) eqn:E.
  - intros H. inversion H; subst. exists 0%nat.
    repeat split; auto. intros; lia.
  - intros H. destruct (IH H) as (j & Hj & Hp & Hfirst).
    exists (S j). repeat split; auto.
    intros [|j'] y Hlt Hy; simpl in Hy.
    + now inversion Hy; subst.
    + apply (Hfirst j'); auto. lia.
Qed.

Section CoincidenciasProps.

Variables lower strip nfd quitar_marcas : string -> string.
Variable ratio : string -> string -> Q.

Local Abbreviation norm := (normalize lower strip nfd quitar_marcas).
Local Abbreviation paso_enc :=
  (mejor_encuesta_paso lower strip nfd quitar_marcas ratio).
Local Abbreviation mejor_enc :=
  (mejor_encuesta lower strip nfd quitar_marcas ratio).
Local Abbreviation votos_fila :=
  (votos_de_fila lower strip nfd quitar_marcas ratio).
Local Abbreviation mejor_ent :=
  (mejor_entrada lower strip nfd quitar_marcas ratio).
Local Abbreviation supera_en := (supera lower strip nfd quitar_marcas ratio).
Local Abbreviation todos_candidatos :=
  (get_todos_candidatos lower strip nfd quitar_marcas ratio).
Local Abbreviation de_tabla :=
  (candidatos_de_tabla lower strip nfd quitar_marcas ratio).
Local Abbreviation primera :=
  (votos_primera lower strip nfd quitar_marcas ratio).

Lemma mejor_encuesta_acc (s : string) (encuesta_lista : list Encuesta.t) :
  forall acc res,
    fold_left (paso_enc s) encuesta_lista acc = res ->
    (res = acc
     /\ forall e, In e encuesta_lista ->
                  (ratio s (norm (Encuesta.nombre e)) <= snd acc)%Q)
    \/ exists j e,
        res = (Some e, ratio s (norm (Encuesta.nombre e)))
        /\ nth_error encuesta_lista j = Some e
        /\ (snd acc < ratio s (norm (Encuesta.nombre e)))%Q
        /\ (forall j' e', nth_error encuesta_lista j' = Some e' ->
              (ratio s (norm (Encuesta.nombre e'))
               <= ratio s (norm (Encuesta.nombre e)))%Q)
        /\ (forall j' e', (j' < j)%nat ->
              nth_error encuesta_lista j' = Some e' ->
              (ratio s (norm (Encuesta.nombre e'))
               < ratio s (norm (Encuesta.nombre e)))%Q).
Proof.
  induction encuesta_lista as [|x rest IH]; intros acc res Hres.
  - left. split; [now symmetry | intros ? []].
  - cbn [fold_left] in Hres. unfold mejor_encuesta_paso at 2 in Hres.
    destruct (Qgt_bool (ratio s (norm (Encuesta.nombre x))) (snd acc)) eqn:E.
    + apply Qgt_bool_iff in E.
      destruct (IH _ _ Hres)
        as [[Hr Hall] | (j & e & Hr & Hn & Hlt & Hmax & Hfirst)];
        simpl in *.
      * right. exists 0%nat, x. repeat split; auto.
        -- intros [|j'] e' Hj'; simpl in Hj'.
           ++ inversion Hj'; subst. lra.
           ++ apply Hall. eapply nth_error_In; eauto.
        -- intros; lia.
      * right. exists (S j), e. repeat split; auto.
        -- lra.
        -- intros [|j'] e' Hj'; simpl in Hj'.
           ++ inversion Hj'; subst. lra.
           ++ eapply Hmax; eauto.
        -- intros [|j'] e' Hlt' Hj'; simpl in Hj'.
           ++ inversion Hj'; subst. lra.
           ++ apply (Hfirst j'); auto. lia.
    + assert (Hx : (ratio s (norm (Encuesta.nombre x)) <= snd acc)%Q).
      { destruct (Qlt_le_dec (snd acc) (ratio s (norm (Encuesta.nombre x))))
          as [H|H]; [|exact H].
        apply Qgt_bool_iff in H. congruence. }
      destruct (IH _ _ Hres)
        as [[Hr Hall] | (j & e & Hr & Hn & Hlt & Hmax & Hfirst)].
      * left. split; [exact Hr|]. intros e [<-|H]; auto.
      * right. exists (S j), e. repeat split; auto.
        -- intros [|j'] e' Hj'; simpl in Hj'.
           ++ inversion Hj'; subst. lra.
           ++ eapply Hmax; eauto.
        -- intros [|j'] e' Hlt' Hj'; simpl in Hj'.
           ++ inversion Hj'; subst. lra.
           ++ apply (Hfirst j'); auto. lia.
Qed.

(** X14. In [compute_dhondt] a row always gets a vote figure (the reading of
    [best_enc] never fails): the votes of the first poll entry of the
    highest ratio when that ratio is at least 0.8, and 0 when every ratio is
    below 0.8. *)
Theorem votos_de_fila_spec (encuesta_lista : list Encuesta.t)
  (row : Fila.t) :
  (exists j e,
     mejor_ent encuesta_lista (norm (Fila.nombre row)) j e
     /\ (8 # 10 <= ratio (norm (Fila.nombre row))
                         (norm (Encuesta.nombre e)))%Q
     /\ votos_fila encuesta_lista row = Some (Encuesta.votos e))
  \/ ((forall e, In e encuesta_lista ->
         (ratio (norm (Fila.nombre row)) (norm (Encuesta.nombre e))
          < 8 # 10)%Q)
      /\ votos_fila encuesta_lista row = Some 0%Q).
Proof.
  unfold votos_de_fila, mejor_encuesta.
  destruct (mejor_encuesta_acc (norm (Fila.nombre row)) encuesta_lista
              (None, 0%Q) _ eq_refl)
    as [[Hr Hall] | (j & e & Hr & Hn & Hlt & Hmax & Hfirst)]; rewrite Hr.
  - right. simpl in Hall. split.
    + intros e He. specialize (Hall e He). lra.
    + reflexivity.
  - destruct (Qle_bool (8 # 10)
                (ratio (norm (Fila.nombre row)) (norm (Encuesta.nombre e))))
      eqn:E.
    + left. exists j, e. apply Qle_bool_iff in E.
      split; [|split; auto]. split; [exact Hn|]. split; assumption.
    + right. split; [|reflexivity]. intros e' He'.
      apply In_nth_error in He'. destruct He' as (j' & Hj').
      specialize (Hmax j' e' Hj').
      assert (~ (8 # 10 <= ratio (norm (Fila.nombre row))
                                 (norm (Encuesta.nombre e)))%Q).
      { intros H. apply Qle_bool_iff in H. congruence. }
      apply Qnot_le_lt in H. lra.
Qed.

Lemma candidatos_de_tabla_In (colores_pactos : dict string) (t : Tabla.t)
  (c : CandidatoNacional.t) :
  In c (de_tabla colores_pactos t) ->
  exists row,
    In row (Tabla.filas t)
    /\ CandidatoNacional.nombre c = Fila.nombre row
    /\ CandidatoNacional.partido c = Fila.cupo row
    /\ CandidatoNacional.distrito c = Tabla.numero t
    /\ CandidatoNacional.votos c
       = primera (Tabla.encuesta t) (Fila.nombre row)
    /\ (0 < CandidatoNacional.votos c)%Q.
Proof.
  unfold candidatos_de_tabla. rewrite in_flat_map.
  intros (row & Hrow & Hc). exists row. split; [exact Hrow|].
  destruct (Qgt_bool (primera (Tabla.encuesta t) (Fila.nombre row)) 0)
    eqn:E; [|contradiction].
  destruct Hc as [<-|[]]. cbn. repeat split; auto.
  now apply Qgt_bool_iff.
Qed.

(** X15. The national list holds candidates with votes above 0 only, and it is
    sorted by votes, highest first. *)
Theorem get_todos_candidatos_sorted (colores_pactos : dict string)
  (tablas : list Tabla.t) :
  StronglySorted
    (fun x y => (CandidatoNacional.votos y <= CandidatoNacional.votos x)%Q)
    (todos_candidatos colores_pactos tablas)
  /\ forall c, In c (todos_candidatos colores_pactos tablas) ->
               (0 < CandidatoNacional.votos c)%Q.
Proof.
  split; [apply sort_desc_descends|].
  intros c Hc. unfold get_todos_candidatos in Hc.
  apply (Permutation_in _ (sort_desc_perm _ _)) in Hc.
  apply in_flat_map in Hc. destruct Hc as (t & _ & Hc).
  apply candidatos_de_tabla_In in Hc. destruct Hc as (row & H). tauto.
Qed.

(** X16. Every candidate of the national list is a row of one of the districts,
    and its votes are those of the first entry of the district's poll whose
    ratio with the row's name is above 0.8: the first such entry, not the
    best one. *)
Theorem get_todos_candidatos_first_match (colores_pactos : dict string)
  (tablas : list Tabla.t) (c : CandidatoNacional.t) :
  In c (todos_candidatos colores_pactos tablas) ->
  exists t row j e,
    In t tablas /\ In row (Tabla.filas t)
    /\ CandidatoNacional.nombre c = Fila.nombre row
    /\ CandidatoNacional.distrito c = Tabla.numero t
    /\ nth_error (Tabla.encuesta t) j = Some e
    /\ CandidatoNacional.votos c = Encuesta.votos e
    /\ (8 # 10 < ratio (norm (Fila.nombre row)) (norm (Encuesta.nombre e)))%Q
    /\ forall j' e',
         (j' < j)%nat -> nth_error (Tabla.encuesta t) j' = Some e' ->
         (ratio (norm (Fila.nombre row)) (norm (Encuesta.nombre e'))
          <= 8 # 10)%Q.
Proof.
  intros Hc. unfold get_todos_candidatos in Hc.
  apply (Permutation_in _ (sort_desc_perm _ _)) in Hc.
  apply in_flat_map in Hc. destruct Hc as (t & Ht & Hc).
  apply candidatos_de_tabla_In in Hc.
  destruct Hc as (row & Hrow & Hn & _ & Hd & Hv & Hpos).
  unfold votos_primera in Hv.
  destruct (find (supera_en (norm (Fila.nombre row))) (Tabla.encuesta t))
    as [e|] eqn:Ef.
  - apply find_primero in Ef. destruct Ef as (j & Hj & Hp & Hfirst).
    exists t, row, j, e. repeat split; auto.
    + now apply Qgt_bool_iff in Hp.
    + intros j' e' Hlt Hj'. specialize (Hfirst j' e' Hlt Hj').
      now apply Qgt_bool_false in Hfirst.
  - rewrite Hv in Hpos. discriminate.
Qed.

End CoincidenciasProps.

Lemma get_todos_candidatos_first_match_witness :
  exists t row j e,
    In t [Tabla.mk 7 [Fila.mk "ana" "P" (Some "X") None]
                     [Encuesta.mk "ana" 10]]
    /\ In row (Tabla.filas t)
    /\ "ana" = Fila.nombre row
    /\ 7%nat = Tabla.numero t
    /\ nth_error (Tabla.encuesta t) j = Some e
    /\ 10%Q = Encuesta.votos e
    /\ (8 # 10 < ratio_ej
                   (normalize sin_cambio sin_cambio sin_cambio sin_cambio
                      (Fila.nombre row))
                   (normalize sin_cambio sin_cambio sin_cambio sin_cambio
                      (Encuesta.nombre e)))%Q
    /\ forall j' e',
         (j' < j)%nat -> nth_error (Tabla.encuesta t) j' = Some e' ->
         (ratio_ej
            (normalize sin_cambio sin_cambio sin_cambio sin_cambio
               (Fila.nombre row))
            (normalize sin_cambio sin_cambio sin_cambio sin_cambio
               (Encuesta.nombre e'))
          <= 8 # 10)%Q.
Proof.
  apply (get_todos_candidatos_first_match sin_cambio sin_cambio sin_cambio
           sin_cambio ratio_ej []
           [Tabla.mk 7 [Fila.mk "ana" "P" (Some "X") None]
                       [Encuesta.mk "ana" 10]]
           (CandidatoNacional.mk "ana" "P" (Some "X") 7 10 "#CCCCCC")).
  vm_compute. now left.
Defined.

(** ** The list of districts *)

Lemma sort_asc_sorted {A : Type} (key : A -> Z) (l : list A) :
  StronglySorted (fun x y => (key x <= key y)%Z) (sort_asc key l).
Proof.
  apply (StronglySorted_impl
           (fun x y => (inject_Z (- key y) <= inject_Z (- key x))%Q)).
  - intros a b H. rewrite <- Zle_Qle in H. lia.
  - apply (sort_desc_descends (fun x => inject_Z (- key x))).
Qed.

Lemma distritos_por_defecto_ok :
  StronglySorted
    (fun x y => (DistritoInfo.numero x <= DistritoInfo.numero y)%Z)
    distritos_por_defecto
  /\ Forall (fun d => (1 <= DistritoInfo.numero d <= 28)%Z)
            distritos_por_defecto.
Proof.
  unfold distritos_por_defecto. split.
  - assert (H : forall n s,
               StronglySorted
                 (fun x y => (DistritoInfo.numero x
                              <= DistritoInfo.numero y)%Z)
                 (map (fun i => DistritoInfo.mk (Z.of_nat i)
                                  ("Distrito " ++ str_de_nat i))
                      (seq s n))).
    { induction n as [|n IH]; intros s; simpl; constructor; [apply IH|].
      apply Forall_forall. intros y Hy. apply in_map_iff in Hy.
      destruct Hy as (i & <- & Hi). apply in_seq in Hi. simpl. lia. }
    apply H.
  - apply Forall_forall. intros d Hd. apply in_map_iff in Hd.
    destruct Hd as (i & <- & Hi). apply in_seq in Hi. simpl. lia.
Qed.

(** X17. Whatever the request gives, the list of districts is not empty, its
    numbers lie between 1 and 28, and it is sorted by number. *)
Theorem get_distritos_wellformed (int_py : string -> option Z)
  (respuesta : result (dict Zona.t * dict (option string))) :
  get_distritos int_py respuesta <> []
  /\ Forall (fun d => (1 <= DistritoInfo.numero d <= 28)%Z)
            (get_distritos int_py respuesta)
  /\ StronglySorted
       (fun x y => (DistritoInfo.numero x <= DistritoInfo.numero y)%Z)
       (get_distritos int_py respuesta).
Proof.
  destruct distritos_por_defecto_ok as [Hs Hr].
  assert (Hne : distritos_por_defecto <> []) by (vm_compute; discriminate).
  unfold get_distritos. destruct respuesta as [[dbzonas dbregiones]|e];
    [|auto].
  destruct (Nat.ltb_spec 0
              (List.length
                 (sort_asc DistritoInfo.numero
                    (flat_map (distrito_de_zona int_py dbregiones) dbzonas))))
    as [Hlen|Hlen]; [|auto].
  split; [|split].
  - intros E. rewrite E in Hlen. simpl in Hlen. lia.
  - apply Forall_forall. intros d Hd. unfold sort_asc in Hd.
    apply (Permutation_in _ (sort_desc_perm _ _)) in Hd.
    apply in_flat_map in Hd. destruct Hd as ([codigo info] & _ & Hd).
    unfold distrito_de_zona in Hd.
    destruct (String.prefix "60" codigo
              && Nat.eqb (String.length codigo) 4); [|contradiction].
    destruct (int_py _) as [num|]; [|contradiction].
    destruct (Z.leb 1 num && Z.leb num 28) eqn:E; [|contradiction].
    destruct Hd as [<-|[]]. simpl.
    apply andb_prop in E. destruct E as [E1 E2].
    apply Z.leb_le in E1, E2. lia.
  - apply sort_asc_sorted.
Qed.

(** ** The parties and the pacts of a district *)

Section Particion.

Context {A : Type}.
Variable eqk : A -> string -> bool.
Hypothesis eqk_fun :
  forall a k1 k2, eqk a k1 = true -> eqk a k2 = true -> k1 = k2.

Lemma filter_or_perm (f g : A -> bool) (l : list A) :
  (forall a, f a = true -> g a = true -> False) ->
  Permutation (filter f l ++ filter g l) (filter (fun a => f a || g a) l).
Proof.
  intros Hd. induction l as [|a l IH]; cbn [filter]; [constructor|].
  destruct (f a) eqn:Ef, (g a) eqn:Eg; cbn [orb app].
  - exfalso. eauto.
  - now constructor.
  - apply Permutation_sym, Permutation_cons_app, Permutation_sym, IH.
  - exact IH.
Qed.

(** Taking the elements key by key, over distinct keys, takes every element
    that has one of the keys once. *)
Lemma particion_perm (l : list A) (ks : list string) :
  NoDup ks ->
  Permutation (flat_map (fun k => filter (fun a => eqk a k) l) ks)
              (filter (fun a => existsb (eqk a) ks) l).
Proof.
  induction 1 as [|k ks Hk Hnd IH]; cbn [flat_map existsb].
  - now rewrite filter_false.
  - etransitivity; [apply Permutation_app_head, IH|].
    apply filter_or_perm. intros a Ha Hex. apply existsb_exists in Hex.
    destruct Hex as (k' & Hin & Hk').
    rewrite (eqk_fun a k k' Ha Hk') in Hk. contradiction.
Qed.

End Particion.

Lemma existsb_eqb_In (x : string) (l : list string) :
  existsb (String.eqb x) l = true <-> In x l.
Proof.
  rewrite existsb_exists. split.
  - intros (y & Hy & E). apply String.eqb_eq in E. now subst.
  - intros H. exists x. split; [exact H|apply String.eqb_refl].
Qed.

(** What the loop over the rows keeps: the parties are those of
    [seen_parties], each once and with a name, with the votes of their
    candidates and the pact of one of the rows. *)
Lemma agregar_partido_inv (candidates : list Candidate.t)
  (rows : list Fila.t) (acc : list Party.t * list string) :
  snd acc = map Party.id (fst acc) ->
  NoDup (snd acc) ->
  let fin := fold_left (agregar_partido candidates) rows acc in
  snd fin = map Party.id (fst fin)
  /\ NoDup (snd fin)
  /\ (forall k, In k (snd fin)
                <-> In k (snd acc) \/ (k <> "" /\ In k (map Fila.cupo rows)))
  /\ (forall p, In p (fst fin) ->
                In p (fst acc)
                \/ (Party.votes p = votos_de_cupo candidates (Party.id p)
                    /\ Party.name p = Party.id p
                    /\ exists row, In row rows
                                   /\ Party.id p = Fila.cupo row
                                   /\ Party.pact_id p = Fila.pacto row)).
Proof.
  revert acc. induction rows as [|row rows IH]; intros [ps seen] Hs Hnd.
  - cbn. repeat split; auto; tauto.
  - cbn [fold_left]. cbn [fst snd] in Hs, Hnd.
    remember (agregar_partido candidates (ps, seen) row) as acc1 eqn:E1.
    unfold agregar_partido in E1. cbn [fst snd] in E1.
    destruct (negb (String.eqb (Fila.cupo row) "")) eqn:Ev;
      [destruct (negb (existsb (String.eqb (Fila.cupo row)) seen)) eqn:Es|];
      cbn [andb] in E1; subst acc1.
    + apply negb_true_iff in Ev, Es. apply String.eqb_neq in Ev.
      assert (Hn : ~ In (Fila.cupo row) seen).
      { intros Hin. apply existsb_eqb_In in Hin. congruence. }
      specialize (IH (ps ++ [Party.mk (Fila.cupo row) (Fila.cupo row)
                               (votos_de_cupo candidates (Fila.cupo row))
                               (Fila.pacto row)],
                      seen ++ [Fila.cupo row])).
      cbn [fst snd] in IH.
      destruct IH as (H1 & H2 & H3 & H4).
      * rewrite map_app, Hs. reflexivity.
      * apply NoDup_app; [exact Hnd|repeat constructor; simpl; tauto|].
        intros k Hk [<-|[]]. contradiction.
      * cbv zeta. split; [exact H1|]. split; [exact H2|]. split.
        -- intros k. rewrite H3, in_app_iff. cbn [map In]. split.
           ++ intros [[Hk|[<-|[]]]|[Hk Hin]]; auto 6.
           ++ intros [Hk|[Hk [<-|Hin]]]; auto 6.
        -- intros p Hp. apply H4 in Hp.
           destruct Hp as [Hp|(Hv & Hname & row' & Hr & Hid & Hpa)].
           ++ apply in_app_iff in Hp. destruct Hp as [Hp|[<-|[]]];
                [now left|]. right. cbn.
              split; [reflexivity|]. split; [reflexivity|].
              exists row. split; [now left|]. now split.
           ++ right. split; [exact Hv|]. split; [exact Hname|].
              exists row'. split; [now right|]. now split.
    + apply negb_true_iff in Ev. apply String.eqb_neq in Ev.
      apply negb_false_iff in Es. apply existsb_eqb_In in Es.
      specialize (IH (ps, seen) Hs Hnd). cbn [fst snd] in IH.
      destruct IH as (H1 & H2 & H3 & H4).
      cbv zeta. split; [exact H1|]. split; [exact H2|]. split.
      * intros k. rewrite H3. cbn [map In]. split.
        -- intros [Hk|[Hk Hin]]; auto.
        -- intros [Hk|[Hk [<-|Hin]]]; auto.
      * intros p Hp. apply H4 in Hp.
        destruct Hp as [Hp|(Hv & Hname & row' & Hr & Hid & Hpa)];
          [now left|].
        right. split; [exact Hv|]. split; [exact Hname|].
        exists row'. split; [now right|]. now split.
    + apply negb_false_iff in Ev. apply String.eqb_eq in Ev.
      specialize (IH (ps, seen) Hs Hnd). cbn [fst snd] in IH.
      destruct IH as (H1 & H2 & H3 & H4).
      cbv zeta. split; [exact H1|]. split; [exact H2|]. split.
      * intros k. rewrite H3. cbn [map In]. split.
        -- intros [Hk|[Hk Hin]]; auto.
        -- intros [Hk|[Hk [E|Hin]]]; auto. congruence.
      * intros p Hp. apply H4 in Hp.
        destruct Hp as [Hp|(Hv & Hname & row' & Hr & Hid & Hpa)];
          [now left|].
        right. split; [exact Hv|]. split; [exact Hname|].
        exists row'. split; [now right|]. now split.
Qed.

Lemma parties_de_spec (rows : list Fila.t) (candidates : list Candidate.t) :
  NoDup (map Party.id (parties_de rows candidates))
  /\ (forall k, In k (map Party.id (parties_de rows candidates))
                <-> k <> "" /\ In k (map Fila.cupo rows))
  /\ (forall p, In p (parties_de rows candidates) ->
                Party.votes p = votos_de_cupo candidates (Party.id p)
                /\ exists row, In row rows
                               /\ Party.id p = Fila.cupo row
                               /\ Party.pact_id p = Fila.pacto row).
Proof.
  destruct (agregar_partido_inv candidates rows ([], []) eq_refl
              (NoDup_nil _)) as (H1 & H2 & H3 & H4).
  unfold parties_de. cbn [fst snd] in *. rewrite <- H1.
  split; [exact H2|]. split.
  - intros k. rewrite H3. cbn. tauto.
  - intros p Hp. destruct (H4 p Hp) as [[]|(Hv & _ & Hrow)]. now split.
Qed.

Lemma unique_desde_In (col vistos : list string) (x : string) :
  In x (unique_desde vistos col) <-> In x col /\ ~ In x vistos.
Proof.
  revert vistos. induction col as [|y col IH]; intros vistos; simpl.
  - tauto.
  - destruct (existsb (String.eqb y) vistos) eqn:E.
    + apply existsb_eqb_In in E. rewrite IH. split.
      * intros [H1 H2]. auto.
      * intros [[<-|H1] H2]; [contradiction|auto].
    + assert (Hy : ~ In y vistos).
      { intros H. apply existsb_eqb_In in H. congruence. }
      simpl. rewrite IH. simpl. split.
      * intros [<-|[H1 H2]]; auto.
      * intros [[<-|H1] H2]; auto.
        destruct (string_dec y x) as [->|Hne]; auto.
        right. split; [exact H1|]. intros [E'|H']; auto.
Qed.

Lemma unique_desde_NoDup (col vistos : list string) :
  NoDup (unique_desde vistos col).
Proof.
  revert vistos. induction col as [|y col IH]; intros vistos; simpl.
  - constructor.
  - destruct (existsb (String.eqb y) vistos); [apply IH|].
    constructor; [|apply IH]. rewrite unique_desde_In. simpl. tauto.
Qed.

Lemma dropna_In (col : list (option string)) (x : string) :
  In x (dropna col) <-> In (Some x) col.
Proof.
  unfold dropna. rewrite in_flat_map. split.
  - intros ([y|] & Hy & Hx); simpl in Hx; [|contradiction].
    destruct Hx as [<-|[]]. exact Hy.
  - intros H. exists (Some x). split; [exact H|now left].
Qed.

Lemma pact_votes_de_pacts (rows : list Fila.t) (parties : list Party.t) :
  pact_votes_de (pacts_de rows parties)
  = map (fun name => (name, votos_de_pacto parties name))
        (filter (fun name => negb (String.eqb name ""))
                (unique (dropna (map Fila.pacto rows)))).
Proof.
  unfold pact_votes_de, pacts_de.
  rewrite filter_map_swap, map_map. cbn [Pact.id Pact.votes].
  apply dict_of_items_wf. rewrite map_map. cbn [fst]. rewrite map_id.
  apply NoDup_filter, unique_desde_NoDup.
Qed.

(** X18. The pacts of [compute_dhondt] are the values of the column
    [pacto], each once.  [pact_votes] holds, pact by pact, the sum over the
    parties of the pact, and the parties that enter these sums are the
    parties that carry a pact with a name, each in the sum of one pact and
    once: a party without pact, or with an empty one, is in no sum of
    [total_votos]. *)
Theorem compute_dhondt_total_votos (rows : list Fila.t)
  (candidates : list Candidate.t) :
  NoDup (map Pact.id (pacts_de rows (parties_de rows candidates)))
  /\ (forall name,
        In name (map Pact.id (pacts_de rows (parties_de rows candidates)))
        <-> In (Some name) (map Fila.pacto rows))
  /\ values (pact_votes_de (pacts_de rows (parties_de rows candidates)))
     = map (votos_de_pacto (parties_de rows candidates))
           (keys (pact_votes_de (pacts_de rows (parties_de rows candidates))))
  /\ Permutation
       (flat_map
          (fun name =>
             filter (fun p => pact_id_eqb (Party.pact_id p) name)
                    (parties_de rows candidates))
          (keys (pact_votes_de (pacts_de rows (parties_de rows candidates)))))
       (filter con_pacto (parties_de rows candidates)).
Proof.
  split; [|split; [|split]].
  - unfold pacts_de. rewrite map_map. cbn [Pact.id]. rewrite map_id.
    apply unique_desde_NoDup.
  - intros name. unfold pacts_de. rewrite map_map. cbn [Pact.id].
    rewrite map_id. unfold unique. rewrite unique_desde_In, dropna_In.
    simpl. tauto.
  - rewrite pact_votes_de_pacts. unfold values, keys. rewrite !map_map.
    reflexivity.
  - rewrite pact_votes_de_pacts. unfold keys. rewrite map_map. cbn [fst].
    rewrite map_id.
    rewrite (particion_perm (fun p k => pact_id_eqb (Party.pact_id p) k)).
    + rewrite (filter_ext_in
                 (fun a =>
                    existsb (pact_id_eqb (Party.pact_id a))
                      (filter (fun name => negb (String.eqb name ""))
                              (unique (dropna (map Fila.pacto rows)))))
                 con_pacto); [reflexivity|].
      intros p Hp. unfold con_pacto.
      destruct (parties_de_spec rows candidates) as (_ & _ & H).
      destruct (H p Hp) as (_ & row & Hrow & _ & Hpa).
      destruct (Party.pact_id p) as [s|] eqn:Es; cbn [pact_id_eqb].
      * destruct (negb (String.eqb s "")) eqn:Ev.
        -- apply existsb_eqb_In, filter_In. split; [|exact Ev].
           unfold unique. rewrite unique_desde_In, dropna_In.
           split; [|simpl; tauto]. rewrite Hpa. now apply in_map.
        -- apply not_true_iff_false. intros Hex.
           apply existsb_eqb_In, filter_In in Hex. destruct Hex as [_ Hex].
           congruence.
      * apply not_true_iff_false. intros Hex. apply existsb_exists in Hex.
        destruct Hex as (k & _ & Hk). discriminate.
    + intros p k1 k2 H1 H2. destruct (Party.pact_id p) as [s|];
        cbn [pact_id_eqb] in *; [|discriminate].
      apply String.eqb_eq in H1, H2. congruence.
    + apply NoDup_filter, unique_desde_NoDup.
Qed.

Section CandidatosProps.

Variables lower strip nfd quitar_marcas : string -> string.
Variable ratio : string -> string -> Q.

Local Abbreviation candidatos :=
  (candidates_de lower strip nfd quitar_marcas ratio).

(** The reading of [best_enc] never fails. *)
Lemma votos_de_fila_some (encuesta_lista : list Encuesta.t) (row : Fila.t) :
  exists votos,
    votos_de_fila lower strip nfd quitar_marcas ratio encuesta_lista row
    = Some votos.
Proof.
  unfold votos_de_fila, mejor_encuesta.
  destruct (mejor_encuesta_acc lower strip nfd quitar_marcas ratio
              (normalize lower strip nfd quitar_marcas (Fila.nombre row))
              encuesta_lista (None, 0%Q) _ eq_refl)
    as [[Hr _] | (j & e & Hr & _)]; rewrite Hr.
  - exists 0%Q. reflexivity.
  - destruct (Qle_bool _ _); eauto.
Qed.

Lemma candidates_de_spec (encuesta_lista : list Encuesta.t)
  (rows : list Fila.t) :
  exists candidates,
    candidatos encuesta_lista rows = Some candidates
    /\ map Candidate.party_id candidates = map Fila.cupo rows.
Proof.
  assert (H : forall l : list (nat * Fila.t),
             exists cs,
               todos_o_nada
                 (candidato_de_fila lower strip nfd quitar_marcas ratio
                    encuesta_lista) l = Some cs
               /\ map Candidate.party_id cs
                  = map Fila.cupo (map snd l)).
  { induction l as [|[idx row] l IH]; cbn [todos_o_nada map].
    - exists []. now split.
    - unfold candidato_de_fila at 1. cbn [fst snd].
      destruct (votos_de_fila_some encuesta_lista row) as (votos & ->).
      destruct IH as (cs & -> & Hcs). eexists. split; [reflexivity|].
      cbn [map Candidate.party_id]. now rewrite Hcs. }
  destruct (H (enumerate rows)) as (cs & Hcs & Hp).
  exists cs. split; [exact Hcs|]. rewrite Hp. unfold enumerate.
  now rewrite enumerate_snd.
Qed.

(** X19. On a table whose rows all carry a [cupo], the parties of
    [compute_dhondt] are the values of the column [cupo], each once; the
    votes of a party are the sum over its candidates, and every candidate
    enters the sum of one party, once. *)
Theorem compute_dhondt_parties (encuesta_lista : list Encuesta.t)
  (rows : list Fila.t) (candidates : list Candidate.t) :
  Forall (fun row => Fila.cupo row <> "") rows ->
  candidatos encuesta_lista rows = Some candidates ->
  NoDup (map Party.id (parties_de rows candidates))
  /\ (forall k, In k (map Party.id (parties_de rows candidates))
                <-> In k (map Fila.cupo rows))
  /\ Forall (fun p => Party.votes p
                      = votos_de_cupo candidates (Party.id p))
            (parties_de rows candidates)
  /\ Permutation
       (flat_map
          (fun p => filter (fun c => String.eqb (Candidate.party_id c)
                                                (Party.id p))
                           candidates)
          (parties_de rows candidates))
       candidates.
Proof.
  intros Hcupo Hc.
  destruct (candidates_de_spec encuesta_lista rows) as (cs & Hcs & Hp).
  rewrite Hc in Hcs. inversion Hcs; subst cs. clear Hcs.
  destruct (parties_de_spec rows candidates) as (Hnd & Hids & Hps).
  assert (Hids' : forall k, In k (map Party.id (parties_de rows candidates))
                            <-> In k (map Fila.cupo rows)).
  { intros k. rewrite Hids. split; [tauto|]. intros Hin. split; [|exact Hin].
    apply in_map_iff in Hin. destruct Hin as (row & <- & Hrow).
    rewrite Forall_forall in Hcupo. now apply Hcupo. }
  split; [exact Hnd|]. split; [exact Hids'|]. split.
  - apply Forall_forall. intros p Hin. now destruct (Hps p Hin).
  - assert (Hflat : forall ps : list Party.t,
               flat_map
                 (fun p => filter (fun c => String.eqb (Candidate.party_id c)
                                                       (Party.id p))
                                  candidates) ps
               = flat_map
                   (fun k => filter (fun c => String.eqb
                                                (Candidate.party_id c) k)
                                    candidates)
                   (map Party.id ps)).
    { induction ps as [|p ps IH]; [reflexivity|]. cbn [flat_map map].
      now rewrite IH. }
    rewrite Hflat.
    rewrite (particion_perm
               (fun c k => String.eqb (Candidate.party_id c) k)).
    + rewrite (filter_ext_in
                 (fun c => existsb (String.eqb (Candidate.party_id c))
                             (map Party.id (parties_de rows candidates)))
                 (fun _ => true)); [now rewrite filter_true|].
      intros c Hin. apply existsb_eqb_In, Hids'. rewrite <- Hp.
      now apply in_map.
    + intros c k1 k2 H1 H2. apply String.eqb_eq in H1, H2. congruence.
    + exact Hnd.
Qed.

End CandidatosProps.

Lemma compute_dhondt_parties_witness :
  exists candidates,
    candidates_de sin_cambio sin_cambio sin_cambio sin_cambio ratio_ej
      [Encuesta.mk "ana" 10]
      [Fila.mk "ana" "P" (Some "X") None; Fila.mk "anab" "P" (Some "X") None;
       Fila.mk "berta" "R" None (Some "f3")]
    = Some candidates
    /\ NoDup (map Party.id
                (parties_de
                   [Fila.mk "ana" "P" (Some "X") None;
                    Fila.mk "anab" "P" (Some "X") None;
                    Fila.mk "berta" "R" None (Some "f3")]
                   candidates)).
Proof.
  eexists. split; [vm_compute; reflexivity|].
  apply (compute_dhondt_parties sin_cambio sin_cambio sin_cambio sin_cambio
           ratio_ej [Encuesta.mk "ana" 10]
           [Fila.mk "ana" "P" (Some "X") None;
            Fila.mk "anab" "P" (Some "X") None;
            Fila.mk "berta" "R" None (Some "f3")] _).
  - repeat constructor; discriminate.
  - vm_compute. reflexivity.
Defined.

(** ** The pacts of the result *)

Lemma asignar_partidos_flat (parties : list Party.t) (pact_alloc : dict Z) :
  forall acc,
    foldM (asignar_pacto parties) pact_alloc acc
    = Ok (acc ++ flat_map (sub_alloc_de parties) pact_alloc).
Proof.
  induction pact_alloc as [|[pacto n] pact_alloc IH]; intros acc;
    cbn [foldM flat_map].
  - now rewrite app_nil_r.
  - unfold asignar_pacto at 1, sub_alloc_de at 1. cbn [fst snd].
    pose proof (dhondt_alloc_spec (sub_votes_de parties pacto) n
                  (dict_of_items_is_wf _)) as Hd.
    destruct (sub_votes_de parties pacto) as [|kv sv].
    + cbn [bind app]. apply IH.
    + rewrite Hd. cbn [bind]. rewrite IH, <- app_assoc. reflexivity.
Qed.

Lemma winners_de_app (candidates : list Candidate.t)
  (s1 s2 : list (string * dict Z)) :
  winners_de candidates (s1 ++ s2)
  = winners_de candidates s1 ++ winners_de candidates s2.
Proof. unfold winners_de. apply flat_map_app. Qed.

Lemma find_party (parties : list Party.t) (p : Party.t) :
  NoDup (map Party.id parties) -> In p parties ->
  find (fun q => String.eqb (Party.id q) (Party.id p)) parties = Some p.
Proof.
  induction parties as [|q parties IH]; intros Hnd Hin; [contradiction|].
  simpl in Hnd. inversion Hnd as [|? ? Hq Hnd']; subst. simpl.
  destruct Hin as [->|Hin].
  - now rewrite String.eqb_refl.
  - destruct (String.eqb_spec (Party.id q) (Party.id p)) as [E|_].
    + exfalso. apply Hq. rewrite E. now apply in_map.
    + now apply IH.
Qed.

(** A winner of the seats of a pact belongs to a party of that pact. *)
Lemma winners_sub_alloc_pacto (parties : list Party.t)
  (candidates : list Candidate.t) (item : string * Z) (c : Candidate.t) :
  NoDup (map Party.id parties) ->
  In c (winners_de candidates (sub_alloc_de parties item)) ->
  pacto_de_partido parties (Candidate.party_id c) = Some (fst item).
Proof.
  intros Hnd Hc. destruct item as [pacto n]. unfold sub_alloc_de in Hc.
  cbn [fst snd] in *.
  pose proof (sub_votes_keys parties pacto) as Hk.
  destruct (sub_votes_de parties pacto) as [|kv sv]; [contradiction|].
  unfold winners_de in Hc. cbn [flat_map snd] in Hc.
  rewrite app_nil_r in Hc. apply in_flat_map in Hc.
  destruct Hc as ([pid m] & Hit & Hc). cbn [fst snd] in Hc.
  unfold candidatos_electos in Hc. apply slice_to_incl in Hc.
  apply (Permutation_in _ (sort_desc_perm _ _)) in Hc.
  apply filter_In in Hc. destruct Hc as [_ Hpid].
  apply String.eqb_eq in Hpid.
  assert (Hin : In pid (keys (kv :: sv))).
  { apply in_map_iff in Hit. destruct Hit as (k & E & Hk').
    inversion E; subst. exact Hk'. }
  apply Hk in Hin. destruct Hin as (p & Hp & Hid & Hpa & _).
  unfold pacto_de_partido. rewrite Hpid, <- Hid.
  now rewrite (find_party parties p Hnd Hp).
Qed.

Lemma winners_sub_alloc_length (parties : list Party.t)
  (candidates : list Candidate.t) (item : string * Z) :
  (0 <= snd item)%Z ->
  (Z.of_nat (List.length (winners_de candidates (sub_alloc_de parties item)))
   <= snd item)%Z.
Proof.
  intros Hn. destruct item as [pacto n]. cbn [snd] in Hn.
  unfold sub_alloc_de. cbn [fst snd].
  pose proof (dhondt_alloc_spec (sub_votes_de parties pacto) n
                (dict_of_items_is_wf _)) as Hd.
  pose proof (dhondt_alloc_values (sub_votes_de parties pacto) n _
                (dict_of_items_is_wf _) Hd) as [Hpos Hsum].
  destruct (sub_votes_de parties pacto) as [|kv sv]; [simpl; lia|].
  etransitivity; [apply winners_de_length|].
  - constructor; [exact Hpos|constructor].
  - unfold escanos_repartidos. cbn [map snd]. rewrite sumZ_cons.
    change (sumZ []) with 0%Z. specialize (Hsum Hn). lia.
Qed.

(** The winners listed under a pact are at most the seats of the pact. *)
Lemma candidatos_pacto_length (parties : list Party.t)
  (candidates : list Candidate.t) (pacto : string) (pact_alloc : dict Z) :
  NoDup (map Party.id parties) ->
  Forall (fun it : string * Z => (0 <= snd it)%Z) pact_alloc ->
  (Z.of_nat
     (List.length
        (candidatos_pacto parties
           (winners_de candidates (flat_map (sub_alloc_de parties) pact_alloc))
           pacto))
   <= sumZ (map snd (filter (fun it => String.eqb (fst it) pacto)
                            pact_alloc)))%Z.
Proof.
  intros Hnd. unfold candidatos_pacto.
  induction 1 as [|item pact_alloc Hn _ IH]; [simpl; lia|].
  cbn [flat_map]. rewrite winners_de_app, filter_app, length_app.
  rewrite Nat2Z.inj_add. cbn [filter].
  destruct (String.eqb_spec (fst item) pacto) as [E|E].
  - cbn [map]. rewrite sumZ_cons.
    pose proof (winners_sub_alloc_length parties candidates item Hn) as Hw.
    pose proof (filter_length_le
                  (fun c => pact_id_eqb
                              (pacto_de_partido parties
                                 (Candidate.party_id c)) pacto)
                  (winners_de candidates (sub_alloc_de parties item))) as Hf.
    lia.
  - assert (Hnil : filter
                     (fun c => pact_id_eqb
                                 (pacto_de_partido parties
                                    (Candidate.party_id c)) pacto)
                     (winners_de candidates (sub_alloc_de parties item))
                   = []).
    { generalize (winners_sub_alloc_pacto parties candidates item).
      induction (winners_de candidates (sub_alloc_de parties item))
        as [|c l IHl]; intros Hall; [reflexivity|].
      cbn [filter]. rewrite (Hall c Hnd) by now left.
      cbn [pact_id_eqb]. apply String.eqb_neq in E. rewrite E.
      apply IHl. intros c' Hnd' Hc'. apply Hall; [exact Hnd'|now right]. }
    rewrite Hnil. simpl List.length. lia.
Qed.

Lemma dict_get_default_keys {V : Type} (d : dict V) (v : V) :
  wf_dict d -> map (fun k => dict_get_default d k v) (keys d) = values d.
Proof.
  unfold wf_dict, dict_get_default, keys, values.
  induction d as [|[k x] d IH]; intros Hwf; [reflexivity|].
  simpl in Hwf. inversion Hwf as [|? ? Hk Hwf']; subst.
  cbn [map fst snd dict_get]. rewrite String.eqb_refl. f_equal.
  rewrite <- (IH Hwf'). apply map_ext_in. intros k' Hk'.
  destruct (String.eqb_spec k k') as [->|_]; [contradiction|reflexivity].
Qed.

Lemma dict_get_default_In {V : Type} (d : dict V) (k : string) (v : V) :
  In k (keys d) -> dict_get d k = Ok (dict_get_default d k v).
Proof.
  unfold dict_get_default. induction d as [|[k' x] d IH]; [contradiction|].
  cbn [keys map fst dict_get]. intros [->|Hin].
  - now rewrite String.eqb_refl.
  - destruct (String.eqb k' k); [reflexivity|now apply IH].
Qed.

Lemma dict_get_default_filter (d : dict Z) (k : string) :
  wf_dict d -> In k (keys d) ->
  sumZ (map snd (filter (fun it => String.eqb (fst it) k) d))
  = dict_get_default d k 0%Z.
Proof.
  unfold wf_dict, dict_get_default.
  induction d as [|[k' x] d IH]; intros Hwf Hin; [contradiction|].
  simpl in Hwf. inversion Hwf as [|? ? Hk Hwf']; subst.
  cbn [filter fst dict_get]. destruct (String.eqb_spec k' k) as [->|Hne].
  - cbn [map snd]. rewrite sumZ_cons.
    assert (Hnil : filter (fun it : string * Z => String.eqb (fst it) k) d
                   = []).
    { clear IH Hwf Hwf' Hin. induction d as [|[k2 x2] d IHd]; [reflexivity|].
      cbn [filter fst]. cbn [keys map fst] in Hk.
      destruct (String.eqb_spec k2 k) as [->|_]; [exfalso; apply Hk; now left|].
      apply IHd. intros H. apply Hk. now right. }
    rewrite Hnil. simpl. lia.
  - destruct Hin as [E|Hin]; [contradiction|]. now apply IH.
Qed.

Lemma sumZ_perm (l1 l2 : list Z) : Permutation l1 l2 -> sumZ l1 = sumZ l2.
Proof.
  unfold sumZ. induction 1; simpl; lia.
Qed.

Lemma filter_partition_perm {A : Type} (f : A -> bool) (l : list A) :
  Permutation (filter f l ++ filter (fun x => negb (f x)) l) l.
Proof.
  induction l as [|x l IH]; [constructor|]. cbn [filter].
  destruct (f x); cbn [negb app].
  - now constructor.
  - apply Permutation_sym, Permutation_cons_app, Permutation_sym, IH.
Qed.

Lemma pacts_de_ids (rows : list Fila.t) (parties : list Party.t) :
  map Pact.id (pacts_de rows parties)
  = unique (dropna (map Fila.pacto rows)).
Proof.
  unfold pacts_de. rewrite map_map. cbn [Pact.id]. apply map_id.
Qed.

Lemma NoDup_map_filter {A B : Type} (f : A -> B) (g : A -> bool)
  (l : list A) :
  NoDup (map f l) -> NoDup (map f (filter g l)).
Proof.
  induction l as [|x l IH]; intros H; [constructor|].
  simpl in H. inversion H as [|? ? Hx Hl]; subst. cbn [filter].
  destruct (g x); [|now apply IH]. cbn [map]. constructor; [|now apply IH].
  intros Hin. apply Hx. apply in_map_iff in Hin.
  destruct Hin as (y & Hy & Hin). apply filter_In in Hin.
  rewrite <- Hy. apply in_map. tauto.
Qed.

(** With distinct pacts no entry of [pact_votes] is overwritten. *)
Lemma pact_votes_de_keys (pacts : list Pact.t) :
  NoDup (map Pact.id pacts) ->
  keys (pact_votes_de pacts)
  = map Pact.id (filter (fun p => negb (String.eqb (Pact.id p) "")) pacts).
Proof.
  intros H. unfold pact_votes_de. rewrite dict_of_items_wf.
  - unfold keys. rewrite map_map. reflexivity.
  - rewrite map_map. cbn [fst]. now apply NoDup_map_filter.
Qed.

Section ResultadoProps.

Variable PACTOS_MAPPING : list PactoInfo.t.
Variable round1 : Q -> Q.

Lemma resultado_con_escanos_run (parties : list Party.t)
  (pact_votes : dict Q) (total_votos : Q) (pact_alloc : dict Z)
  (winners : list Candidate.t) (ks : list string) :
  (forall k, In k ks -> In k (keys pact_alloc)) ->
  forall acc,
    foldM (resultado_con_escanos PACTOS_MAPPING round1 parties pact_votes
             total_votos pact_alloc winners) ks acc
    = Ok (acc
          ++ map (fun pacto =>
                    ResultadoPacto.mk
                      (get_pacto_nombre PACTOS_MAPPING pacto) pacto
                      (map (fun c => ElectoPacto.mk (Candidate.name c)
                                       (Candidate.party_id c)
                                       (Candidate.votes c))
                           (sort_desc Candidate.votes
                              (candidatos_pacto parties winners pacto)))
                      (dict_get_default pact_votes pacto 0)
                      (porcentaje_de round1
                         (dict_get_default pact_votes pacto 0) total_votos)
                      (dict_get_default pact_alloc pacto 0%Z))
                 ks).
Proof.
  induction ks as [|k ks IH]; intros Hks acc; cbn [foldM map].
  - now rewrite app_nil_r.
  - unfold resultado_con_escanos at 1.
    rewrite (dict_get_default_In pact_alloc k 0%Z) by (apply Hks; now left).
    cbn [bind]. rewrite IH by (intros k' Hk'; apply Hks; now right).
    now rewrite <- app_assoc.
Qed.

Lemma resultado_sin_escanos_run (total_votos : Q) (pact_alloc : dict Z)
  (pacts : list Pact.t) :
  forall acc,
    fold_left (resultado_sin_escanos PACTOS_MAPPING round1 total_votos
                 pact_alloc) pacts acc
    = acc
      ++ map (fun p =>
                ResultadoPacto.mk
                  (get_pacto_nombre PACTOS_MAPPING (Pact.id p)) (Pact.id p)
                  [] (Pact.votes p)
                  (porcentaje_de round1 (Pact.votes p) total_votos) 0)
             (filter (fun p => negb (existsb (String.eqb (Pact.id p))
                                             (keys pact_alloc)))
                     pacts).
Proof.
  induction pacts as [|p pacts IH]; intros acc; cbn [fold_left filter].
  - now rewrite app_nil_r.
  - unfold resultado_sin_escanos at 2.
    destruct (negb (existsb (String.eqb (Pact.id p)) (keys pact_alloc))).
    + rewrite IH. cbn [map]. now rewrite <- app_assoc.
    + apply IH.
Qed.

(** X20. [compute_dhondt] goes through: from the table of a district it gets
    the two allocations and the pacts of the result.  No pact of the result
    lists more elected candidates than it holds seats, the seats of the
    result are those of [pact_alloc], and the result names every pact of the
    table once. *)
Theorem resultado_por_pacto_bound (rows : list Fila.t)
  (candidates : list Candidate.t) (seats : Z) :
  exists pact_alloc sub_allocs res,
    compute_dhondt (pacts_de rows (parties_de rows candidates))
                   (parties_de rows candidates) seats
    = Ok (pact_alloc, sub_allocs)
    /\ resultado_por_pacto_de PACTOS_MAPPING round1
         (pacts_de rows (parties_de rows candidates))
         (parties_de rows candidates) pact_alloc
         (winners_de candidates sub_allocs)
       = Ok res
    /\ (forall r, In r res ->
          (Z.of_nat (List.length (ResultadoPacto.candidatos_electos r))
           <= ResultadoPacto.escanos r)%Z)
    /\ sumZ (map ResultadoPacto.escanos res) = sumZ (values pact_alloc)
    /\ Permutation (map ResultadoPacto.pacto_id res)
                   (map Pact.id (pacts_de rows (parties_de rows candidates))).
Proof.
  set (parties := parties_de rows candidates).
  set (pacts := pacts_de rows parties).
  destruct (parties_de_spec rows candidates) as (Hnd & _ & _).
  fold parties in Hnd.
  assert (Hwf : wf_dict (pact_votes_de pacts)) by apply dict_of_items_is_wf.
  pose proof (dhondt_alloc_spec (pact_votes_de pacts) seats Hwf) as Hd.
  destruct (dhondt_alloc_values _ _ _ Hwf Hd) as [Hpos _].
  set (pa := map (fun k => (k, cuenta k (ganadores_de (pact_votes_de pacts)
                                           seats)))
                 (keys (pact_votes_de pacts))) in *.
  assert (Hkeys : keys pa = keys (pact_votes_de pacts))
    by apply keys_map_pair.
  assert (Hwfa : wf_dict pa) by (unfold wf_dict; now rewrite Hkeys).
  set (subs := flat_map (sub_alloc_de parties) pa).
  assert (Hsorted : forall k,
             In k (sort_desc (fun x => inject_Z (dict_get_default pa x 0%Z))
                             (keys pa)) -> In k (keys pa)).
  { intros k. apply Permutation_in, sort_desc_perm. }
  exists pa, subs. eexists. split; [|split].
  - unfold compute_dhondt. rewrite Hd. cbn [bind]. unfold asignar_partidos.
    rewrite asignar_partidos_flat. reflexivity.
  - unfold resultado_por_pacto_de.
    rewrite (resultado_con_escanos_run _ _ _ _ _ _ Hsorted). cbn [bind app].
    rewrite resultado_sin_escanos_run. reflexivity.
  - split; [|split].
    + intros r Hr. apply in_app_iff in Hr.
      destruct Hr as [Hr|Hr]; apply in_map_iff in Hr.
      * destruct Hr as (k & <- & Hk). cbn [ResultadoPacto.candidatos_electos
                                          ResultadoPacto.escanos].
        rewrite length_map, sort_desc_length.
        apply Hsorted in Hk.
        rewrite <- (dict_get_default_filter pa k Hwfa Hk).
        apply candidatos_pacto_length; assumption.
      * destruct Hr as (p & <- & _). simpl. lia.
    + rewrite map_app, sumZ_app, !map_map.
      cbn [ResultadoPacto.escanos].
      rewrite <- (dict_get_default_keys pa 0%Z Hwfa).
      rewrite <- (map_map (fun k => dict_get_default pa k 0%Z)
                          (fun z => z)), map_id.
      rewrite (sumZ_perm _ _
                 (Permutation_map (fun k => dict_get_default pa k 0%Z)
                    (sort_desc_perm
                       (fun x => inject_Z (dict_get_default pa x 0%Z))
                       (keys pa)))).
      assert (H0 : forall l : list Pact.t,
                 sumZ (map (fun _ => 0%Z) l) = 0%Z)
        by (induction l; simpl; auto).
      rewrite H0. lia.
    + rewrite map_app, !map_map. cbn [ResultadoPacto.pacto_id].
      rewrite map_id.
      rewrite (sort_desc_perm
                 (fun x => inject_Z (dict_get_default pa x 0%Z)) (keys pa)).
      assert (Hids : NoDup (map Pact.id pacts)).
      { unfold pacts. rewrite pacts_de_ids. apply unique_desde_NoDup. }
      pose proof (pact_votes_de_keys pacts Hids) as Hpv.
      rewrite Hkeys, Hpv.
      rewrite (filter_ext_in
                 (fun p => negb (existsb (String.eqb (Pact.id p))
                                         (map Pact.id
                                            (filter
                                               (fun q => negb (String.eqb
                                                                 (Pact.id q)
                                                                 ""))
                                               pacts))))
                 (fun p => negb (negb (String.eqb (Pact.id p) "")))).
      * rewrite <- map_app. apply Permutation_map.
        apply (filter_partition_perm
                 (fun p => negb (String.eqb (Pact.id p) ""))).
      * intros p Hp. f_equal.
        destruct (negb (String.eqb (Pact.id p) "")) eqn:Ev.
        -- apply existsb_eqb_In, in_map, filter_In. now split.
        -- apply not_true_iff_false. intros Hex.
           apply existsb_eqb_In, in_map_iff in Hex.
           destruct Hex as (q & Hq & Hin). apply filter_In in Hin.
           destruct Hin as [_ Hin]. rewrite Hq in Hin. congruence.
Qed.

End ResultadoProps.
